(** * Monte-Carlo estimation of pi: the two parallel examples of
      [notebooks/04-Parallel-Programming-with-Python.ipynb]

    The notebook contains two runnable estimators:

    - the threading example: [calcInside(nsamples, rank)] run by [nt]
      threads that share the module-level generator of [random] and the
      global counter [inside] (every increment taken under [lock]);
    - the multiprocessing example: [calcInside(rank)] mapped by a [Pool]
      over [range(processes)], each call returning its own ratio, the
      ratios being summarised with [np.mean].

    Conventions of the embedding.

    - Python integers are [Z].  The literal [12e6] of the notebook is the
      parameter [total]; the notebook's runs are [total = 12000000].
    - Python floats are binary64 numbers, the primitive floats of Rocq.
      The coordinates and the test [(x*x)+(y*y)<1], the quotient
      [12e6/nt] that [int] truncates, the estimate of the threading
      example, the ratios of the workers and [np.mean] are evaluated with
      them, roundings included (modules [Binary64] and [Interpreter]).
    - The modules [Threading] and [Multiprocessing] read the same
      expressions in exact arithmetic: the quotient [int] truncates is the
      exact one, a value is the rational it denotes ([Q], compared with
      [==]).  This is the reading in which the two ways of summarising the
      workers' results are the same number; a statement about it says so.
    - [random.seed] and [random.random] belong to Python's library; they are
      the interface [RandomModule] below.  [MersenneTwister] is CPython's
      generator, [Cyclic] a generator with a table of eight numbers; both
      implement the interface.
    - The threads share the module-level generator and the counter.  In
      [Interleaved] a thread advances by one statement at a time under an
      arbitrary schedule.  [Threading.calcInside] is one call run from its
      first statement to its last without a switch: what a thread does
      under the schedule without preemption ([run_solo]). *)

From Stdlib Require Import ZArith QArith Qfield List Lia Bool Permutation FinFun Floats Uint63.
Import ListNotations.

Local Open Scope Z_scope.

Set Warnings "-inexact-float".

(* ================================================================== *)
(** * Python primitives used by the notebook *)
(* ================================================================== *)

Module Py.

(** The exceptions the two examples can raise. *)
Inductive exn : Set :=
| ZeroDivisionError
| ValueError
| OverflowError.

Inductive result (A : Type) : Type :=
| Ok (a : A)
| Raise (e : exn).
Arguments Ok {A} a.
Arguments Raise {A} e.

Definition bind {A B : Type} (m : result A) (k : A -> result B) : result B :=
  match m with
  | Ok a => k a
  | Raise e => Raise e
  end.

(** [range(n)]: [0, 1, ..., n-1], empty when [n <= 0]. *)
Definition range (n : Z) : list Z :=
  map Z.of_nat (seq 0 (Z.to_nat n)).

(** [int(a / b)] read in exact arithmetic: the exact quotient, truncated
    toward zero; division by zero raises.  The interpreter's evaluation,
    a binary64 division, is [Binary64.int_div]; it gives the same integer
    when both operands are below [2^53] in absolute value
    ([int_div_exact]). *)
Definition int_div (a b : Z) : result Z :=
  if b =? 0 then Raise ZeroDivisionError else Ok (Z.quot a b).

(** [a / b] on numbers, read exactly. *)
Definition true_div (a b : Q) : result Q :=
  if Qeq_bool b 0 then Raise ZeroDivisionError else Ok (a / b)%Q.

(** [sum] of a list of integers. *)
Definition sum (l : list Z) : Z := fold_right Z.add 0 l.

(** Evaluate a list of computations from left to right, stopping at the
    first exception. *)
Fixpoint sequence {A : Type} (l : list (result A)) : result (list A) :=
  match l with
  | [] => Ok []
  | m :: ms =>
      bind m (fun a => bind (sequence ms) (fun rest => Ok (a :: rest)))
  end.

End Py.

Import Py.

Notation "x <- m ;; k" := (Py.bind m (fun x => k))
  (at level 61, m at next level, right associativity).

(* ================================================================== *)
(** * The [random] module *)
(* ================================================================== *)

(** [x] lies in the half-open unit interval. *)
Definition in_unit (x : float) : bool :=
  ((0 <=? x) && (x <? 1))%float.

(** The part of [random] the notebook calls: [random.seed(a)] replaces the
    generator state, [random.random()] returns the next number of [[0, 1)]
    and advances the state. *)
Class RandomModule : Type := {
  gen : Type;
  seed : Z -> gen;
  random : gen -> float * gen;
  random_unit : forall g, in_unit (fst (random g)) = true
}.

(* ================================================================== *)
(** * The sampling loop, common to both examples *)
(* ================================================================== *)

(** The guard [(x*x)+(y*y)<1] of both [calcInside]. *)
Definition in_circle (x y : float) : bool :=
  ((x * x) + (y * y) <? 1)%float.

Section Sampling.

Context {R : RandomModule}.

(** The body of [for i in range(nsamples)]: iterations left, generator
    state, counter.  [x] is drawn before [y]. *)
Fixpoint sample_loop (n : nat) (g : gen) (inside : Z) : gen * Z :=
  match n with
  | O => (g, inside)
  | S k =>
      let (x, g1) := random g in
      let (y, g2) := random g1 in
      if in_circle x y
      then sample_loop k g2 (inside + 1)
      else sample_loop k g2 inside
  end.

(** The first [n] pairs the generator yields from state [g], and the state
    it is left in. *)
Fixpoint draw_pairs (n : nat) (g : gen) : list (float * float) * gen :=
  match n with
  | O => ([], g)
  | S k =>
      let (x, g1) := random g in
      let (y, g2) := random g1 in
      let (ps, g') := draw_pairs k g2 in
      ((x, y) :: ps, g')
  end.

(** Number of pairs of a list that pass the guard. *)
Definition hits (ps : list (float * float)) : Z :=
  Z.of_nat (length (filter (fun p => in_circle (fst p) (snd p)) ps)).

(** Hits of one worker: the pairs drawn after seeding with [rank] that
    pass the guard. *)
Definition worker_hits (nsamples rank : Z) : Z :=
  hits (fst (draw_pairs (Z.to_nat nsamples) (seed rank))).

End Sampling.

(* ================================================================== *)
(** * Work split and seeds *)
(* ================================================================== *)

(** One entry per worker: the arguments [(samples, i)] of its call. *)
Definition worker_args (samples nt : Z) : list (Z * Z) :=
  map (fun i => (samples, i)) (range nt).

(** [samples=int(12e6/nt)] followed by the comprehension over
    [range(nt)]; the multiprocessing example computes the same quotient
    ([nsamples = int(12e6/processes)]) and maps over [range(processes)]. *)
Definition plan (total nt : Z) : result (list (Z * Z)) :=
  samples <- int_div total nt ;;
  Ok (worker_args samples nt).

Definition sampleCounts (p : list (Z * Z)) : list Z := map fst p.

(* ================================================================== *)
(** * Binary64 arithmetic of the interpreter *)
(* ================================================================== *)

(** The notebook divides the float [12e6] by the worker count and truncates
    the binary64 quotient; the values it prints are binary64 products,
    quotients and sums.  The definitions below compute exactly that, with
    the primitive floats. *)
Module Binary64.

(** The float of a small non-negative integer. *)
Definition float_of_Z (z : Z) : float := of_uint63 (Uint63.of_Z z).

(** [int(f)]: truncation toward zero; not defined on infinities and NaN. *)
Definition int_of_float (f : float) : option Z :=
  match Prim2SF f with
  | S754_zero _ => Some 0
  | S754_finite s m e =>
      let a := if 0 <=? e then Z.pos m * 2 ^ e else Z.pos m / 2 ^ (- e) in
      Some (if s then - a else a)
  | S754_infinity _ => None
  | S754_nan => None
  end.

(** [int(12e6/nt)] as the interpreter evaluates it. *)
Definition samples_binary64 (nt : Z) : option Z :=
  int_of_float (12e6 / float_of_Z nt)%float.

(** Does the binary64 computation agree with [int_div] at [nt]? *)
Definition agrees (nt : Z) : bool :=
  match samples_binary64 nt, int_div 12000000 nt with
  | Some a, Ok b => a =? b
  | _, _ => false
  end.

(** The integer [z] rounded to binary64: to nearest, ties to even,
    infinite beyond the largest float. *)
Definition round_int (z : Z) : spec_float :=
  binary_normalize prec emax z 0 false.

(** A float literal of integral value [z], such as [12e6]. *)
Definition literal (z : Z) : float := SF2Prim (round_int z).

(** The conversion of an integer operand of a float operation: an integer
    too large for a float raises. *)
Definition of_int (z : Z) : result float :=
  match round_int z with
  | S754_infinity _ => Raise OverflowError
  | x => Ok (SF2Prim x)
  end.

(** [x / y] on floats. *)
Definition true_div (x y : float) : result float :=
  if (y =? 0)%float then Raise ZeroDivisionError else Ok (x / y)%float.

(** [int(x)]: an infinity raises [OverflowError], a NaN [ValueError]. *)
Definition to_int (x : float) : result Z :=
  match int_of_float x with
  | Some z => Ok z
  | None => if is_nan x then Raise ValueError else Raise OverflowError
  end.

(** [int(12e6/nt)], with [12e6] as the parameter [total]: the worker count
    is converted to a float, the division is the binary64 one, the
    quotient is truncated. *)
Definition int_div (total nt : Z) : result Z :=
  d <- of_int nt ;;
  q <- true_div (literal total) d ;;
  to_int q.

(** [samples=int(12e6/nt)] followed by the comprehension over
    [range(nt)]. *)
Definition plan (total nt : Z) : result (list (Z * Z)) :=
  samples <- int_div total nt ;;
  Ok (worker_args samples nt).

(** [x * z] for a float [x] and an integer [z]. *)
Definition mul_int (x : float) (z : Z) : result float :=
  y <- of_int z ;; Ok (x * y)%float.

(** The estimate printed by the threading example:
    [(4.0*inside)/(1.0*samples*nt)]. *)
Definition estimate (inside samples nt : Z) : result float :=
  num <- mul_int 4 inside ;;
  d <- mul_int 1 samples ;;
  den <- mul_int d nt ;;
  true_div num den.

(** [(4.0*inside)/nsamples], the value a worker of the multiprocessing
    example returns; with the totals of all workers in place of [inside]
    and [nsamples] it is the pooled ratio
    [4.0 * totalHits / totalSamples]. *)
Definition ratio (inside nsamples : Z) : result float :=
  num <- mul_int 4 inside ;;
  d <- of_int nsamples ;;
  true_div num d.

(** *** [np.mean] of a list of floats

    numpy adds the elements with its pairwise summation: fewer than eight
    elements are added from left to right; up to 128 elements are added
    into eight running sums, which are then combined pairwise, the
    elements beyond the last full block of eight being added last; a
    longer list is split in two.  The sum, accumulated onto the additive
    identity, is divided by the number of elements. *)

Definition add_all (acc : float) (l : list float) : float :=
  fold_left PrimFloat.add l acc.

Fixpoint add_each (r l : list float) : list float :=
  match r, l with
  | x :: r', y :: l' => (x + y)%float :: add_each r' l'
  | _, _ => r
  end.

(** [blocks] further blocks of eight elements added into the running
    sums [r]; returns the sums and the elements left over. *)
Fixpoint add_blocks (blocks : nat) (r l : list float)
  : list float * list float :=
  match blocks with
  | O => (r, l)
  | S k => add_blocks k (add_each r (firstn 8 l)) (skipn 8 l)
  end.

Definition sum_unrolled (l : list float) : float :=
  let '(r, rest) := add_blocks (length l / 8 - 1) (firstn 8 l) (skipn 8 l) in
  match r with
  | [r0; r1; r2; r3; r4; r5; r6; r7] =>
      add_all (((r0 + r1) + (r2 + r3)) + ((r4 + r5) + (r6 + r7)))%float rest
  | _ => add_all 0%float l
  end.

Fixpoint pairwise_sum (fuel : nat) (l : list float) : float :=
  let n := length l in
  if (n <? 8)%nat then add_all 0%float l
  else if (n <=? 128)%nat then sum_unrolled l
  else match fuel with
       | O => sum_unrolled l
       | S f =>
           let n2 := (n / 2 - (n / 2) mod 8)%nat in
           (pairwise_sum f (firstn n2 l) + pairwise_sum f (skipn n2 l))%float
       end.

Definition np_sum (l : list float) : float :=
  (0 + pairwise_sum (length l) l)%float.

Definition np_mean (l : list float) : float :=
  (np_sum l / float_of_Z (Z.of_nat (length l)))%float.

End Binary64.

(* ------------------------------------------------------------------ *)
(** ** Binary64 numbers by their specification *)
(* ------------------------------------------------------------------ *)

(** The facts about the float operations are proved on the specification
    [spec_float] that the standard library gives of them: sign, mantissa
    and exponent. *)

(** The float of the integer [a], [0 < a < 2^53], with sign [s]: the
    mantissa is [a] shifted to 53 digits. *)
Definition SFint (s : bool) (a : Z) : spec_float :=
  S754_finite s (Z.to_pos (a * 2 ^ (53 - Zdigits2 a))) (Zdigits2 a - 53).

(** The result of rounding a mantissa to 53 digits: [m1] at exponent [e],
    renormalised when the rounding carried into a 54th digit. *)
Definition renorm (s : bool) (m1 e : Z) : spec_float :=
  if m1 <? 2 ^ 53 then S754_finite s (Z.to_pos m1) e
  else S754_finite s (Z.to_pos (2 ^ 52)) (e + 1).

(** Normal numbers: 53 digits and an exponent within range. *)
Definition normal (m e : Z) : Prop :=
  2 ^ 52 <= m < 2 ^ 53 /\ -1074 <= e <= 970.

(** Truncation toward zero of a float given by its specification. *)
Definition SFtrunc (x : spec_float) : option Z :=
  match x with
  | S754_zero _ => Some 0
  | S754_finite s m e =>
      let a := if 0 <=? e then Z.pos m * 2 ^ e else Z.pos m / 2 ^ (- e) in
      Some (if s then - a else a)
  | S754_infinity _ => None
  | S754_nan => None
  end.


Definition SFnull (x : spec_float) : bool :=
  match x with S754_zero _ => true | _ => false end.


Definition null (x : float) : bool := SFnull (Prim2SF x).

(* ================================================================== *)
(** * The threading example, one call at a time *)
(* ================================================================== *)

Module Threading.
Section Threading.

Context {R : RandomModule}.

(** What the threads share: the state of the module-level generator and
    the global [inside]. *)
Record globals : Type := {
  random_state : gen;
  inside : Z
}.

(** [calcInside(nsamples, rank)] run from its first statement to its last
    without a switch to another thread: reseed the shared generator with
    [rank], then run the loop on the shared counter. *)
Definition calcInside (nsamples rank : Z) (st : globals) : globals :=
  let (g, n) := sample_loop (Z.to_nat nsamples) (seed rank) (inside st) in
  {| random_state := g; inside := n |}.

(** The threads of a list, each run to completion before the next one
    starts, in list order. *)
Definition run_threads (threads : list (Z * Z)) (st : globals) : globals :=
  fold_left (fun s t => calcInside (fst t) (snd t) s) threads st.

(** The estimate printed last, [(4.0*inside)/(1.0*samples*nt)], as the
    rational it denotes. *)
Definition estimate (inside samples nt : Z) : result Q :=
  true_div (4 * inject_Z inside) (1 * inject_Z samples * inject_Z nt).

End Threading.
End Threading.

(* ================================================================== *)
(** * The multiprocessing example in exact arithmetic *)
(* ================================================================== *)

Module Multiprocessing.
Section Multiprocessing.

Context {R : RandomModule}.

(** The local counter of [calcInside(rank)] when the loop is left.  [g0]
    is the state of the worker process's generator when the call starts;
    [random.seed(rank)] overwrites it. *)
Definition calcInside_count (nsamples rank : Z) (g0 : gen) : Z :=
  let g := seed rank in
  snd (sample_loop (Z.to_nat nsamples) g 0).

(** [calcInside(rank)]: returns [(4.0*inside)/nsamples], [nsamples] being
    the module-level variable; the value is the quotient as a rational. *)
Definition calcInside (nsamples rank : Z) (g0 : gen) : result Q :=
  true_div (4 * inject_Z (calcInside_count nsamples rank g0))
           (inject_Z nsamples).

(** [np.mean] of a non-empty list in exact arithmetic: the sum divided by
    the length. *)
Definition np_mean (l : list Q) : Q :=
  (fold_right Qplus 0 l / inject_Z (Z.of_nat (length l)))%Q.

(** [Pool(processes)] rejects a worker count below one. *)
Definition Pool (processes : Z) : result Z :=
  if processes <? 1 then Raise ValueError else Ok processes.

(** [pool.map(calcInside, range(processes))]: results in rank order; an
    exception in a call is re-raised in the parent.  [worker_gen r] is the
    generator state of the process that serves rank [r]. *)
Definition pool_map (nsamples processes : Z) (worker_gen : Z -> gen)
  : result (list Q) :=
  sequence (map (fun r => calcInside nsamples r (worker_gen r))
                (range processes)).


End Multiprocessing.
End Multiprocessing.

(* ================================================================== *)
(** * Per-worker outcomes and their totals *)
(* ================================================================== *)

(** The outcome of one worker: how many pairs passed the guard, out of how
    many drawn. *)
Record TaskResult : Type := {
  hitCount : Z;
  sampleCount : Z
}.

Definition totalHits (rs : list TaskResult) : Z := sum (map hitCount rs).
Definition totalSamples (rs : list TaskResult) : Z := sum (map sampleCount rs).

(** The pooled ratio [4.0 * totalHits / totalSamples]. *)
Definition pooled (rs : list TaskResult) : Q :=
  (4 * inject_Z (totalHits rs) / inject_Z (totalSamples rs))%Q.

(** The ratio [4.0 * hitCount / sampleCount] of one worker. *)
Definition ratio (r : TaskResult) : Q :=
  (4 * inject_Z (hitCount r) / inject_Z (sampleCount r))%Q.

Section Outcomes.

Context {R : RandomModule}.

(** Outcome of the worker called with [(nsamples, rank)]: the loop runs
    [max(nsamples, 0)] times. *)
Definition task_result (t : Z * Z) : TaskResult :=
  {| hitCount := worker_hits (fst t) (snd t);
     sampleCount := Z.of_nat (Z.to_nat (fst t)) |}.

Definition task_results (p : list (Z * Z)) : list TaskResult :=
  map task_result p.

(** The hits of the workers of a split, in rank order. *)
Definition rank_hits (nsamples nt : Z) : list Z :=
  map (worker_hits nsamples) (range nt).

End Outcomes.

(* ------------------------------------------------------------------ *)
(** ** The two summaries of a list of outcomes *)
(* ------------------------------------------------------------------ *)

(** The sum [np.mean] divides by the length. *)
Definition Qsum (l : list Q) : Q := fold_right Qplus 0%Q l.

(** Outcomes with hit counts [hs] and sample counts [ns], position by
    position. *)
Definition results_of (hs ns : list Z) : list TaskResult :=
  map (fun hn => {| hitCount := fst hn; sampleCount := snd hn |})
      (combine hs ns).

(** For the sample counts [ns], the mean of the workers' ratios and the
    pooled ratio are the same number whatever the hit counts are. *)
Definition schemes_agree (ns : list Z) : Prop :=
  forall hs, Forall2 (fun h n => 0 <= h <= n) hs ns ->
    (Multiprocessing.np_mean (map ratio (results_of hs ns))
     == pooled (results_of hs ns))%Q.

Definition all_equal (ns : list Z) : Prop :=
  forall a b, In a ns -> In b ns -> a = b.

(* ================================================================== *)
(** * The threads under preemption *)
(* ================================================================== *)

(** The interpreter may switch threads between any two statements.  Here a
    thread advances by one statement at a time and a schedule names the
    thread that moves next.  The statements that touch shared data are
    [random.seed(rank)], the two [random.random()] calls, and the increment
    of [inside], which the lock makes indivisible. *)
Module Interleaved.
Section Interleaved.

Context {R : RandomModule}.

(** Where a thread stands in [calcInside]; [left] counts the iterations
    that remain after the current one. *)
Inductive position : Type :=
| AtSeed
| AtDrawX (left : nat)
| AtDrawY (left : nat) (x : float)
| AtTest (left : nat) (x y : float)
| Finished.

(** A thread: its arguments, its position, and [added], the number of
    increments of [inside] it has made so far. *)
Record thread : Type := {
  nsamples : Z;
  rank : Z;
  at_ : position;
  added : Z
}.

Record machine : Type := {
  generator : gen;
  inside : Z;
  threads : list thread
}.

(** The head of [for i in range(nsamples)] with [left] iterations to go. *)
Definition loop_head (left : nat) : position :=
  match left with
  | O => Finished
  | S k => AtDrawX k
  end.

Definition move (t : thread) (p : position) (d : Z) : thread :=
  {| nsamples := nsamples t; rank := rank t; at_ := p; added := added t + d |}.

(** One statement of thread [t] on the shared generator [g]: the new
    generator state, the thread afterwards, and what it adds to [inside]. *)
Definition thread_step (g : gen) (t : thread) : gen * thread * Z :=
  match at_ t with
  | AtSeed => (seed (rank t), move t (loop_head (Z.to_nat (nsamples t))) 0, 0)
  | AtDrawX k => let (x, g') := random g in (g', move t (AtDrawY k x) 0, 0)
  | AtDrawY k x => let (y, g') := random g in (g', move t (AtTest k x y) 0, 0)
  | AtTest k x y =>
      if in_circle x y
      then (g, move t (loop_head k) 1, 1)
      else (g, move t (loop_head k) 0, 0)
  | Finished => (g, t, 0)
  end.

(** Replace the thread at index [i]. *)
Fixpoint replace (i : nat) (t : thread) (l : list thread) : list thread :=
  match l, i with
  | [], _ => []
  | _ :: l', O => t :: l'
  | u :: l', S j => u :: replace j t l'
  end.

(** Thread [i] executes its next statement. *)
Definition step (m : machine) (i : nat) : machine :=
  match nth_error (threads m) i with
  | None => m
  | Some t =>
      let '(g, t', d) := thread_step (generator m) t in
      {| generator := g;
         inside := inside m + d;
         threads := replace i t' (threads m) |}
  end.

Definition run (schedule : list nat) (m : machine) : machine :=
  fold_left step schedule m.

(** A thread that has been created with arguments [a] and has not run
    yet. *)
Definition fresh (a : Z * Z) : thread :=
  {| nsamples := fst a; rank := snd a; at_ := AtSeed; added := 0 |}.

(** The machine after [inside = 0] and the creation of the threads. *)
Definition boot (args : list (Z * Z)) (g0 : gen) : machine :=
  {| generator := g0; inside := 0; threads := map fresh args |}.

(** Have all threads returned from [calcInside], so that the joins
    return? *)
Definition finished (m : machine) : bool :=
  forallb (fun t => match at_ t with Finished => true | _ => false end)
          (threads m).

(** The outcomes of the threads: increments made, iterations asked for. *)
Definition outcomes (m : machine) : list TaskResult :=
  map (fun t => {| hitCount := added t;
                   sampleCount := Z.of_nat (Z.to_nat (nsamples t)) |})
      (threads m).

(** Iterations of a thread whose test has not been executed yet. *)
Definition pending (t : thread) : Z :=
  match at_ t with
  | AtSeed => Z.of_nat (Z.to_nat (nsamples t))
  | AtDrawX k | AtDrawY k _ | AtTest k _ _ => Z.of_nat (S k)
  | Finished => 0
  end.

(** Steps of the machine a thread has yet to take: the seeding and three
    steps per iteration (the two draws; the test together with the locked
    increment).  A measure for the proofs below. *)
Definition steps_left (t : thread) : nat :=
  match at_ t with
  | AtSeed => 1 + 3 * Z.to_nat (nsamples t)
  | AtDrawX k => 3 + 3 * k
  | AtDrawY k _ => 2 + 3 * k
  | AtTest k _ _ => 1 + 3 * k
  | Finished => 0
  end.

(** The thread created with arguments [a] once it has returned, having
    made [h] increments. *)
Definition returned (a : Z * Z) (h : Z) : thread :=
  {| nsamples := fst a; rank := snd a; at_ := Finished; added := h |}.

(** A thread has made at most one increment per iteration it has
    completed. *)
Definition thread_ok (t : thread) : Prop :=
  0 <= added t /\ added t + pending t <= Z.of_nat (Z.to_nat (nsamples t)).

Definition machine_ok (m : machine) : Prop :=
  Forall thread_ok (threads m) /\ inside m = sum (map added (threads m)).

(** The schedule in which thread [i] executes [calcInside] from its first
    statement to its last: the seeding and three steps per iteration. *)
Definition solo (i : nat) (n : Z) : list nat :=
  repeat i (1 + 3 * Z.to_nat n).

(** The schedule in which the threads run one after the other, the thread
    of the first argument pair having index [i]. *)
Fixpoint sequential_from (i : nat) (args : list (Z * Z)) : list nat :=
  match args with
  | [] => []
  | a :: rest => solo i (fst a) ++ sequential_from (S i) rest
  end.

Definition sequential (args : list (Z * Z)) : list nat :=
  sequential_from 0 args.

End Interleaved.
End Interleaved.

(* ================================================================== *)
(** * The two examples as the interpreter runs them *)
(* ================================================================== *)

(** Binary64 arithmetic throughout, and the threads of the threading
    example under a schedule. *)
Module Interpreter.
Section Interpreter.

Context {R : RandomModule}.

(** What a run of the threading example leaves behind: the threads that
    were started, and what its last line did: nothing yet ([None]) as long
    as the joins have not returned, the number printed or the exception
    raised afterwards. *)
Record report : Type := {
  started : list (Z * Z);
  outcome : option (result float)
}.

(** The [__main__] block of the threading example, with [12e6] and
    [nt = 4] as parameters, under a schedule of its threads; [g0] is the
    generator state at start-up. *)
Definition threading (schedule : list nat) (total nt : Z) (g0 : gen)
  : report :=
  match Binary64.int_div total nt with
  | Raise e => {| started := []; outcome := Some (Raise e) |}
  | Ok samples =>
      let threads := worker_args samples nt in
      let m := Interleaved.run schedule (Interleaved.boot threads g0) in
      {| started := threads;
         outcome :=
           if Interleaved.finished m
           then Some (Binary64.estimate (Interleaved.inside m) samples nt)
           else None |}
  end.

(** [calcInside(rank)] of the multiprocessing example: returns
    [(4.0*inside)/nsamples], [nsamples] being the module-level variable;
    [g0] is the state of the worker process's generator when the call
    starts. *)
Definition calcInside (nsamples rank : Z) (g0 : gen) : result float :=
  Binary64.ratio (Multiprocessing.calcInside_count nsamples rank g0) nsamples.

(** [pool.map(calcInside, range(processes))]: results in rank order; an
    exception in a call is re-raised in the parent. *)
Definition pool_map (nsamples processes : Z) (worker_gen : Z -> gen)
  : result (list float) :=
  sequence (map (fun r => calcInside nsamples r (worker_gen r))
                (range processes)).

(** The module body and the [__main__] block of the multiprocessing
    example, with [12e6] and [mp.cpu_count()] as parameters. *)
Definition multiprocessing (total processes : Z) (worker_gen : Z -> gen)
  : result float :=
  nsamples <- Binary64.int_div total processes ;;
  _ <- Multiprocessing.Pool processes ;;
  result <- pool_map nsamples processes worker_gen ;;
  Ok (Binary64.np_mean result).

End Interpreter.
End Interpreter.

(* ================================================================== *)
(** * A small generator to run the definitions on *)
(* ================================================================== *)

(** A generator that cycles through eight binary fractions, [seed s]
    starting the cycle at position [s]: small enough to follow the
    definitions by hand. *)
Module Cyclic.

Definition table : list float :=
  [0.5; 0.25; 0.75; 0.75; 0.125; 0.5; 0.875; 0.625]%float.

Definition next (g : Z) : float * Z :=
  (nth (Z.to_nat (g mod 8)) table 0%float, g + 1).

Lemma table_unit (n : nat) : in_unit (nth n table 0%float) = true.
Proof.
  do 8 (destruct n as [|n]; [reflexivity|]).
  destruct n; reflexivity.
Qed.

Lemma next_unit (g : Z) : in_unit (fst (next g)) = true.
Proof. apply table_unit. Qed.

#[export] Instance generator : RandomModule :=
  {| gen := Z; seed := fun s => s; random := next; random_unit := next_unit |}.

(** The generator state at position [k] of the cycle. *)
Definition position (k : Z) : @gen generator := k.

(** The shared state of the threading example at start-up: generator at
    position [k], counter at [0]. *)
Definition start (k : Z) : @Threading.globals generator :=
  {| Threading.random_state := position k; Threading.inside := 0 |}.

End Cyclic.

(* ================================================================== *)
(** * Python's generator *)
(* ================================================================== *)

(** The generator behind [random.seed] and [random.random] in CPython is
    the Mersenne Twister MT19937 of [_randommodule.c]: 624 words of 32
    bits and an index.  It is not part of the notebook; it is modelled
    here to run the two examples on the numbers Python draws. *)
Module MersenneTwister.

Definition N : nat := 624.
Definition M : nat := 397.

(** A value stored in a [uint32_t]. *)
Definition u32 (z : Z) : Z := Z.land z 0xffffffff.

Definition get (mt : list Z) (i : nat) : Z := nth i mt 0.

Fixpoint set (mt : list Z) (i : nat) (v : Z) : list Z :=
  match mt, i with
  | [], _ => []
  | _ :: l, O => v :: l
  | w :: l, S j => w :: set l j v
  end.

(** [init_genrand(s)]: [mt[0] = s], then
    [mt[i] = 1812433253 * (mt[i-1] ^ (mt[i-1] >> 30)) + i]. *)
Fixpoint init_genrand_from (n : nat) (mti prev : Z) : list Z :=
  match n with
  | O => []
  | S k =>
      let v := u32 (1812433253 * Z.lxor prev (Z.shiftr prev 30) + mti) in
      v :: init_genrand_from k (mti + 1) v
  end.

Definition init_genrand (s : Z) : list Z :=
  u32 s :: init_genrand_from (N - 1) 1 (u32 s).

(** [if (i >= N) { mt[0] = mt[N-1]; i = 1; }] *)
Definition wrap (mt : list Z) (i : nat) : list Z * nat :=
  if (N <=? i)%nat then (set mt 0 (get mt (N - 1)), 1%nat) else (mt, i).

(** One round of the first loop of [init_by_array]:
    [mt[i] = (mt[i] ^ ((mt[i-1] ^ (mt[i-1] >> 30)) * 1664525))
             + init_key[j] + j]. *)
Definition mix_key (key : list Z) (st : list Z * nat * nat)
  : list Z * nat * nat :=
  let '(mt, i, j) := st in
  let p := get mt (i - 1) in
  let v := u32 (Z.lxor (get mt i) (u32 (Z.lxor p (Z.shiftr p 30) * 1664525))
                + get key j + Z.of_nat j) in
  let (mt', i') := wrap (set mt i v) (S i) in
  (mt', i', if (length key <=? S j)%nat then O else S j).

(** One round of its second loop:
    [mt[i] = (mt[i] ^ ((mt[i-1] ^ (mt[i-1] >> 30)) * 1566083941)) - i]. *)
Definition mix_index (st : list Z * nat) : list Z * nat :=
  let (mt, i) := st in
  let p := get mt (i - 1) in
  let v := u32 (Z.lxor (get mt i) (u32 (Z.lxor p (Z.shiftr p 30) * 1566083941))
                - Z.of_nat i) in
  wrap (set mt i v) (S i).

Definition init_by_array (key : list Z) : list Z :=
  let '(mt, i, _) :=
    Nat.iter (Nat.max N (length key)) (mix_key key)
             (init_genrand 19650218, 1%nat, O) in
  let (mt', _) := Nat.iter (N - 1) mix_index (mt, i) in
  set mt' 0 0x80000000.

(** The key [random.seed(a)] makes of an integer: the 32-bit words of its
    absolute value, the least significant one first. *)
Definition key_of (s : Z) : list Z :=
  let n := Z.abs s in
  map (fun k => u32 (Z.shiftr n (32 * Z.of_nat k)))
      (seq 0 (S (Z.to_nat (Z.log2 n / 32)))).

(** The regeneration of the 624 words, word [kk] from the words [kk],
    [kk + 1] and [kk + M], indices taken modulo [N]. *)
Definition twist_at (mt : list Z) (kk : nat) : list Z :=
  let y := Z.lor (Z.land (get mt kk) 0x80000000)
                 (Z.land (get mt ((kk + 1) mod N)) 0x7fffffff) in
  set mt kk (Z.lxor (Z.lxor (get mt ((kk + M) mod N)) (Z.shiftr y 1))
                    (if Z.odd y then 0x9908b0df else 0)).

Definition twist (mt : list Z) : list Z := fold_left twist_at (seq 0 N) mt.

Definition temper (y0 : Z) : Z :=
  let y1 := Z.lxor y0 (Z.shiftr y0 11) in
  let y2 := Z.lxor y1 (Z.land (Z.shiftl y1 7) 0x9d2c5680) in
  let y3 := Z.lxor y2 (Z.land (Z.shiftl y2 15) 0xefc60000) in
  Z.lxor y3 (Z.shiftr y3 18).

Record state : Type := { words : list Z; index : nat }.

Definition genrand_uint32 (g : state) : Z * state :=
  let g' := if (N <=? index g)%nat
            then {| words := twist (words g); index := O |} else g in
  (u32 (temper (get (words g') (index g'))),
   {| words := words g'; index := S (index g') |}).

(** [random.random()]: with [a] and [b] the top 27 and 26 bits of two
    words, [(a*67108864.0+b)*(1.0/9007199254740992.0)].  The integer
    [a * 2^26 + b] is below [2^53], so every operation of the C expression
    is exact and its value is that integer divided by [2^53]. *)
Definition random_random (g : state) : float * state :=
  let (a, g1) := genrand_uint32 g in
  let (b, g2) := genrand_uint32 g1 in
  ((Binary64.float_of_Z (Z.shiftr a 5 * 67108864 + Z.shiftr b 6)
    / 9007199254740992)%float, g2).

(** [random.seed(a)] for an integer [a]. *)
Definition random_seed (s : Z) : state :=
  {| words := init_by_array (key_of s); index := N |}.

End MersenneTwister.

(* ================================================================== *)
(** * The mpi4py examples *)
(* ================================================================== *)

(** The three message-passing cells: a dictionary sent from rank 0 to
    rank 1, a count followed by an array sent the same way, and a gather
    of one block per rank onto rank 0.  Array elements are binary64
    numbers, read here as the rationals they are meant to be, like the
    estimates above. *)
Module Numpy.

(** Replace the last element of a list. *)
Definition set_last (l : list Q) (v : Q) : list Q :=
  match l with
  | [] => []
  | _ :: _ => removelast l ++ [v]
  end.

(** [np.linspace(start, stop, num)], end point included: the multiples
    [0, 1, ..., num-1] of the step, shifted by [start], the last sample
    being set to [stop].  A negative [num] is refused. *)
Definition linspace (start stop : Q) (num : Z) : result (list Q) :=
  if num <? 0 then Raise ValueError
  else
    let div := num - 1 in
    let delta := (stop - start)%Q in
    let y := map inject_Z (range num) in
    let y :=
      if 0 <? div
      then
        let step := (delta / inject_Z div)%Q in
        if Qeq_bool step 0
        then map (fun v => v / inject_Z div * delta)%Q y
        else map (fun v => v * step)%Q y
      else map (fun v => v * delta)%Q y in
    let y := map (fun v => v + start)%Q y in
    Ok (if 1 <? num then set_last y stop else y).

(** [np.empty(n, dtype='d')]: [n] elements of whatever the memory holds,
    [junk i] standing for the content of slot [i]. *)
Definition empty (junk : nat -> Q) (n : Z) : result (list Q) :=
  if n <? 0 then Raise ValueError
  else Ok (map junk (seq 0 (Z.to_nat n))).

(** The same [linspace] on binary64 numbers, as the library evaluates
    it. *)
Definition set_last_binary64 (l : list float) (v : float) : list float :=
  match l with
  | [] => []
  | _ :: _ => removelast l ++ [v]
  end.

Definition linspace_binary64 (start stop : float) (num : Z) : list float :=
  let div := Binary64.float_of_Z (num - 1) in
  let delta := (stop - start)%float in
  let y := map Binary64.float_of_Z (range num) in
  let y :=
    if 0 <? num - 1
    then
      let step := (delta / div)%float in
      if (step =? 0)%float
      then map (fun v => v / div * delta)%float y
      else map (fun v => v * step)%float y
    else map (fun v => v * delta)%float y in
  let y := map (fun v => v + start)%float y in
  if 1 <? num then set_last_binary64 y stop else y.

End Numpy.

Module MPI.

(** How a rank can stop: a Python exception, or the library's
    [Invalid rank] exception of a send to a rank outside the
    communicator. *)
Inductive failure : Type :=
| Python (e : exn)
| InvalidRank (dest size : Z).

(** Is [r] a rank of a communicator of [size] processes? *)
Definition valid_rank (size r : Z) : bool :=
  (0 <=? r) && (r <? size).

(* ------------------------------------------------------------------ *)
(** ** Point-to-point: the dictionary *)
(* ------------------------------------------------------------------ *)

Section Dictionary.

(** The dictionary and its type; [comm.send] pickles it and [comm.recv]
    returns the object unpickled. *)
Variable A : Type.
Variable data : A.

Inductive sender : Type :=
| ToSend
| Sent
| SendFailed (f : failure).

Inductive receiver : Type :=
| ToRecv
| ToPrint (d : A)
| Printed.

(** Ranks 0 and 1, the messages under way from 0 to 1 in the order sent,
    and what rank 1 has printed. *)
Record world : Type := {
  at0 : sender;
  at1 : receiver;
  channel : list A;
  stdout1 : list A
}.

Definition init : world :=
  {| at0 := ToSend; at1 := ToRecv; channel := []; stdout1 := [] |}.

(** Rank [r] of a communicator of [size] processes executes its next
    statement.  A receive with nothing to take waits; ranks other than 0
    and 1 enter neither branch. *)
Definition step (size : Z) (w : world) (r : Z) : world :=
  if negb (valid_rank size r) then w
  else if r =? 0 then
    match at0 w with
    | ToSend =>
        if valid_rank size 1
        then {| at0 := Sent; at1 := at1 w;
                channel := channel w ++ [data]; stdout1 := stdout1 w |}
        else {| at0 := SendFailed (InvalidRank 1 size); at1 := at1 w;
                channel := channel w; stdout1 := stdout1 w |}
    | _ => w
    end
  else if r =? 1 then
    match at1 w with
    | ToRecv =>
        match channel w with
        | d :: rest =>
            {| at0 := at0 w; at1 := ToPrint d;
               channel := rest; stdout1 := stdout1 w |}
        | [] => w
        end
    | ToPrint d =>
        {| at0 := at0 w; at1 := Printed;
           channel := channel w; stdout1 := stdout1 w ++ [d] |}
    | Printed => w
    end
  else w.

Definition run (size : Z) (schedule : list Z) (w : world) : world :=
  fold_left (step size) schedule w.

End Dictionary.

Arguments ToRecv {A}.
Arguments ToPrint {A} d.
Arguments Printed {A}.
Arguments at0 {A} w.
Arguments at1 {A} w.
Arguments channel {A} w.
Arguments stdout1 {A} w.
Arguments init {A}.
Arguments step {A} data size w r.
Arguments run {A} data size schedule w.

(* ------------------------------------------------------------------ *)
(** ** Point-to-point: a count, then an array *)
(* ------------------------------------------------------------------ *)

Module Array.
Section Array.

(** [numData], the end points of the [linspace], and the content of the
    memory [np.empty] hands out. *)
Variable numData : Z.
Variables start stop : Q.
Variable junk : nat -> Q.

Inductive message : Type :=
| Obj (n : Z)
| Buf (l : list Q).

Inductive output : Type :=
| Line_count (n : Z)
| Line_data (l : list Q).

Inductive sender : Type :=
| SendCount
| SendData
| Sent
| SendFailed (f : failure).

Inductive receiver : Type :=
| RecvCount
| PrintCount (n : Z)
| Allocate (n : Z)
| RecvData (buffer : list Q)
| PrintData (buffer : list Q)
| Printed
| RecvFailed (f : failure).

Record world : Type := {
  at0 : sender;
  at1 : receiver;
  channel : list message;
  stdout1 : list output
}.

Definition init : world :=
  {| at0 := SendCount; at1 := RecvCount; channel := []; stdout1 := [] |}.

(** [comm.Recv(data, source=0)] into [buffer]: the array at the head of
    the channel overwrites the front of the buffer when it fits. *)
Definition Recv (buffer : list Q) (l : list Q) : option (list Q) :=
  if (length l <=? length buffer)%nat
  then Some (l ++ skipn (length l) buffer)
  else None.

Definition step (size : Z) (w : world) (r : Z) : world :=
  if negb (valid_rank size r) then w
  else if r =? 0 then
    match at0 w with
    | SendCount =>
        if valid_rank size 1
        then {| at0 := SendData; at1 := at1 w;
                channel := channel w ++ [Obj numData];
                stdout1 := stdout1 w |}
        else {| at0 := SendFailed (InvalidRank 1 size); at1 := at1 w;
                channel := channel w; stdout1 := stdout1 w |}
    | SendData =>
        match Numpy.linspace start stop numData with
        | Ok l =>
            {| at0 := Sent; at1 := at1 w;
               channel := channel w ++ [Buf l]; stdout1 := stdout1 w |}
        | Raise e =>
            {| at0 := SendFailed (Python e); at1 := at1 w;
               channel := channel w; stdout1 := stdout1 w |}
        end
    | _ => w
    end
  else if r =? 1 then
    match at1 w with
    | RecvCount =>
        match channel w with
        | Obj n :: rest =>
            {| at0 := at0 w; at1 := PrintCount n;
               channel := rest; stdout1 := stdout1 w |}
        | _ => w
        end
    | PrintCount n =>
        {| at0 := at0 w; at1 := Allocate n;
           channel := channel w; stdout1 := stdout1 w ++ [Line_count n] |}
    | Allocate n =>
        match Numpy.empty junk n with
        | Ok buffer =>
            {| at0 := at0 w; at1 := RecvData buffer;
               channel := channel w; stdout1 := stdout1 w |}
        | Raise e =>
            {| at0 := at0 w; at1 := RecvFailed (Python e);
               channel := channel w; stdout1 := stdout1 w |}
        end
    | RecvData buffer =>
        match channel w with
        | Buf l :: rest =>
            match Recv buffer l with
            | Some filled =>
                {| at0 := at0 w; at1 := PrintData filled;
                   channel := rest; stdout1 := stdout1 w |}
            | None => w
            end
        | _ => w
        end
    | PrintData buffer =>
        {| at0 := at0 w; at1 := Printed;
           channel := channel w; stdout1 := stdout1 w ++ [Line_data buffer] |}
    | _ => w
    end
  else w.

Definition run (size : Z) (schedule : list Z) (w : world) : world :=
  fold_left (step size) schedule w.

End Array.
End Array.

(* ------------------------------------------------------------------ *)
(** ** The gather *)
(* ------------------------------------------------------------------ *)

Section Gathering.

Variable numDataPerRank : Z.
Variable junk : nat -> Q.

(** [np.linspace(rank*numDataPerRank+1, (rank+1)*numDataPerRank,
    numDataPerRank)]. *)
Definition sendbuf (rank : Z) : result (list Q) :=
  Numpy.linspace (inject_Z (rank * numDataPerRank + 1))
                 (inject_Z ((rank + 1) * numDataPerRank))
                 numDataPerRank.

(** [recvbuf]: allocated on rank 0 only. *)
Definition recvbuf (size rank : Z) : result (option (list Q)) :=
  if rank =? 0
  then buffer <- Numpy.empty junk (numDataPerRank * size) ;; Ok (Some buffer)
  else Ok None.

(** [comm.Gather(sendbuf, recvbuf, root=0)] seen from all ranks at once:
    the blocks, in rank order, fill the buffer of rank 0; the other ranks
    keep [None].  Defined when the buffer has exactly the room needed. *)
Definition Gather (sendbufs : list (list Q))
                  (recvbufs : list (option (list Q)))
  : option (list (option (list Q))) :=
  match recvbufs with
  | Some buffer :: others =>
      if (length (concat sendbufs) =? length buffer)%nat
      then Some (Some (concat sendbufs) :: others)
      else None
  | _ => None
  end.

(** The cell run by [size] processes (the [print]s left out): what each
    rank holds in [recvbuf] at the end; [Ok None] when the collective does
    not apply. *)
Definition gather (size : Z)
  : result (option (list (option (list Q)))) :=
  sendbufs <- sequence (map sendbuf (range size)) ;;
  recvbufs <- sequence (map (recvbuf size) (range size)) ;;
  Ok (Gather sendbufs recvbufs).

End Gathering.

(** Does the binary64 [sendbuf] of a rank hold exactly the integers
    [rank*n + 1, ..., rank*n + n]? *)
Definition sendbuf_binary64_exact (n rank : Z) : bool :=
  let got := Numpy.linspace_binary64
               (Binary64.float_of_Z (rank * n + 1))
               (Binary64.float_of_Z ((rank + 1) * n)) n in
  let want := map (fun i => Binary64.float_of_Z (rank * n + 1 + i))
                  (range n) in
  (length got =? length want)%nat
  && forallb (fun p => (fst p =? snd p)%float) (combine got want).

End MPI.

(* ------------------------------------------------------------------ *)
(** ** What the channel and the output must hold *)
(* ------------------------------------------------------------------ *)

(** The states of the count-and-array exchange tied together: what rank 0
    has sent so far, how many messages rank 1 has taken and what it has
    printed, [data] being the array sent and [buffer] the array
    allocated. *)
Module Exchange.
Section Exchange.

Variable numData : Z.
Variable data buffer : list Q.

Definition sent_by (s : MPI.Array.sender) : list MPI.Array.message :=
  match s with
  | MPI.Array.SendCount => []
  | MPI.Array.SendData => [MPI.Array.Obj numData]
  | MPI.Array.Sent => [MPI.Array.Obj numData; MPI.Array.Buf data]
  | MPI.Array.SendFailed _ => []
  end.

Definition taken_by (r : MPI.Array.receiver) : nat :=
  match r with
  | MPI.Array.RecvCount => 0
  | MPI.Array.PrintCount _ | MPI.Array.Allocate _ | MPI.Array.RecvData _ => 1
  | MPI.Array.PrintData _ | MPI.Array.Printed => 2
  | MPI.Array.RecvFailed _ => 0
  end.

Definition printed_by (r : MPI.Array.receiver) : list MPI.Array.output :=
  match r with
  | MPI.Array.RecvCount | MPI.Array.PrintCount _ => []
  | MPI.Array.Allocate _ | MPI.Array.RecvData _ | MPI.Array.PrintData _ =>
      [MPI.Array.Line_count numData]
  | MPI.Array.Printed =>
      [MPI.Array.Line_count numData; MPI.Array.Line_data data]
  | MPI.Array.RecvFailed _ => []
  end.

Definition sender_ok (s : MPI.Array.sender) : Prop :=
  match s with
  | MPI.Array.SendFailed _ => False
  | _ => True
  end.

Definition receiver_ok (r : MPI.Array.receiver) : Prop :=
  match r with
  | MPI.Array.PrintCount n | MPI.Array.Allocate n => n = numData
  | MPI.Array.RecvData b => b = buffer
  | MPI.Array.PrintData b => b = data
  | MPI.Array.RecvFailed _ => False
  | _ => True
  end.

Definition consistent (w : MPI.Array.world) : Prop :=
  sender_ok (MPI.Array.at0 w)
  /\ receiver_ok (MPI.Array.at1 w)
  /\ (taken_by (MPI.Array.at1 w) <= length (sent_by (MPI.Array.at0 w)))%nat
  /\ MPI.Array.channel w
     = skipn (taken_by (MPI.Array.at1 w)) (sent_by (MPI.Array.at0 w))
  /\ MPI.Array.stdout1 w = printed_by (MPI.Array.at1 w).

(** Where a statement of rank 0 leads the sender. *)
Definition sender_next (s : MPI.Array.sender) : MPI.Array.sender :=
  match s with
  | MPI.Array.SendCount => MPI.Array.SendData
  | MPI.Array.SendData => MPI.Array.Sent
  | _ => s
  end.

(** Where a statement of rank 1 leads the receiver, the sender being at
    [s]: a receive waits until its message has been sent. *)
Definition receiver_next (s : MPI.Array.sender) (r : MPI.Array.receiver)
  : MPI.Array.receiver :=
  match r with
  | MPI.Array.RecvCount =>
      match s with
      | MPI.Array.SendData | MPI.Array.Sent => MPI.Array.PrintCount numData
      | _ => r
      end
  | MPI.Array.PrintCount n => MPI.Array.Allocate n
  | MPI.Array.Allocate _ => MPI.Array.RecvData buffer
  | MPI.Array.RecvData _ =>
      match s with
      | MPI.Array.Sent => MPI.Array.PrintData data
      | _ => r
      end
  | MPI.Array.PrintData _ => MPI.Array.Printed
  | _ => r
  end.

(** The state in which both ranks are through. *)
Definition final : MPI.Array.world :=
  {| MPI.Array.at0 := MPI.Array.Sent;
     MPI.Array.at1 := MPI.Array.Printed;
     MPI.Array.channel := [];
     MPI.Array.stdout1 :=
       [MPI.Array.Line_count numData; MPI.Array.Line_data data] |}.

End Exchange.
End Exchange.

(* ================================================================== *)
(** * Facts about the Python primitives *)
(* ================================================================== *)

Lemma range_length (n : Z) : length (range n) = Z.to_nat n.
Proof. unfold range. now rewrite length_map, length_seq. Qed.

Lemma range_nth (n i : Z) :
  0 <= i < n -> nth_error (range n) (Z.to_nat i) = Some i.
Proof.
  intros Hi. unfold range.
  rewrite nth_error_map, nth_error_seq.
  destruct (Nat.ltb_spec (Z.to_nat i) (Z.to_nat n)) as [_|Hge]; [|lia].
  simpl. f_equal. lia.
Qed.


Lemma sum_app (l1 l2 : list Z) : sum (l1 ++ l2) = sum l1 + sum l2.
Proof. induction l1 as [|a l1 IH]; simpl; [reflexivity|]. rewrite IH. lia. Qed.

Lemma sum_const (c : Z) (A : Type) (l : list A) :
  sum (map (fun _ => c) l) = Z.of_nat (length l) * c.
Proof.
  induction l as [|a l IH]; [reflexivity|].
  cbn [map length sum fold_right]. fold (sum (map (fun _ : A => c) l)).
  rewrite IH. lia.
Qed.


Lemma int_div_nonzero (total nt : Z) :
  nt <> 0 -> int_div total nt = Ok (Z.quot total nt).
Proof.
  intros Hnt. unfold int_div.
  destruct (Z.eqb_spec nt 0); [contradiction|reflexivity].
Qed.

Lemma int_div_pos (total nt : Z) :
  1 <= nt -> int_div total nt = Ok (Z.quot total nt).
Proof. intros Hnt. apply int_div_nonzero. lia. Qed.

(** On the claims' domain truncation and floor coincide. *)
Lemma quot_floor (total nt : Z) :
  0 <= total -> 1 <= nt -> Z.quot total nt = total / nt.
Proof. intros. apply Z.quot_div_nonneg; lia. Qed.

(* ------------------------------------------------------------------ *)
(** ** The work split *)
(* ------------------------------------------------------------------ *)

Lemma worker_args_length (samples nt : Z) :
  length (worker_args samples nt) = Z.to_nat nt.
Proof. unfold worker_args. now rewrite length_map, range_length. Qed.

Lemma worker_args_counts (samples nt : Z) :
  sampleCounts (worker_args samples nt) = repeat samples (Z.to_nat nt).
Proof.
  unfold sampleCounts, worker_args, range.
  rewrite !map_map. cbn [fst].
  generalize 0%nat. induction (Z.to_nat nt) as [|k IH]; intros s.
  - reflexivity.
  - simpl. now rewrite IH.
Qed.


Lemma sum_repeat (c : Z) (k : nat) : sum (repeat c k) = Z.of_nat k * c.
Proof.
  induction k as [|k IH]; [reflexivity|].
  change (sum (repeat c (S k))) with (c + sum (repeat c k)).
  rewrite IH. lia.
Qed.


(** The binary64 evaluation of [int(12e6/nt)] is [int_div 12000000 nt] for
    every worker count from 1 to 4096. *)
Lemma samples_binary64_agrees :
  forallb Binary64.agrees (map Z.of_nat (seq 1 4096)) = true.
Proof. vm_compute. reflexivity. Qed.

(* ================================================================== *)
(** * The sampling loop *)
(* ================================================================== *)

(** A sum that rounds to exactly [1] does not pass the guard. *)
Lemma boundary_not_inside (x y : float) :
  ((x * x) + (y * y) =? 1)%float = true -> in_circle x y = false.
Proof.
  unfold in_circle. rewrite FloatAxioms.eqb_spec, FloatAxioms.ltb_spec.
  unfold SFeqb, SFltb.
  destruct (SFcompare _ _) as [[ | | ]|]; intros H; try discriminate H;
    reflexivity.
Qed.

Lemma hits_cons (p : float * float) (ps : list (float * float)) :
  hits (p :: ps) = (if in_circle (fst p) (snd p) then 1 else 0) + hits ps.
Proof.
  unfold hits. cbn [filter].
  destruct (in_circle (fst p) (snd p)); cbn [length]; lia.
Qed.

Lemma hits_bounds (ps : list (float * float)) :
  0 <= hits ps <= Z.of_nat (length ps).
Proof.
  unfold hits. split; [lia|].
  apply Nat2Z.inj_le, filter_length_le.
Qed.

Section SamplingFacts.

Context {R : RandomModule}.

(** Loop invariant: the counter never decreases and grows by at most one
    per iteration. *)
Lemma sample_loop_invariant (n : nat) :
  forall (g : gen) (c : Z),
    c <= snd (sample_loop n g c) <= c + Z.of_nat n.
Proof.
  induction n as [|k IH]; intros g c.
  - simpl. lia.
  - cbn [sample_loop].
    destruct (random g) as [x g1]. destruct (random g1) as [y g2].
    destruct (in_circle x y).
    + specialize (IH g2 (c + 1)). lia.
    + specialize (IH g2 c). lia.
Qed.

(** The loop consumes the first [n] pairs of the generator and adds to the
    counter the number of those that pass the guard. *)
Lemma sample_loop_draws (n : nat) :
  forall (g : gen) (c : Z),
    sample_loop n g c
    = (snd (draw_pairs n g), c + hits (fst (draw_pairs n g))).
Proof.
  induction n as [|k IH]; intros g c.
  - cbn. f_equal. lia.
  - cbn [sample_loop draw_pairs].
    destruct (random g) as [x g1]. destruct (random g1) as [y g2].
    specialize (IH g2).
    destruct (draw_pairs k g2) as [ps g'] eqn:Hd.
    cbn [fst snd] in *. rewrite hits_cons. cbn [fst snd].
    destruct (in_circle x y); rewrite IH; f_equal; lia.
Qed.

Lemma draw_pairs_length (n : nat) :
  forall g : gen, length (fst (draw_pairs n g)) = n.
Proof.
  induction n as [|k IH]; intros g; [reflexivity|].
  cbn [draw_pairs].
  destruct (random g) as [x g1]. destruct (random g1) as [y g2].
  specialize (IH g2). destruct (draw_pairs k g2) as [ps g'].
  cbn [fst length] in *. now rewrite IH.
Qed.

Lemma draw_pairs_unit (n : nat) :
  forall g : gen,
    Forall (fun p => in_unit (fst p) = true /\ in_unit (snd p) = true)
           (fst (draw_pairs n g)).
Proof.
  induction n as [|k IH]; intros g; [constructor|].
  cbn [draw_pairs].
  pose proof (random_unit g) as Hx.
  destruct (random g) as [x g1].
  pose proof (random_unit g1) as Hy.
  destruct (random g1) as [y g2].
  specialize (IH g2). destruct (draw_pairs k g2) as [ps g'].
  cbn [fst snd] in *. constructor; [split; assumption|exact IH].
Qed.

Lemma worker_hits_bounds (nsamples rank : Z) :
  0 <= worker_hits nsamples rank <= Z.of_nat (Z.to_nat nsamples).
Proof.
  unfold worker_hits.
  pose proof (hits_bounds (fst (draw_pairs (Z.to_nat nsamples) (seed rank)))).
  now rewrite draw_pairs_length in *.
Qed.

Lemma threading_calcInside_inside (nsamples rank : Z) (st : Threading.globals) :
  Threading.inside (Threading.calcInside nsamples rank st)
  = Threading.inside st + worker_hits nsamples rank.
Proof.
  unfold Threading.calcInside, worker_hits.
  now rewrite sample_loop_draws.
Qed.

Lemma mp_calcInside_count (nsamples rank : Z) (g0 : gen) :
  Multiprocessing.calcInside_count nsamples rank g0
  = worker_hits nsamples rank.
Proof.
  unfold Multiprocessing.calcInside_count, worker_hits.
  rewrite sample_loop_draws. cbn [snd]. lia.
Qed.

End SamplingFacts.

Lemma Qeq_bool_inject_Z_nonzero (z : Z) :
  z <> 0 -> Qeq_bool (inject_Z z) 0 = false.
Proof.
  intros Hz. destruct (Qeq_bool (inject_Z z) 0) eqn:E; [|reflexivity].
  apply Qeq_bool_iff in E. unfold Qeq in E. simpl in E. lia.
Qed.

(* ================================================================== *)
(** * Totals of a run *)
(* ================================================================== *)

Lemma true_div_ok (a b : Q) : ~ (b == 0)%Q -> true_div a b = Ok (a / b)%Q.
Proof.
  intros Hb. unfold true_div.
  destruct (Qeq_bool b 0) eqn:E; [|reflexivity].
  apply Qeq_bool_iff in E. contradiction.
Qed.


Lemma inject_Z_nonzero (z : Z) : z <> 0 -> ~ (inject_Z z == 0)%Q.
Proof. intros Hz E. unfold Qeq in E. simpl in E. lia. Qed.

Lemma sequence_Ok (A B : Type) (f : A -> B) (l : list A) :
  sequence (map (fun a => Ok (f a)) l) = Ok (map f l).
Proof.
  induction l as [|a l IH]; [reflexivity|].
  cbn [map sequence bind]. now rewrite IH.
Qed.

Lemma sequence_Raise (A B : Type) (f : A -> result B) (e : exn) (l : list A) :
  l <> [] -> (forall a, f a = Raise e) -> sequence (map f l) = Raise e.
Proof.
  intros Hl Hf. destruct l as [|a l]; [contradiction|].
  cbn [map sequence]. now rewrite Hf.
Qed.

Lemma sequence_Forall2 (A B C : Type) (f : A -> result B) (g : A -> C)
    (P : B -> C -> Prop) (l : list A) :
  (forall a, In a l -> exists b, f a = Ok b /\ P b (g a)) ->
  exists bs, sequence (map f l) = Ok bs /\ Forall2 P bs (map g l).
Proof.
  induction l as [|a l IH]; intros H.
  - exists []. split; [reflexivity|constructor].
  - destruct (H a (or_introl eq_refl)) as [b [Hb Pb]].
    destruct IH as [bs [Hbs Pbs]]; [intros x Hx; apply H; now right|].
    exists (b :: bs). cbn [map sequence]. rewrite Hb, Hbs. cbn [bind].
    split; [reflexivity|now constructor].
Qed.

Section Totals.

Context {R : RandomModule}.

(** The global counter after the threads of a list have run: each thread
    has added its own hits. *)
Lemma run_threads_inside (threads : list (Z * Z)) :
  forall st : Threading.globals,
    Threading.inside (Threading.run_threads threads st)
    = Threading.inside st + totalHits (task_results threads).
Proof.
  unfold Threading.run_threads.
  induction threads as [|t ts IH]; intros st.
  - cbn. lia.
  - cbn [fold_left]. rewrite IH, threading_calcInside_inside.
    unfold totalHits, task_results. cbn [map sum fold_right hitCount task_result].
    fold (sum (map hitCount (map task_result ts))). lia.
Qed.

Lemma totalSamples_worker_args (samples nt : Z) :
  totalSamples (task_results (worker_args samples nt))
  = Z.of_nat (Z.to_nat nt) * Z.of_nat (Z.to_nat samples).
Proof.
  unfold totalSamples, task_results, worker_args.
  rewrite !map_map. cbn [task_result sampleCount fst].
  now rewrite sum_const, range_length.
Qed.

Lemma totalHits_bounds (p : list (Z * Z)) :
  0 <= totalHits (task_results p) <= totalSamples (task_results p).
Proof.
  unfold totalHits, totalSamples, task_results.
  induction p as [|t p IH]; [cbn; lia|].
  cbn [map sum fold_right hitCount sampleCount task_result].
  pose proof (worker_hits_bounds (fst t) (snd t)).
  unfold sum in IH. lia.
Qed.

Lemma totalHits_worker_args (samples nt : Z) :
  totalHits (task_results (worker_args samples nt))
  = sum (rank_hits samples nt).
Proof.
  unfold totalHits, task_results, worker_args, rank_hits.
  now rewrite !map_map.
Qed.


End Totals.

(* ------------------------------------------------------------------ *)
(** ** Sums of ratios *)
(* ------------------------------------------------------------------ *)

Lemma np_mean_Qsum (l : list Q) :
  Multiprocessing.np_mean l = (Qsum l / inject_Z (Z.of_nat (length l)))%Q.
Proof. reflexivity. Qed.


(** With a common denominator [n], the ratios add up to the ratio of the
    sum. *)
Lemma Qsum_ratios_common (n : Z) (hs : list Z) :
  n <> 0 ->
  (Qsum (map (fun h => 4 * inject_Z h / inject_Z n) hs)
   == 4 * inject_Z (sum hs) / inject_Z n)%Q.
Proof.
  intros Hn. pose proof (inject_Z_nonzero n Hn) as Hq.
  unfold Qsum. induction hs as [|h hs IH]; cbn [map fold_right sum].
  - field. exact Hq.
  - rewrite IH. fold (sum hs). rewrite inject_Z_plus. field. exact Hq.
Qed.

(** The mean of [k] ratios of common denominator [n] is the pooled
    ratio. *)
Lemma mean_ratios_common (n : Z) (hs : list Z) :
  1 <= n -> hs <> [] ->
  (Multiprocessing.np_mean (map (fun h => 4 * inject_Z h / inject_Z n) hs)
   == 4 * inject_Z (sum hs) / inject_Z (Z.of_nat (length hs) * n))%Q.
Proof.
  intros Hn Hne. rewrite np_mean_Qsum, length_map.
  rewrite Qsum_ratios_common by lia. rewrite inject_Z_mult.
  assert (Hk : Z.of_nat (length hs) <> 0).
  { destruct hs; [contradiction|]. cbn [length]. lia. }
  field. split; apply inject_Z_nonzero; lia.
Qed.

(* ================================================================== *)
(** * The two estimates *)
(* ================================================================== *)

Section Estimates.

Context {R : RandomModule}.

Lemma samples_pos (total nt : Z) :
  1 <= nt <= total -> 1 <= Z.quot total nt.
Proof.
  intros H. rewrite quot_floor by lia.
  apply Z.div_le_lower_bound; lia.
Qed.

Lemma samples_zero (total nt : Z) :
  0 <= total < nt -> Z.quot total nt = 0.
Proof. intros H. apply Z.quot_small. lia. Qed.

End Estimates.

(* ================================================================== *)
(** * Order of the workers *)
(* ================================================================== *)




(* ================================================================== *)
(** * Range of the estimate *)
(* ================================================================== *)

Lemma pooled_bounds (rs : list TaskResult) :
  0 <= totalHits rs <= totalSamples rs -> 1 <= totalSamples rs ->
  (0 <= pooled rs <= 4)%Q /\ ((0 < pooled rs)%Q <-> 1 <= totalHits rs).
Proof.
  intros HH HS. unfold pooled.
  destruct (totalSamples rs) as [|s|s]; try lia.
  destruct (totalHits rs) as [|h|h]; try lia;
    unfold Qle, Qlt, Qdiv, Qmult, Qinv, inject_Z; cbn;
    repeat split; lia.
Qed.

(* ================================================================== *)
(** * Requests outside the domain *)
(* ================================================================== *)

Lemma quot_nonpos (total nt : Z) :
  total <= 0 -> 1 <= nt -> Z.quot total nt <= 0.
Proof.
  intros Ht Hnt.
  replace total with (- (- total)) by lia.
  rewrite Z.quot_opp_l by lia.
  pose proof (Z.quot_pos (- total) nt ltac:(lia) ltac:(lia)). lia.
Qed.

Lemma totalHits_idle {R : RandomModule} (samples nt : Z) :
  samples <= 0 \/ nt <= 0 ->
  totalHits (task_results (worker_args samples nt)) = 0.
Proof.
  intros H.
  pose proof (totalHits_bounds (worker_args samples nt)) as Hb.
  rewrite totalSamples_worker_args in Hb.
  assert (Z.of_nat (Z.to_nat nt) * Z.of_nat (Z.to_nat samples) = 0)
    by (destruct H as [H|H];
        [replace (Z.to_nat samples) with 0%nat by lia
        |replace (Z.to_nat nt) with 0%nat by lia]; lia).
  lia.
Qed.

(* ================================================================== *)
(** * Mean of ratios against pooled ratio *)
(* ================================================================== *)

Lemma Qsum_app (l1 l2 : list Q) : (Qsum (l1 ++ l2) == Qsum l1 + Qsum l2)%Q.
Proof.
  unfold Qsum. induction l1 as [|a l1 IH]; cbn [app fold_right].
  - ring.
  - rewrite IH. ring.
Qed.

Lemma results_of_app (h1 h2 n1 n2 : list Z) :
  length h1 = length n1 ->
  results_of (h1 ++ h2) (n1 ++ n2) = results_of h1 n1 ++ results_of h2 n2.
Proof.
  revert n1. induction h1 as [|h h1 IH]; intros [|n n1] Hlen;
    try discriminate Hlen.
  - reflexivity.
  - unfold results_of in *. cbn [app combine map]. f_equal.
    apply IH. now injection Hlen.
Qed.

Lemma results_of_totals (hs ns : list Z) :
  length hs = length ns ->
  totalHits (results_of hs ns) = sum hs
  /\ totalSamples (results_of hs ns) = sum ns
  /\ length (results_of hs ns) = length ns.
Proof.
  revert ns. induction hs as [|h hs IH]; intros [|n ns] Hlen;
    try discriminate Hlen.
  - repeat split.
  - injection Hlen as Hlen. destruct (IH ns Hlen) as [IH1 [IH2 IH3]].
    unfold totalHits, totalSamples, results_of in *.
    cbn [combine map sum fold_right hitCount sampleCount fst snd length].
    unfold sum in *. rewrite IH1, IH2, IH3. repeat split.
Qed.

Lemma Qsum_ratios_equal_counts (n : Z) (hs ns : list Z) :
  n <> 0 -> Forall (eq n) ns -> length hs = length ns ->
  (Qsum (map ratio (results_of hs ns)) == 4 * inject_Z (sum hs) / inject_Z n)%Q.
Proof.
  intros Hn Hall. pose proof (inject_Z_nonzero n Hn) as Hq.
  revert hs. induction Hall as [|m ns <- _ IH]; intros [|h hs] Hlen;
    try discriminate Hlen.
  - cbn. field. exact Hq.
  - injection Hlen as Hlen. specialize (IH hs Hlen).
    unfold results_of, Qsum in *.
    cbn [combine map fold_right sum]. rewrite IH.
    unfold ratio. cbn [hitCount sampleCount fst snd].
    fold (sum hs). rewrite inject_Z_plus. field. exact Hq.
Qed.

Lemma Qsum_ratios_no_hits (ns : list Z) :
  (Qsum (map ratio (results_of (repeat 0%Z (length ns)) ns)) == 0)%Q.
Proof.
  unfold results_of, Qsum.
  induction ns as [|n ns IH]; cbn [length repeat combine map fold_right].
  - reflexivity.
  - rewrite IH. unfold ratio. cbn [hitCount sampleCount fst snd].
    change (inject_Z 0) with 0%Q. unfold Qdiv. ring.
Qed.

Lemma sum_equal_counts (n : Z) (ns : list Z) :
  Forall (eq n) ns -> sum ns = Z.of_nat (length ns) * n.
Proof.
  induction 1 as [|m ns <- _ IH]; [reflexivity|].
  change (sum (n :: ns)) with (n + sum ns). rewrite IH.
  cbn [length]. lia.
Qed.

Lemma sum_positive (ns : list Z) :
  ns <> [] -> Forall (fun n => 1 <= n) ns -> 1 <= sum ns.
Proof.
  intros Hne Hall. induction Hall as [|n ns Hn Hall IH]; [contradiction|].
  change (sum (n :: ns)) with (n + sum ns).
  destruct ns as [|m ns]; [cbn; lia|].
  specialize (IH ltac:(discriminate)). lia.
Qed.

(** Equal counts are enough. *)
Lemma equal_counts_agree (ns : list Z) :
  ns <> [] -> Forall (fun n => 1 <= n) ns -> all_equal ns -> schemes_agree ns.
Proof.
  intros Hne Hpos Heq hs Hvalid.
  pose proof (Forall2_length Hvalid) as Hlen.
  destruct ns as [|n ns']; [contradiction|].
  set (ns := n :: ns') in *.
  assert (Hn : 1 <= n) by now inversion Hpos.
  assert (Hall : Forall (eq n) ns).
  { apply Forall_forall. intros m Hm. apply Heq; [now left|exact Hm]. }
  destruct (results_of_totals hs ns Hlen) as [HH [HS HL]].
  rewrite np_mean_Qsum, length_map, HL.
  rewrite Qsum_ratios_equal_counts with (n := n) by (lia || assumption).
  unfold pooled. rewrite HH, HS, (sum_equal_counts n ns Hall), inject_Z_mult.
  assert (Hk : Z.of_nat (length ns) <> 0) by (unfold ns; cbn [length]; lia).
  field. split; apply inject_Z_nonzero; lia.
Qed.

(** When the two summaries agree, every count is the average count. *)
Lemma agree_average (ns : list Z) (a : Z) :
  Forall (fun n => 1 <= n) ns -> schemes_agree ns -> In a ns ->
  sum ns = a * Z.of_nat (length ns).
Proof.
  intros Hpos Hagree Ha.
  destruct (in_split a ns Ha) as [l1 [l2 Hns]].
  assert (Ha1 : 1 <= a) by (rewrite Forall_forall in Hpos; now apply Hpos).
  assert (Hne : ns <> []) by (intros E; rewrite E in Ha; contradiction).
  pose proof (sum_positive ns Hne Hpos) as HS1.
  assert (Hk : 1 <= Z.of_nat (length ns))
    by (destruct ns; [contradiction|cbn [length]; lia]).
  set (hs := repeat 0 (length l1) ++ 1 :: repeat 0 (length l2)).
  assert (Hvalid : Forall2 (fun h n => 0 <= h <= n) hs ns).
  { rewrite Hns in *. unfold hs.
    apply Forall_app in Hpos as [Hp1 Hp2].
    apply Forall2_app; [|constructor; [lia|inversion Hp2; subst]].
    - clear -Hp1. induction Hp1; cbn; constructor; [lia|assumption].
    - match goal with H : Forall _ l2 |- _ =>
        clear -H; induction H; cbn; constructor; [lia|assumption] end. }
  specialize (Hagree hs Hvalid).
  destruct (results_of_totals hs ns (Forall2_length Hvalid)) as [HH [HS HL]].
  rewrite np_mean_Qsum, length_map, HL in Hagree.
  unfold pooled in Hagree. rewrite HH, HS in Hagree.
  assert (Hsum : sum hs = 1).
  { unfold hs. rewrite sum_app.
    change (sum (1 :: repeat 0 (length l2))) with (1 + sum (repeat 0 (length l2))).
    rewrite !sum_repeat. lia. }
  assert (Hratios : (Qsum (map ratio (results_of hs ns)) == 4 / inject_Z a)%Q).
  { rewrite Hns. unfold hs.
    rewrite results_of_app by now rewrite repeat_length.
    rewrite map_app, Qsum_app, Qsum_ratios_no_hits.
    change (results_of (1 :: repeat 0 (length l2)) (a :: l2))
      with ({| hitCount := 1; sampleCount := a |}
              :: results_of (repeat 0 (length l2)) l2).
    cbn [map]. change (Qsum (?x :: ?l)) with (x + Qsum l)%Q.
    rewrite Qsum_ratios_no_hits. unfold ratio. cbn [hitCount sampleCount].
    change (inject_Z 1) with 1%Q. field. apply inject_Z_nonzero. lia. }
  rewrite Hratios, Hsum in Hagree. change (inject_Z 1) with 1%Q in Hagree.
  pose proof (inject_Z_nonzero a ltac:(lia)) as Hqa.
  pose proof (inject_Z_nonzero (sum ns) ltac:(lia)) as Hqs.
  pose proof (inject_Z_nonzero (Z.of_nat (length ns)) ltac:(lia)) as Hqk.
  apply inject_Z_injective. rewrite inject_Z_mult.
  set (A := inject_Z a) in *. set (S := inject_Z (sum ns)) in *.
  set (K := inject_Z (Z.of_nat (length ns))) in *.
  transitivity ((4 / A / K) * (S * A * K / 4))%Q; [field; split; assumption|].
  rewrite Hagree. field. exact Hqs.
Qed.

(** Agreement on all hit counts forces equal counts. *)
Lemma agree_equal_counts (ns : list Z) :
  Forall (fun n => 1 <= n) ns -> schemes_agree ns -> all_equal ns.
Proof.
  intros Hpos Hagree a b Ha Hb.
  pose proof (agree_average ns a Hpos Hagree Ha) as Ea.
  pose proof (agree_average ns b Hpos Hagree Hb) as Eb.
  assert (Hk : 1 <= Z.of_nat (length ns))
    by (destruct ns; [contradiction|cbn [length]; lia]).
  nia.
Qed.

(* ================================================================== *)
(** * The threads under any schedule *)
(* ================================================================== *)

Section InterleavedFacts.

Context {R : RandomModule}.

Import Interleaved.

Lemma thread_step_ok (g g' : gen) (t t' : thread) (d : Z) :
  thread_step g t = (g', t', d) ->
  thread_ok t ->
  thread_ok t' /\ added t' = added t + d
  /\ nsamples t' = nsamples t /\ rank t' = rank t.
Proof.
  unfold thread_step, thread_ok, pending.
  destruct t as [n r p a]. cbn [at_ added nsamples rank].
  destruct p as [|k|k x|k x y|].
  - intros E Hok. injection E as <- <- <-. cbn.
    destruct (Z.to_nat n) as [|k]; cbn [loop_head]; repeat split; lia.
  - destruct (random g) as [x g1]. intros E Hok. injection E as <- <- <-.
    cbn. repeat split; lia.
  - destruct (random g) as [y g1]. intros E Hok. injection E as <- <- <-.
    cbn. repeat split; lia.
  - destruct (in_circle x y); intros E Hok; injection E as <- <- <-;
      cbn; destruct k; cbn [loop_head]; repeat split; lia.
  - intros E Hok. injection E as <- <- <-. cbn. repeat split; lia.
Qed.

Lemma replace_Forall (P : thread -> Prop) (i : nat) (t : thread) :
  forall l, Forall P l -> P t -> Forall P (replace i t l).
Proof.
  induction i as [|j IH]; intros [|u l] Hl Ht; cbn [replace];
    try constructor; inversion Hl; subst; auto.
Qed.

Lemma replace_added (i : nat) (t u : thread) :
  forall l, nth_error l i = Some u ->
    sum (map added (replace i t l)) = sum (map added l) - added u + added t.
Proof.
  induction i as [|j IH]; intros [|v l] Hn; try discriminate Hn.
  - injection Hn as ->. cbn [replace map].
    change (sum (?a :: ?b)) with (a + sum b). lia.
  - cbn [replace map]. change (sum (?a :: ?b)) with (a + sum b).
    rewrite (IH l Hn). lia.
Qed.

Lemma replace_map (A : Type) (f : thread -> A) (i : nat) (t u : thread) :
  forall l, nth_error l i = Some u -> f t = f u ->
    map f (replace i t l) = map f l.
Proof.
  induction i as [|j IH]; intros [|v l] Hn Hf; try discriminate Hn.
  - injection Hn as ->. cbn [replace map]. now rewrite Hf.
  - cbn [replace map]. now rewrite (IH l Hn Hf).
Qed.

Lemma step_ok (m : machine) (i : nat) : machine_ok m -> machine_ok (step m i).
Proof.
  intros [Hall Hsum]. unfold step.
  destruct (nth_error (threads m) i) as [t|] eqn:Hn; [|now split].
  destruct (thread_step (generator m) t) as [[g t'] d] eqn:Hs.
  assert (Ht : thread_ok t).
  { rewrite Forall_forall in Hall. eapply Hall, nth_error_In, Hn. }
  destruct (thread_step_ok _ _ _ _ _ Hs Ht) as [Hok [Hadd _]].
  split; cbn [threads inside].
  - now apply replace_Forall.
  - rewrite (replace_added i t' t _ Hn). lia.
Qed.

Lemma step_args (m : machine) (i : nat) :
  map (fun t => (nsamples t, rank t)) (threads (step m i))
  = map (fun t => (nsamples t, rank t)) (threads m).
Proof.
  unfold step.
  destruct (nth_error (threads m) i) as [t|] eqn:Hn; [|reflexivity].
  destruct (thread_step (generator m) t) as [[g t'] d] eqn:Hs.
  cbn [threads]. apply (replace_map _ _ i t' t _ Hn).
  unfold thread_step in Hs.
  destruct (at_ t); try destruct (random (generator m));
    try destruct (in_circle x y); injection Hs as <- <- <-; reflexivity.
Qed.

Lemma run_ok (schedule : list nat) :
  forall m, machine_ok m -> machine_ok (run schedule m).
Proof.
  unfold run. induction schedule as [|i sch IH]; intros m Hm; [exact Hm|].
  cbn [fold_left]. apply IH, step_ok, Hm.
Qed.

Lemma run_args (schedule : list nat) :
  forall m,
    map (fun t => (nsamples t, rank t)) (threads (run schedule m))
    = map (fun t => (nsamples t, rank t)) (threads m).
Proof.
  unfold run. induction schedule as [|i sch IH]; intros m; [reflexivity|].
  cbn [fold_left]. now rewrite IH, step_args.
Qed.

Lemma boot_ok (args : list (Z * Z)) (g0 : gen) : machine_ok (boot args g0).
Proof.
  unfold machine_ok, boot. cbn [threads inside]. split.
  - apply Forall_forall. intros t Ht. apply in_map_iff in Ht as [a [<- _]].
    unfold thread_ok, pending. cbn. lia.
  - induction args as [|a args IH]; [reflexivity|].
    cbn [map added fresh]. change (sum (?a :: ?b)) with (a + sum b). lia.
Qed.

(** Whatever the schedule, every thread has incremented [inside] between
    [0] and [max(nsamples, 0)] times, and [inside] is the sum of the
    threads' increments. *)
Lemma run_bounds (args : list (Z * Z)) (g0 : gen) (schedule : list nat) :
  let m := run schedule (boot args g0) in
  map (fun t => (nsamples t, rank t)) (threads m) = args
  /\ Forall (fun t => 0 <= added t <= Z.of_nat (Z.to_nat (nsamples t)))
            (threads m)
  /\ inside m = sum (map added (threads m)).
Proof.
  intros m. subst m.
  destruct (run_ok schedule _ (boot_ok args g0)) as [Hall Hsum].
  repeat split.
  - rewrite run_args. unfold boot. cbn [threads].
    rewrite map_map. unfold fresh. cbn [nsamples rank].
    rewrite <- (map_id args) at 2. apply map_ext. now intros [n r].
  - eapply Forall_impl; [|exact Hall].
    intros t [H0 H1]. unfold pending in H1.
    destruct (at_ t); lia.
  - exact Hsum.
Qed.

End InterleavedFacts.

(* ------------------------------------------------------------------ *)
(** ** The schedule without preemption *)
(* ------------------------------------------------------------------ *)

Section Sequential.

Context {R : RandomModule}.

Import Interleaved.

Lemma replace_same (i : nat) (t : thread) :
  forall l, nth_error l i = Some t -> replace i t l = l.
Proof.
  induction i as [|j IH]; intros [|u l] Hn; try discriminate Hn;
    cbn [replace].
  - now injection Hn as ->.
  - now rewrite (IH l Hn).
Qed.

Lemma replace_replace (i : nat) (t u : thread) :
  forall l, replace i t (replace i u l) = replace i t l.
Proof.
  induction i as [|j IH]; intros [|v l]; cbn [replace]; try reflexivity.
  now rewrite IH.
Qed.

Lemma nth_error_replace (i : nat) (t u : thread) :
  forall l, nth_error l i = Some u -> nth_error (replace i t l) i = Some t.
Proof.
  induction i as [|j IH]; intros [|v l] Hn; try discriminate Hn;
    cbn [replace nth_error].
  - reflexivity.
  - now apply IH.
Qed.

Lemma replace_middle (t u : thread) (done rest : list thread) :
  replace (length done) t (done ++ u :: rest) = done ++ t :: rest.
Proof.
  induction done as [|v done IH]; cbn [length app replace]; [reflexivity|].
  now rewrite IH.
Qed.

Lemma run_app (s1 s2 : list nat) (m : machine) :
  run (s1 ++ s2) m = run s2 (run s1 m).
Proof. unfold run. apply fold_left_app. Qed.

Lemma run_cons (i : nat) (sch : list nat) (m : machine) :
  run (i :: sch) m = run sch (step m i).
Proof. reflexivity. Qed.

Lemma step_at (m : machine) (i : nat) (t : thread) :
  nth_error (threads m) i = Some t ->
  step m i
  = let '(g, t', d) := thread_step (generator m) t in
    {| generator := g; inside := inside m + d;
       threads := replace i t' (threads m) |}.
Proof. intros Hn. unfold step. now rewrite Hn. Qed.

Lemma move_move (t : thread) (p q : position) (d e : Z) :
  move (move t p d) q e = move t q (d + e).
Proof. unfold move. cbn [nsamples rank added]. f_equal. lia. Qed.

(** The three statements of one iteration, executed without a switch. *)
Lemma run_iteration (i k : nat) (m : machine) (t : thread) :
  nth_error (threads m) i = Some t -> at_ t = AtDrawX k ->
  run [i; i; i] m
  = let (x, g1) := random (generator m) in
    let (y, g2) := random g1 in
    let d := if in_circle x y then 1 else 0 in
    {| generator := g2; inside := inside m + d;
       threads := replace i (move t (loop_head k) d) (threads m) |}.
Proof.
  intros Hn Hat. unfold run. cbn [fold_left].
  rewrite (step_at m i t Hn). unfold thread_step at 1. rewrite Hat.
  destruct (random (generator m)) as [x g1].
  set (t1 := move t (AtDrawY k x) 0).
  set (m1 := {| generator := g1; inside := inside m + 0;
                threads := replace i t1 (threads m) |}).
  assert (Hn1 : nth_error (threads m1) i = Some t1)
    by (cbn [threads m1]; eapply nth_error_replace, Hn).
  rewrite (step_at m1 i t1 Hn1). unfold thread_step at 1.
  cbn [generator at_ t1 move m1].
  destruct (random g1) as [y g2].
  set (t2 := move t1 (AtTest k x y) 0).
  set (m2 := {| generator := g2; inside := inside m1 + 0;
                threads := replace i t2 (threads m1) |}).
  assert (Hn2 : nth_error (threads m2) i = Some t2)
    by (cbn [threads m2]; eapply nth_error_replace, Hn1).
  rewrite (step_at m2 i t2 Hn2). unfold thread_step.
  cbn [generator at_ t2 move m2 m1 inside threads].
  destruct (in_circle x y); cbn [inside threads];
    rewrite !replace_replace; unfold t2, t1; rewrite !move_move;
    f_equal; lia.
Qed.

(** A thread standing at the loop head with [k] iterations to go, run
    without a switch: the generator and the counter end as [sample_loop]
    says. *)
Lemma run_iterations (i k : nat) :
  forall (m : machine) (t : thread),
    nth_error (threads m) i = Some t -> at_ t = loop_head k ->
    run (repeat i (3 * k)) m
    = let L := sample_loop k (generator m) (inside m) in
      {| generator := fst L; inside := snd L;
         threads := replace i (move t Finished (snd L - inside m))
                            (threads m) |}.
Proof.
  induction k as [|k IH]; intros m t Hn Hat.
  - change (repeat i (3 * 0)) with (@nil nat).
    unfold run. cbn [fold_left sample_loop fst snd]. cbv zeta.
    assert (E : move t Finished 0 = t).
    { destruct t as [n r p a]. cbn [at_ loop_head] in Hat. subst p.
      unfold move. cbn. f_equal. lia. }
    rewrite Z.sub_diag, E, (replace_same i t _ Hn). now destruct m.
  - replace (3 * S k)%nat with (3 + 3 * k)%nat by lia.
    rewrite repeat_app, run_app.
    change (repeat i 3) with [i; i; i].
    rewrite (run_iteration i k m t Hn Hat).
    cbn [sample_loop].
    destruct (random (generator m)) as [x g1].
    destruct (random g1) as [y g2]. cbv zeta.
    set (d := if in_circle x y then 1 else 0).
    set (t3 := move t (loop_head k) d).
    set (m3 := {| generator := g2; inside := inside m + d;
                  threads := replace i t3 (threads m) |}).
    assert (Hn3 : nth_error (threads m3) i = Some t3)
      by (cbn [threads m3]; eapply nth_error_replace, Hn).
    rewrite (IH m3 t3 Hn3 eq_refl).
    cbn [generator inside threads m3]. cbv zeta.
    assert (EL : sample_loop k g2 (inside m + d)
                 = if in_circle x y
                   then sample_loop k g2 (inside m + 1)
                   else sample_loop k g2 (inside m))
      by (unfold d; destruct (in_circle x y); [reflexivity|now rewrite Z.add_0_r]).
    rewrite <- EL. rewrite replace_replace. unfold t3. rewrite move_move.
    f_equal. f_equal. f_equal. lia.
Qed.

(** A thread that has not started yet, run from its first statement to its
    last without a switch, does what [Threading.calcInside] does. *)
Lemma run_solo (i : nat) (m : machine) (t : thread) :
  nth_error (threads m) i = Some t -> at_ t = AtSeed ->
  let st := Threading.calcInside (nsamples t) (rank t)
              {| Threading.random_state := generator m;
                 Threading.inside := inside m |} in
  run (solo i (nsamples t)) m
  = {| generator := Threading.random_state st;
       inside := Threading.inside st;
       threads := replace i (move t Finished (Threading.inside st - inside m))
                          (threads m) |}.
Proof.
  intros Hn Hat. unfold solo.
  change (repeat i (1 + 3 * Z.to_nat (nsamples t)))
    with (i :: repeat i (3 * Z.to_nat (nsamples t))).
  rewrite run_cons.
  rewrite (step_at m i t Hn). unfold thread_step. rewrite Hat.
  set (t1 := move t (loop_head (Z.to_nat (nsamples t))) 0).
  set (m1 := {| generator := seed (rank t); inside := inside m + 0;
                threads := replace i t1 (threads m) |}).
  assert (Hn1 : nth_error (threads m1) i = Some t1)
    by (cbn [threads m1]; eapply nth_error_replace, Hn).
  rewrite (run_iterations i (Z.to_nat (nsamples t)) m1 t1 Hn1 eq_refl).
  cbn [generator inside threads m1]. cbv zeta.
  unfold Threading.calcInside. cbn [Threading.inside].
  rewrite Z.add_0_r.
  destruct (sample_loop (Z.to_nat (nsamples t)) (seed (rank t)) (inside m))
    as [g c].
  cbn [fst snd Threading.random_state Threading.inside].
  rewrite replace_replace. unfold t1. rewrite move_move.
  f_equal.
Qed.

Lemma run_sequential_from (args : list (Z * Z)) :
  forall (done : list thread) (m : machine),
    threads m = done ++ map fresh args ->
    Forall (fun t => at_ t = Finished) done ->
    let st := Threading.run_threads args
                {| Threading.random_state := generator m;
                   Threading.inside := inside m |} in
    let m' := run (sequential_from (length done) args) m in
    generator m' = Threading.random_state st
    /\ inside m' = Threading.inside st
    /\ Forall (fun t => at_ t = Finished) (threads m').
Proof.
  induction args as [|a args IH]; intros done m Hts Hdone.
  - cbn. rewrite Hts, app_nil_r. repeat split. exact Hdone.
  - cbn [sequential_from map] in *. rewrite run_app.
    assert (Hn : nth_error (threads m) (length done) = Some (fresh a)).
    { rewrite Hts, nth_error_app2, Nat.sub_diag by lia. reflexivity. }
    pose proof (run_solo (length done) m (fresh a) Hn eq_refl) as Hsolo.
    cbv zeta in Hsolo. cbn [fresh nsamples rank] in Hsolo.
    set (st1 := Threading.calcInside (fst a) (snd a)
                  {| Threading.random_state := generator m;
                     Threading.inside := inside m |}) in *.
    set (fin := move (fresh a) Finished (Threading.inside st1 - inside m)) in *.
    rewrite Hts, replace_middle in Hsolo.
    set (m1 := run (solo (length done) (fst a)) m) in *.
    assert (Hts1 : threads m1 = (done ++ [fin]) ++ map fresh args)
      by (rewrite Hsolo; cbn [threads]; now rewrite <- app_assoc).
    assert (Hdone1 : Forall (fun t => at_ t = Finished) (done ++ [fin]))
      by (apply Forall_app; split; [exact Hdone|now repeat constructor]).
    specialize (IH (done ++ [fin]) m1 Hts1 Hdone1).
    rewrite length_app, Nat.add_1_r in IH. cbv zeta in IH.
    unfold Threading.run_threads in *. cbn [fold_left].
    fold st1.
    replace {| Threading.random_state := generator m1;
               Threading.inside := inside m1 |} with st1 in IH
      by (rewrite Hsolo; cbn [generator inside]; now destruct st1).
    exact IH.
Qed.

(** When the threads run one after the other, all of them finish, and the
    shared generator and counter end as [Threading.run_threads] says. *)
Lemma run_sequential (args : list (Z * Z)) (g0 : gen) :
  let st := Threading.run_threads args
              {| Threading.random_state := g0; Threading.inside := 0 |} in
  let m := run (sequential args) (boot args g0) in
  generator m = Threading.random_state st
  /\ inside m = Threading.inside st
  /\ Forall (fun t => at_ t = Finished) (threads m).
Proof.
  apply (run_sequential_from args [] (boot args g0)); [reflexivity|constructor].
Qed.

End Sequential.

(* ------------------------------------------------------------------ *)
(** ** The estimate under a schedule *)
(* ------------------------------------------------------------------ *)

Lemma totals_bounds (rs : list TaskResult) :
  Forall (fun r => 0 <= hitCount r <= sampleCount r) rs ->
  0 <= totalHits rs <= totalSamples rs.
Proof.
  unfold totalHits, totalSamples.
  induction 1 as [|r rs Hr _ IH]; [cbn; lia|].
  cbn [map]. change (sum (?a :: ?b)) with (a + sum b) in *. lia.
Qed.

Section InterleavedMain.

Context {R : RandomModule}.

Import Interleaved.

Lemma outcomes_totals (args : list (Z * Z)) (g0 : gen) (schedule : list nat) :
  let m := run schedule (boot args g0) in
  totalHits (outcomes m) = inside m
  /\ totalSamples (outcomes m) = totalSamples (task_results args)
  /\ Forall (fun r => 0 <= hitCount r <= sampleCount r) (outcomes m).
Proof.
  intros m. destruct (run_bounds args g0 schedule) as [Hargs [Hall Hsum]].
  fold m in Hargs, Hall, Hsum. repeat split.
  - unfold totalHits, outcomes. rewrite map_map. cbn [hitCount].
    now rewrite Hsum.
  - unfold totalSamples, outcomes, task_results. rewrite !map_map.
    cbn [sampleCount task_result]. f_equal.
    transitivity (map (fun a : Z * Z => Z.of_nat (Z.to_nat (fst a)))
                      (map (fun t => (nsamples t, rank t)) (threads m))).
    + now rewrite map_map.
    + now rewrite Hargs.
  - unfold outcomes. apply Forall_map. cbn [hitCount sampleCount].
    exact Hall.
Qed.

End InterleavedMain.

(* ================================================================== *)
(** * Binary64 arithmetic: facts *)
(* ================================================================== *)

(** Number of binary digits. *)
Lemma digits2_pos_bounds (p : positive) :
  2 ^ (Z.pos (digits2_pos p) - 1) <= Z.pos p < 2 ^ Z.pos (digits2_pos p).
Proof.
  induction p as [p IH|p IH|]; cbn [digits2_pos].
  - rewrite Pos2Z.inj_succ.
    replace (Z.succ (Z.pos (digits2_pos p)) - 1) with (Z.succ (Z.pos (digits2_pos p) - 1)) by lia.
    rewrite !Z.pow_succ_r by lia. lia.
  - rewrite Pos2Z.inj_succ.
    replace (Z.succ (Z.pos (digits2_pos p)) - 1) with (Z.succ (Z.pos (digits2_pos p) - 1)) by lia.
    rewrite !Z.pow_succ_r by lia. lia.
  - cbn. lia.
Qed.

Lemma Zdigits2_bounds (m : Z) :
  0 < m -> 2 ^ (Zdigits2 m - 1) <= m < 2 ^ Zdigits2 m.
Proof.
  destruct m as [|p|p]; try lia. intros _. apply digits2_pos_bounds.
Qed.

Lemma Zdigits2_pos (m : Z) : 0 < m -> 0 < Zdigits2 m.
Proof. destruct m; cbn; lia. Qed.

Lemma Zdigits2_unique (m d : Z) :
  2 ^ (d - 1) <= m < 2 ^ d -> 0 < d -> Zdigits2 m = d.
Proof.
  intros [Hlo Hhi] Hd.
  assert (Hm : 0 < m) by (pose proof (Z.pow_pos_nonneg 2 (d - 1)); lia).
  pose proof (Zdigits2_bounds m Hm) as [Hlo' Hhi'].
  pose proof (Zdigits2_pos m Hm) as Hd'.
  destruct (Z.lt_trichotomy (Zdigits2 m) d) as [H|[H|H]]; [|exact H|].
  - assert (2 ^ Zdigits2 m <= 2 ^ (d - 1)) by (apply Z.pow_le_mono_r; lia). lia.
  - assert (2 ^ d <= 2 ^ (Zdigits2 m - 1)) by (apply Z.pow_le_mono_r; lia). lia.
Qed.

(** Shifting right, with the round and sticky bits. *)
Lemma iter_pos_nat {A : Type} (f : A -> A) (p : positive) (x : A) :
  iter_pos f p x = Nat.iter (Pos.to_nat p) f x.
Proof.
  revert x. induction p as [p IH|p IH|]; intros x; cbn [iter_pos].
  - rewrite !IH, Pos2Nat.inj_xI.
    replace (S (2 * Pos.to_nat p))%nat with (Pos.to_nat p + (Pos.to_nat p + 1))%nat by lia.
    rewrite !Nat.iter_add. reflexivity.
  - rewrite !IH, Pos2Nat.inj_xO.
    replace (2 * Pos.to_nat p)%nat with (Pos.to_nat p + Pos.to_nat p)%nat by lia.
    rewrite Nat.iter_add. reflexivity.
  - reflexivity.
Qed.

Lemma shr_1_spec (m : Z) (r s : bool) :
  0 <= m ->
  shr_1 {| shr_m := m; shr_r := r; shr_s := s |}
  = {| shr_m := m / 2; shr_r := Z.odd m; shr_s := r || s |}.
Proof.
  intros Hm. destruct m as [|[p|p|]|p]; try lia; cbn [shr_1 Z.odd].
  - reflexivity.
  - f_equal. change (Z.pos p~1) with (2 * Z.pos p + 1).
    apply Z.div_unique with 1; lia.
  - f_equal. change (Z.pos p~0) with (2 * Z.pos p).
    apply Z.div_unique with 0; lia.
  - reflexivity.
Qed.

Lemma shr_iter (n : nat) (m : Z) (r s : bool) :
  0 <= m ->
  let x := Nat.iter n shr_1 {| shr_m := m; shr_r := r; shr_s := s |} in
  shr_m x = m / 2 ^ Z.of_nat n
  /\ (n <> 0%nat -> shr_r x = Z.odd (m / 2 ^ (Z.of_nat n - 1))).
Proof.
  intros Hm. induction n as [|k IH]; cbn zeta in *.
  - cbn. split; [now rewrite Z.div_1_r|congruence].
  - rewrite Nat.iter_succ. destruct IH as [IHm IHr].
    destruct (Nat.iter k shr_1 _) as [mk rk sk] eqn:E. cbn [shr_m shr_r] in *.
    assert (Hmk : 0 <= mk).
    { rewrite IHm. apply Z.div_pos; [lia|]. apply Z.pow_pos_nonneg; lia. }
    rewrite shr_1_spec by exact Hmk. cbn [shr_m shr_r]. split.
    + rewrite IHm, Z.div_div by (try apply Z.pow_pos_nonneg; lia).
      f_equal. rewrite Nat2Z.inj_succ, Z.pow_succ_r by lia. lia.
    + intros _. rewrite IHm. f_equal. f_equal. f_equal. lia.
Qed.

Lemma fexp_normal (e : Z) : -1021 <= e -> fexp prec emax e = e - 53.
Proof. intros He. unfold fexp, emin, prec, emax. lia. Qed.

Lemma loc_of_shr_record_of_loc (m : Z) (l : location) :
  loc_of_shr_record (shr_record_of_loc m l) = l.
Proof. destruct l as [|[| |]]; reflexivity. Qed.

Lemma shr_record_of_loc_m (m : Z) (l : location) :
  exists r s, shr_record_of_loc m l = {| shr_m := m; shr_r := r; shr_s := s |}.
Proof. destruct l as [|[| |]]; cbn; eauto. Qed.

Lemma shift_bounds (mx : Z) :
  0 < mx -> 53 <= Zdigits2 mx ->
  2 ^ 52 <= mx / 2 ^ (Zdigits2 mx - 53) < 2 ^ 53.
Proof.
  intros Hm Hd. pose proof (Zdigits2_bounds mx Hm) as [Hlo Hhi].
  set (n := Zdigits2 mx - 53) in *.
  assert (Hp : 0 < 2 ^ n) by (apply Z.pow_pos_nonneg; lia).
  replace (Zdigits2 mx - 1) with (52 + n) in Hlo by lia.
  replace (Zdigits2 mx) with (53 + n) in Hhi by lia.
  rewrite Z.pow_add_r in Hlo, Hhi by lia.
  split.
  - apply Z.div_le_lower_bound; lia.
  - apply Z.div_lt_upper_bound; lia.
Qed.

Lemma second_round (s : bool) (m1 e : Z) :
  2 ^ 52 <= m1 <= 2 ^ 53 -> -1021 <= 53 + e -> e + 1 <= 971 ->
  (let '(mrs, e'') := shr_fexp prec emax m1 e loc_Exact in
   match shr_m mrs with
   | Z0 => S754_zero s
   | Zpos m => if e'' <=? emax - prec then S754_finite s m e'' else S754_infinity s
   | Zneg _ => S754_nan
   end) = renorm s m1 e.
Proof.
  intros Hm He1 He2. unfold renorm, shr_fexp.
  destruct (Z.ltb_spec m1 (2 ^ 53)) as [Hlt|Hge].
  - assert (Hd : Zdigits2 m1 = 53) by (apply Zdigits2_unique; [change (53 - 1) with 52|]; lia).
    rewrite Hd, fexp_normal by lia.
    replace (53 + e - 53 - e) with 0 by lia. cbn [shr shr_record_of_loc shr_m].
    destruct m1 as [|p|p]; try lia. cbn [Z.to_pos].
    destruct (Z.leb_spec e (emax - prec)) as [_|H]; [reflexivity|].
    unfold emax, prec in H. lia.
  - assert (E : m1 = 2 ^ 53) by lia. subst m1.
    change (Zdigits2 (2 ^ 53)) with 54.
    rewrite fexp_normal by lia.
    replace (54 + e - 53 - e) with 1 by lia.
    cbn [shr shr_record_of_loc iter_pos]. 
    change (shr_1 {| shr_m := 2 ^ 53; shr_r := false; shr_s := false |})
      with {| shr_m := 2 ^ 52; shr_r := false; shr_s := false |}.
    cbn [shr_m]. change (2 ^ 52) with (Z.pos (Z.to_pos (2 ^ 52))) at 1.
    cbv iota beta.
    destruct (Z.leb_spec (e + 1) (emax - prec)) as [_|H]; [reflexivity|].
    unfold emax, prec in H. lia.
Qed.

Lemma binary_round_aux_normal (s : bool) (mx ex : Z) (lx : location) :
  0 < mx -> 53 <= Zdigits2 mx -> -1021 <= Zdigits2 mx + ex <= 1023 ->
  let n := Zdigits2 mx - 53 in
  let t := mx / 2 ^ n in
  exists m1,
    (m1 = t
     \/ (m1 = t + 1
         /\ ((n = 0 /\ (lx = loc_Inexact Eq \/ lx = loc_Inexact Gt))
             \/ (0 < n /\ Z.odd (mx / 2 ^ (n - 1)) = true))))
    /\ binary_round_aux prec emax s mx ex lx = renorm s m1 (ex + n).
Proof.
  intros Hm Hd He n t.
  pose proof (shift_bounds mx Hm Hd) as Ht. fold n in Ht. fold t in Ht.
  assert (Dn : n = Zdigits2 mx - 53) by reflexivity.
  assert (Dt : t = mx / 2 ^ n) by reflexivity.
  clearbody t. clearbody n.
  unfold binary_round_aux.
  assert (Hshift : fexp prec emax (Zdigits2 mx + ex) - ex = n)
    by (rewrite fexp_normal by lia; lia).
  unfold shr_fexp at 1. rewrite Hshift.
  destruct (Z.eq_dec n 0) as [Hn|Hn].
  - rewrite Hn. cbn [shr]. rewrite loc_of_shr_record_of_loc.
    destruct (shr_record_of_loc_m mx lx) as [r0 [s0 Erec]]. rewrite Erec.
    cbn [shr_m].
    assert (Et : t = mx) by (rewrite Dt, Hn; apply Z.div_1_r).
    exists (round_nearest_even mx lx). split.
    + rewrite Et. destruct lx as [|[| |]]; cbn [round_nearest_even];
        try destruct (Z.even mx); try (left; reflexivity);
        (right; split; [reflexivity|]; left; auto).
    + rewrite Z.add_0_r.
      apply second_round; [|lia|lia].
      rewrite <- Et.
      destruct lx as [|[| |]]; cbn [round_nearest_even]; try destruct (Z.even t); lia.
  - assert (Hpos : 0 < n) by lia.
    destruct n as [|p|p] eqn:En; try lia. cbn [shr].
    rewrite iter_pos_nat.
    destruct (shr_record_of_loc_m mx lx) as [r0 [s0 Erec]]. rewrite Erec.
    pose proof (shr_iter (Pos.to_nat p) mx r0 s0 ltac:(lia)) as [Hsm Hsr].
    cbv zeta in Hsm, Hsr.
    rewrite positive_nat_Z in Hsm, Hsr. specialize (Hsr ltac:(lia)).
    destruct (Nat.iter (Pos.to_nat p) shr_1 _) as [mk rk sk].
    cbn [shr_m shr_r] in Hsm, Hsr. rewrite <- Dt in Hsm. subst mk.
    exists (round_nearest_even t (loc_of_shr_record {| shr_m := t; shr_r := rk; shr_s := sk |})).
    cbn [shr_m]. split.
    + destruct rk, sk; cbn [loc_of_shr_record round_nearest_even];
        try destruct (Z.even t); try (left; reflexivity);
        (right; split; [reflexivity|]; right; split; [lia|now rewrite <- Hsr]).
    + apply second_round; [|lia|lia].
      destruct rk, sk; cbn [loc_of_shr_record round_nearest_even];
        try destruct (Z.even t); lia.
Qed.

Lemma renorm_exact (s : bool) (m e : Z) :
  2 ^ 52 <= m < 2 ^ 53 -> renorm s m e = S754_finite s (Z.to_pos m) e.
Proof.
  intros Hm. unfold renorm. destruct (Z.ltb_spec m (2 ^ 53)); [reflexivity|lia].
Qed.


Lemma valid_normal (s : bool) (m e : Z) :
  normal m e -> valid_binary (S754_finite s (Z.to_pos m) e) = true.
Proof.
  intros [Hm He]. cbn [SpecFloat.valid_binary]. unfold bounded, canonical_mantissa.
  assert (Hd : Z.pos (digits2_pos (Z.to_pos m)) = 53).
  { change (Z.pos (digits2_pos (Z.to_pos m))) with (Zdigits2 (Z.pos (Z.to_pos m))).
    rewrite Z2Pos.id by lia. apply Zdigits2_unique; [change (53 - 1) with 52|]; lia. }
  rewrite Hd, fexp_normal by lia.
  apply andb_true_intro. split.
  - apply Z.eqb_eq. lia.
  - apply Z.leb_le. unfold emax, prec. lia.
Qed.

Lemma iter_xO (k : positive) (p : positive) :
  Z.pos (Pos.iter xO p k) = Z.pos p * 2 ^ Z.pos k.
Proof.
  induction k as [|k IH] using Pos.peano_ind.
  - cbn. lia.
  - rewrite Pos.iter_succ, Pos2Z.inj_succ, Z.pow_succ_r by lia.
    change (Z.pos (Pos.iter xO p k)~0) with (2 * Z.pos (Pos.iter xO p k)).
    rewrite IH. lia.
Qed.

Lemma Zdigits2_shift (m k : Z) :
  0 < m -> 0 <= k -> Zdigits2 (m * 2 ^ k) = Zdigits2 m + k.
Proof.
  intros Hm Hk. pose proof (Zdigits2_bounds m Hm) as [Hlo Hhi].
  pose proof (Zdigits2_pos m Hm) as Hd.
  assert (Hp : 0 < 2 ^ k) by (apply Z.pow_pos_nonneg; lia).
  apply Zdigits2_unique; [|lia].
  replace (Zdigits2 m + k - 1) with (Zdigits2 m - 1 + k) by lia.
  rewrite !Z.pow_add_r by lia. nia.
Qed.

(** An integer of at most 53 digits, scaled by a power of two, is a float. *)
Lemma binary_normalize_small (a e0 : Z) :
  0 < a < 2 ^ 53 -> -1021 <= Zdigits2 a + e0 <= 1023 ->
  let d := Zdigits2 a in
  binary_normalize prec emax a e0 false
  = S754_finite false (Z.to_pos (a * 2 ^ (53 - d))) (e0 + d - 53)
  /\ binary_normalize prec emax (- a) e0 false
     = S754_finite true (Z.to_pos (a * 2 ^ (53 - d))) (e0 + d - 53).
Proof.
  intros Ha He d.
  assert (Hd : 0 < d <= 53).
  { split; [apply Zdigits2_pos; lia|].
    pose proof (Zdigits2_bounds a ltac:(lia)) as [Hlo _]. fold d in Hlo.
    destruct (Z.le_gt_cases d 53) as [H|H]; [exact H|].
    assert (2 ^ 53 <= 2 ^ (d - 1)) by (apply Z.pow_le_mono_r; lia). lia. }
  assert (Hround : forall s,
            binary_round prec emax s (Z.to_pos a) e0
            = S754_finite s (Z.to_pos (a * 2 ^ (53 - d))) (e0 + d - 53)).
  { intros s. unfold binary_round.
    change (Z.pos (digits2_pos (Z.to_pos a))) with (Zdigits2 (Z.pos (Z.to_pos a))).
    rewrite Z2Pos.id by lia. fold d.
    rewrite fexp_normal by lia. unfold shl_align.
    replace (d + e0 - 53 - e0) with (d - 53) by lia.
    assert (Hal : exists mz, (match d - 53 with
                              | Z.neg k => (Pos.iter xO (Z.to_pos a) k, d + e0 - 53)
                              | _ => (Z.to_pos a, e0)
                              end) = (mz, e0 + d - 53)
                             /\ Z.pos mz = a * 2 ^ (53 - d)).
    { destruct (d - 53) as [|k|k] eqn:Ek; try lia.
      - exists (Z.to_pos a). split; [f_equal; lia|].
        replace (53 - d) with 0 by lia. rewrite Z2Pos.id by lia. lia.
      - exists (Pos.iter xO (Z.to_pos a) k). split; [f_equal; lia|].
        rewrite iter_xO, Z2Pos.id by lia. f_equal. f_equal. lia. }
    destruct Hal as [mz [-> Emz]].
    assert (Hdz : Zdigits2 (Z.pos mz) = 53)
      by (rewrite Emz, Zdigits2_shift by lia; fold d; lia).
    destruct (binary_round_aux_normal s (Z.pos mz) (e0 + d - 53) loc_Exact
                ltac:(lia) ltac:(lia) ltac:(lia)) as [m1 [Hm1 ->]].
    rewrite Hdz in Hm1 |- *. change (53 - 53) with 0 in *.
    rewrite Z.div_1_r in Hm1.
    assert (E1 : m1 = Z.pos mz).
    { destruct Hm1 as [E|[_ [[_ [E|E]]|[E _]]]]; try discriminate; try lia. }
    subst m1. rewrite Z.add_0_r.
    pose proof (Zdigits2_bounds (Z.pos mz) ltac:(lia)) as Hb. rewrite Hdz in Hb.
    rewrite renorm_exact by (change (53 - 1) with 52 in Hb; lia).
    now rewrite Emz. }
  destruct a as [|p|p]; try lia. cbn [binary_normalize Z.opp].
  split; apply Hround.
Qed.

Lemma new_location_exact (nb k : Z) :
  new_location nb k = loc_Exact -> k = 0.
Proof.
  unfold new_location, new_location_even, new_location_odd.
  destruct (Z.even nb); destruct (Z.eqb_spec k 0); auto; discriminate.
Qed.

Lemma new_location_inexact (nb k : Z) (c : comparison) :
  new_location nb k = loc_Inexact c -> k <> 0.
Proof.
  unfold new_location, new_location_even, new_location_odd.
  destruct (Z.even nb); destruct (Z.eqb_spec k 0); auto; discriminate.
Qed.

(** Division of two normal numbers. *)
Lemma SFdiv_normal (sx sy : bool) (mx my ex ey : Z) :
  2 ^ 52 <= mx < 2 ^ 53 -> 2 ^ 52 <= my < 2 ^ 53 ->
  -1021 <= ex - ey <= 1022 ->
  let q := (mx * 2 ^ 53) / my in
  let r := (mx * 2 ^ 53) mod my in
  exists m1 n,
    (n = 0 \/ n = 1)
    /\ 2 ^ 52 <= q / 2 ^ n < 2 ^ 53
    /\ (m1 = q / 2 ^ n
        \/ (m1 = q / 2 ^ n + 1
            /\ ((n = 0 /\ r <> 0) \/ (n = 1 /\ Z.odd q = true))))
    /\ SFdiv prec emax (S754_finite sx (Z.to_pos mx) ex)
                       (S754_finite sy (Z.to_pos my) ey)
       = renorm (xorb sx sy) m1 (ex - ey - 53 + n).
Proof.
  intros Hx Hy He q r.
  assert (Dq : q = (mx * 2 ^ 53) / my) by reflexivity.
  assert (Dr : r = (mx * 2 ^ 53) mod my) by reflexivity.
  clearbody q r.
  assert (Hdx : Zdigits2 (Z.pos (Z.to_pos mx)) = 53)
    by (rewrite Z2Pos.id by lia; apply Zdigits2_unique; [change (53 - 1) with 52|]; lia).
  assert (Hdy : Zdigits2 (Z.pos (Z.to_pos my)) = 53)
    by (rewrite Z2Pos.id by lia; apply Zdigits2_unique; [change (53 - 1) with 52|]; lia).
  cbn [SFdiv]. unfold SFdiv_core_binary.
  rewrite Hdx, Hdy.
  replace (53 + ex - (53 + ey)) with (ex - ey) by lia.
  rewrite fexp_normal by lia.
  replace (Z.min (ex - ey - 53) (ex - ey)) with (ex - ey - 53) by lia.
  replace (ex - ey - (ex - ey - 53)) with 53 by lia.
  cbv iota. rewrite Z.shiftl_mul_pow2, !Z2Pos.id by lia.
  pose proof (Z.div_mod (mx * 2 ^ 53) my ltac:(lia)) as Hdm.
  pose proof (Z.mod_pos_bound (mx * 2 ^ 53) my ltac:(lia)) as Hr.
  rewrite <- Dq, <- Dr in Hdm. rewrite <- Dr in Hr.
  assert (Edm : Z.div_eucl (mx * 2 ^ 53) my = (q, r)).
  { unfold Z.div, Z.modulo in Dq, Dr.
    destruct (Z.div_eucl (mx * 2 ^ 53) my) as [q0 r0]. now subst. }
  rewrite Edm.
  assert (Hq : 2 ^ 52 <= q < 2 ^ 54).
  { split.
    - rewrite Dq. apply Z.div_le_lower_bound; [lia|].
      change (2 ^ 53) with (2 * 2 ^ 52). nia.
    - rewrite Dq. apply Z.div_lt_upper_bound; [lia|].
      change (2 ^ 54) with (2 * 2 ^ 53). nia. }
  assert (Hdq : Zdigits2 q = 53 \/ Zdigits2 q = 54).
  { destruct (Z.lt_ge_cases q (2 ^ 53)).
    - left. apply Zdigits2_unique; [change (53 - 1) with 52|]; lia.
    - right. apply Zdigits2_unique; [change (54 - 1) with 53|]; lia. }
  destruct (binary_round_aux_normal (xorb sx sy) q (ex - ey - 53) (new_location my r)
              ltac:(lia) ltac:(lia) ltac:(lia)) as [m1 [Hm1 ->]].
  pose proof (shift_bounds q ltac:(lia) ltac:(lia)) as Ht.
  exists m1, (Zdigits2 q - 53).
  split; [lia|]. split; [exact Ht|]. split; [|reflexivity].
  destruct Hm1 as [E|[E [[Hn Hl]|[Hn Hodd]]]].
  - now left.
  - right. split; [exact E|]. left. split; [exact Hn|].
    destruct Hl as [Hl|Hl]; eapply new_location_inexact, Hl.
  - right. split; [exact E|]. right.
    assert (En : Zdigits2 q - 53 = 1) by lia. split; [exact En|].
    rewrite En in Hodd. change (1 - 1) with 0 in Hodd.
    now rewrite Z.pow_0_r, Z.div_1_r in Hodd.
Qed.

Lemma SFtrunc_renorm (s : bool) (m1 e : Z) :
  2 ^ 52 <= m1 <= 2 ^ 53 -> e <= 0 ->
  SFtrunc (renorm s m1 e) = Some (if s then - (m1 / 2 ^ (- e)) else m1 / 2 ^ (- e)).
Proof.
  intros Hm He. unfold renorm.
  destruct (Z.ltb_spec m1 (2 ^ 53)) as [Hlt|Hge]; cbn [SFtrunc].
  - rewrite Z2Pos.id by lia.
    destruct (Z.leb_spec 0 e) as [H0|H0]; [|reflexivity].
    replace e with 0 by lia. cbn [Z.opp]. now rewrite Z.pow_0_r, Z.mul_1_r, Z.div_1_r.
  - assert (E : m1 = 2 ^ 53) by lia. subst m1.
    rewrite Z2Pos.id by lia.
    destruct (Z.leb_spec 0 (e + 1)) as [H0|H0].
    + destruct (Z.eq_dec e 0) as [->|Hne].
      * reflexivity.
      * replace e with (-1) by lia. reflexivity.
    + replace (- e) with (1 + - (e + 1)) by lia.
      rewrite Z.pow_add_r by lia.
      change (2 ^ 53) with (2 ^ 1 * 2 ^ 52).
      rewrite Z.div_mul_cancel_l; [reflexivity| |lia].
      apply Z.pow_nonzero; lia.
Qed.

(** Scaling the dividend by [K > b] and rounding the quotient to a
    neighbour does not move its integer part. *)
Lemma scaled_quotient (a b K : Z) :
  0 <= a -> 0 < b < K ->
  (a * K / b) / K = a / b /\ (a * K / b + 1) / K = a / b.
Proof.
  intros Ha Hb.
  pose proof (Z.div_mod a b ltac:(lia)) as Hab.
  pose proof (Z.mod_pos_bound a b ltac:(lia)) as Hrho.
  set (c := a / b) in *. set (rho := a mod b) in *.
  assert (E : a * K = (c * K) * b + rho * K) by lia.
  pose proof (Z.div_mod (rho * K) b ltac:(lia)) as Hu.
  pose proof (Z.mod_pos_bound (rho * K) b ltac:(lia)) as Hv.
  set (u := rho * K / b) in *. set (v := (rho * K) mod b) in *.
  assert (Hu0 : 0 <= u) by (apply Z.div_pos; nia).
  assert (Hq : a * K / b = c * K + u).
  { symmetry. apply Z.div_unique with v; [lia|]. nia. }
  assert (Hu1 : u + 1 < K) by nia.
  rewrite Hq. split.
  - symmetry. apply Z.div_unique with u; lia.
  - symmetry. apply Z.div_unique with (u + 1); lia.
Qed.

Lemma digits_small (a : Z) : 0 < a < 2 ^ 53 -> 0 < Zdigits2 a <= 53.
Proof.
  intros Ha. split; [apply Zdigits2_pos; lia|].
  pose proof (Zdigits2_bounds a ltac:(lia)) as [Hlo _].
  destruct (Z.le_gt_cases (Zdigits2 a) 53) as [H|H]; [exact H|].
  assert (2 ^ 53 <= 2 ^ (Zdigits2 a - 1)) by (apply Z.pow_le_mono_r; lia). lia.
Qed.

Lemma normalized_bounds (a : Z) :
  0 < a < 2 ^ 53 -> 2 ^ 52 <= a * 2 ^ (53 - Zdigits2 a) < 2 ^ 53.
Proof.
  intros Ha. pose proof (digits_small a Ha) as Hd.
  pose proof (Zdigits2_bounds a ltac:(lia)) as [Hlo Hhi].
  assert (Hp : 0 < 2 ^ (53 - Zdigits2 a)) by (apply Z.pow_pos_nonneg; lia).
  assert (E52 : 2 ^ (Zdigits2 a - 1) * 2 ^ (53 - Zdigits2 a) = 2 ^ 52)
    by (rewrite <- Z.pow_add_r by lia; f_equal; lia).
  assert (Ed : 2 ^ Zdigits2 a = 2 * 2 ^ (Zdigits2 a - 1)).
  { replace (Zdigits2 a) with (1 + (Zdigits2 a - 1)) at 1 by lia.
    now rewrite Z.pow_add_r by lia. }
  change (2 ^ 53) with (2 * 2 ^ 52). nia.
Qed.

Lemma SFdiv_trunc (sa sb : bool) (a b : Z) :
  0 < a < 2 ^ 53 -> 0 < b < 2 ^ 53 ->
  SFtrunc (SFdiv prec emax (SFint sa a) (SFint sb b))
  = Some (if xorb sa sb then - (a / b) else a / b).
Proof.
  intros Ha Hb. unfold SFint.
  pose proof (digits_small a Ha) as Hda. pose proof (digits_small b Hb) as Hdb.
  pose proof (normalized_bounds a Ha) as Hma.
  pose proof (normalized_bounds b Hb) as Hmb.
  set (da := Zdigits2 a) in *. set (db := Zdigits2 b) in *.
  set (k := 53 + db - da).
  assert (Hk : 1 <= k) by (unfold k; lia).
  assert (HK : 0 < 2 ^ k) by (apply Z.pow_pos_nonneg; lia).
  assert (HB : 0 < 2 ^ (53 - db)) by (apply Z.pow_pos_nonneg; lia).
  assert (HbK : b < 2 ^ k).
  { pose proof (Zdigits2_bounds b ltac:(lia)) as [_ Hhi]. fold db in Hhi.
    assert (2 ^ db <= 2 ^ k) by (apply Z.pow_le_mono_r; unfold k; lia). lia. }
  assert (Eq : (a * 2 ^ (53 - da) * 2 ^ 53) / (b * 2 ^ (53 - db)) = a * 2 ^ k / b).
  { replace (a * 2 ^ (53 - da) * 2 ^ 53) with ((a * 2 ^ k) * 2 ^ (53 - db)).
    - apply Z.div_mul_cancel_r; lia.
    - rewrite <- !Z.mul_assoc, <- !Z.pow_add_r by lia. f_equal. f_equal.
      unfold k. lia. }
  destruct (scaled_quotient a b (2 ^ k) ltac:(lia) ltac:(lia)) as [Q0 Q1].
  destruct (SFdiv_normal sa sb (a * 2 ^ (53 - da)) (b * 2 ^ (53 - db))
              (da - 53) (db - 53) Hma Hmb ltac:(lia))
    as [m1 [n [Hn [Ht [Hm1 ->]]]]].
  rewrite Eq in Ht, Hm1. set (q := a * 2 ^ k / b) in *.
  rewrite SFtrunc_renorm by (destruct Hm1 as [-> | [-> _]]; lia).
  replace (- (da - 53 - (db - 53) - 53 + n)) with (k - n) by (unfold k; lia).
  assert (Em : m1 / 2 ^ (k - n) = a / b).
  { destruct Hn as [-> | ->].
    - rewrite Z.sub_0_r, Z.pow_0_r, Z.div_1_r in *.
      destruct Hm1 as [-> | [-> _]]; assumption.
    - change (2 ^ 1) with 2 in *.
      assert (EK : 2 ^ k = 2 * 2 ^ (k - 1)).
      { replace k with (1 + (k - 1)) at 1 by lia. now rewrite Z.pow_add_r by lia. }
      assert (HK' : 0 < 2 ^ (k - 1)) by (apply Z.pow_pos_nonneg; lia).
      destruct Hm1 as [-> | [-> [[H _]|[_ Hodd]]]]; try lia.
      + rewrite Z.div_div by lia. now rewrite <- EK.
      + rewrite <- Q1, EK.
        rewrite <- (Z.div_mul_cancel_l (q / 2 + 1) (2 ^ (k - 1)) 2) by lia.
        f_equal. rewrite (Z.div_mod q 2) at 2 by lia.
        rewrite Zmod_odd, Hodd. lia. }
  now rewrite Em.
Qed.

Lemma round_int_small (a : Z) :
  0 < a < 2 ^ 53 ->
  Binary64.round_int a = SFint false a /\ Binary64.round_int (- a) = SFint true a.
Proof.
  intros Ha. pose proof (digits_small a Ha) as Hd.
  destruct (binary_normalize_small a 0 Ha ltac:(lia)) as [E1 E2].
  cbv zeta in E1, E2. unfold Binary64.round_int, SFint.
  rewrite E1, E2. split; f_equal.
Qed.

Lemma SFint_valid (s : bool) (a : Z) :
  0 < a < 2 ^ 53 -> valid_binary (SFint s a) = true.
Proof.
  intros Ha. apply valid_normal. split; [now apply normalized_bounds|].
  pose proof (digits_small a Ha). lia.
Qed.

(** The sign and magnitude of a non-zero integer. *)
Lemma round_int_signed (z : Z) :
  0 < Z.abs z < 2 ^ 53 ->
  Binary64.round_int z = SFint (z <? 0) (Z.abs z).
Proof.
  intros Hz. destruct (round_int_small (Z.abs z) Hz) as [E1 E2].
  destruct (Z.ltb_spec z 0).
  - replace z with (- Z.abs z) at 1 by lia. exact E2.
  - replace z with (Z.abs z) at 1 by lia. exact E1.
Qed.

Lemma Prim2SF_literal (z : Z) :
  0 < Z.abs z < 2 ^ 53 ->
  Prim2SF (Binary64.literal z) = SFint (z <? 0) (Z.abs z).
Proof.
  intros Hz. unfold Binary64.literal. rewrite round_int_signed by exact Hz.
  apply Prim2SF_SF2Prim, SFint_valid, Hz.
Qed.

Lemma of_int_small (z : Z) :
  0 < Z.abs z < 2 ^ 53 ->
  Binary64.of_int z = Ok (Binary64.literal z).
Proof.
  intros Hz. unfold Binary64.of_int, Binary64.literal.
  now rewrite round_int_signed by exact Hz.
Qed.

Lemma of_int_zero : Binary64.of_int 0 = Ok 0%float.
Proof. reflexivity. Qed.

Lemma quot_abs (a b : Z) :
  b <> 0 ->
  Z.quot a b
  = if xorb (a <? 0) (b <? 0) then - (Z.abs a / Z.abs b) else Z.abs a / Z.abs b.
Proof.
  intros Hb.
  rewrite <- (Z.quot_div_nonneg (Z.abs a) (Z.abs b)) by lia.
  destruct (Z.ltb_spec a 0), (Z.ltb_spec b 0); cbn [xorb].
  - replace a with (- Z.abs a) at 1 by lia. replace b with (- Z.abs b) at 1 by lia.
    now rewrite Z.quot_opp_opp by lia.
  - replace a with (- Z.abs a) at 1 by lia. replace b with (Z.abs b) at 1 by lia.
    now rewrite Z.quot_opp_l by lia.
  - replace a with (Z.abs a) at 1 by lia. replace b with (- Z.abs b) at 1 by lia.
    now rewrite Z.quot_opp_r by lia.
  - replace a with (Z.abs a) at 1 by lia. replace b with (Z.abs b) at 1 by lia.
    reflexivity.
Qed.

Lemma to_int_SFtrunc (x : float) (z : Z) :
  SFtrunc (Prim2SF x) = Some z -> Binary64.to_int x = Ok z.
Proof.
  unfold Binary64.to_int, Binary64.int_of_float, SFtrunc.
  destruct (Prim2SF x); intros E; try discriminate; now injection E as <-.
Qed.

Lemma eqb_zero_SFint (y : float) (s : bool) (b : Z) :
  Prim2SF y = SFint s b -> (y =? 0)%float = false.
Proof.
  intros E. rewrite FloatAxioms.eqb_spec, E. unfold SFint.
  change (Prim2SF 0) with (S754_zero false). unfold SFeqb. cbn [SFcompare].
  now destruct s.
Qed.

(** [int(total/nt)] in binary64 is the exact truncated quotient when
    both operands are below [2^53] in absolute value. *)
Theorem int_div_exact (total nt : Z) :
  Z.abs total < 2 ^ 53 -> 0 < Z.abs nt < 2 ^ 53 ->
  Binary64.int_div total nt = Ok (Z.quot total nt).
Proof.
  intros Ht Hnt. unfold Binary64.int_div.
  rewrite of_int_small by exact Hnt. cbn [bind].
  pose proof (Prim2SF_literal nt Hnt) as Ey.
  unfold Binary64.true_div. rewrite (eqb_zero_SFint _ _ _ Ey). cbn [bind].
  apply to_int_SFtrunc. rewrite FloatAxioms.div_spec, Ey.
  destruct (Z.eq_dec total 0) as [->|H0].
  - change (Prim2SF (Binary64.literal 0)) with (S754_zero false).
    unfold SFint. cbn [SF64div SFdiv SFtrunc]. now rewrite Z.quot_0_l by lia.
  - rewrite Prim2SF_literal by lia.
    unfold SF64div. rewrite SFdiv_trunc by lia.
    now rewrite quot_abs by lia.
Qed.

Lemma int_div_zero (total : Z) : Binary64.int_div total 0 = Raise ZeroDivisionError.
Proof. reflexivity. Qed.

(** The product of two integers is exact when it has at most 53 digits. *)
Lemma SFmul_int (sa sb : bool) (a b : Z) :
  0 < a -> 0 < b -> a * b < 2 ^ 53 ->
  SFmul prec emax (SFint sa a) (SFint sb b) = SFint (xorb sa sb) (a * b).
Proof.
  intros Ha Hb Hab.
  assert (Ha' : 0 < a < 2 ^ 53) by nia.
  assert (Hb' : 0 < b < 2 ^ 53) by nia.
  assert (Hab' : 0 < a * b < 2 ^ 53) by nia.
  pose proof (digits_small a Ha') as Hda. pose proof (digits_small b Hb') as Hdb.
  pose proof (digits_small (a * b) Hab') as Hdab.
  pose proof (normalized_bounds a Ha') as Hma.
  pose proof (normalized_bounds b Hb') as Hmb.
  pose proof (normalized_bounds (a * b) Hab') as Hmab.
  pose proof (Zdigits2_bounds a Ha) as [Hlo_a Hhi_a].
  pose proof (Zdigits2_bounds b Hb) as [Hlo_b Hhi_b].
  pose proof (Zdigits2_bounds (a * b) ltac:(lia)) as [Hlo_ab Hhi_ab].
  unfold SFint in *.
  set (da := Zdigits2 a) in *. set (db := Zdigits2 b) in *.
  set (dab := Zdigits2 (a * b)) in *.
  assert (Hdd : da + db - 1 <= dab).
  { destruct (Z.le_gt_cases (da + db - 1) dab) as [H|H]; [exact H|].
    assert (2 ^ dab <= 2 ^ (da + db - 2)) by (apply Z.pow_le_mono_r; lia).
    assert (2 ^ (da + db - 2) = 2 ^ (da - 1) * 2 ^ (db - 1))
      by (rewrite <- Z.pow_add_r by lia; f_equal; lia).
    nia. }
  cbn [SFmul]. rewrite Pos2Z.inj_mul, !Z2Pos.id by lia.
  set (P := a * 2 ^ (53 - da) * (b * 2 ^ (53 - db))).
  set (n := dab + 53 - da - db).
  assert (Hn : 52 <= n) by (unfold n; lia).
  assert (EP : P = (a * b * 2 ^ (53 - dab)) * 2 ^ n).
  { assert (E : 2 ^ (53 - da) * 2 ^ (53 - db) = 2 ^ (53 - dab) * 2 ^ n).
    { rewrite <- (Z.pow_add_r 2 (53 - da) (53 - db)),
              <- (Z.pow_add_r 2 (53 - dab) n) by lia.
      f_equal. unfold n. lia. }
    unfold P.
    replace (a * 2 ^ (53 - da) * (b * 2 ^ (53 - db)))
      with (a * b * (2 ^ (53 - da) * 2 ^ (53 - db))) by ring.
    rewrite E. ring. }
  assert (HdP : Zdigits2 P = 53 + n).
  { rewrite EP, Zdigits2_shift by lia.
    f_equal. apply Zdigits2_unique; [change (53 - 1) with 52|]; lia. }
  assert (Hpn : 0 < 2 ^ n) by (apply Z.pow_pos_nonneg; lia).
  destruct (binary_round_aux_normal (xorb sa sb) P (da - 53 + (db - 53)) loc_Exact
              ltac:(lia) ltac:(lia) ltac:(unfold n in HdP; lia)) as [m1 [Hm1 ->]].
  rewrite HdP in Hm1 |- *. replace (53 + n - 53) with n in * by lia.
  assert (Et : P / 2 ^ n = a * b * 2 ^ (53 - dab))
    by (rewrite EP; apply Z.div_mul; lia).
  rewrite Et in Hm1.
  assert (E1 : m1 = a * b * 2 ^ (53 - dab)).
  { destruct Hm1 as [E|[_ [[H _]|[_ Hodd]]]]; [exact E|lia|exfalso].
    assert (E2 : P / 2 ^ (n - 1) = 2 * (a * b * 2 ^ (53 - dab))).
    { rewrite EP. replace n with (1 + (n - 1)) at 1 by lia.
      rewrite Z.pow_add_r, Z.mul_assoc, Z.div_mul by (try apply Z.pow_nonzero; lia).
      change (2 ^ 1) with 2. lia. }
    rewrite E2, Z.odd_mul in Hodd. discriminate. }
  subst m1. rewrite renorm_exact by lia.
  f_equal. unfold n. lia.
Qed.









(** ** The estimates *)

Lemma SFint_one : Prim2SF 1 = SFint false 1.
Proof. reflexivity. Qed.

Lemma SFint_four : Prim2SF 4 = SFint false 4.
Proof. reflexivity. Qed.

(** [x * z] is exact when [x] is an integer and the product has at most
    53 digits. *)
Lemma mul_int_exact (x : float) (s : bool) (a z : Z) :
  Prim2SF x = SFint s a -> 0 < a -> 0 < Z.abs z -> a * Z.abs z < 2 ^ 53 ->
  exists y, Binary64.mul_int x z = Ok y
    /\ Prim2SF y = SFint (xorb s (z <? 0)) (a * Z.abs z).
Proof.
  intros Ex Ha Hz Hp. unfold Binary64.mul_int.
  assert (Hz' : 0 < Z.abs z < 2 ^ 53) by nia.
  rewrite of_int_small by exact Hz'. cbn [bind].
  eexists. split; [reflexivity|].
  rewrite FloatAxioms.mul_spec, Ex, Prim2SF_literal by exact Hz'.
  apply SFmul_int; lia.
Qed.

Lemma mul_int_zero (x : float) (s : bool) (a : Z) :
  Prim2SF x = SFint s a ->
  exists y, Binary64.mul_int x 0 = Ok y /\ Prim2SF y = S754_zero s.
Proof.
  intros Ex. unfold Binary64.mul_int. rewrite of_int_zero. cbn [bind].
  eexists. split; [reflexivity|].
  rewrite FloatAxioms.mul_spec, Ex. change (Prim2SF 0) with (S754_zero false).
  unfold SFint. cbn [SF64mul SFmul]. now destruct s.
Qed.

Lemma zero_mul_int (x : float) (s : bool) (z : Z) :
  Prim2SF x = S754_zero s -> 0 < Z.abs z < 2 ^ 53 ->
  exists y, Binary64.mul_int x z = Ok y /\ Prim2SF y = S754_zero (xorb s (z <? 0)).
Proof.
  intros Ex Hz. unfold Binary64.mul_int. rewrite of_int_small by exact Hz. cbn [bind].
  eexists. split; [reflexivity|].
  rewrite FloatAxioms.mul_spec, Ex, Prim2SF_literal by exact Hz.
  unfold SFint. reflexivity.
Qed.

Lemma eqb_zero_zero (y : float) (s : bool) :
  Prim2SF y = S754_zero s -> (y =? 0)%float = true.
Proof.
  intros E. rewrite FloatAxioms.eqb_spec, E. change (Prim2SF 0) with (S754_zero false).
  reflexivity.
Qed.

(** The denominator [1.0*samples*nt] is the float of the integer
    [samples*nt]. *)
Lemma denominator_exact (samples nt : Z) :
  0 < Z.abs samples -> 0 < Z.abs nt -> Z.abs (samples * nt) < 2 ^ 53 ->
  (d <- Binary64.mul_int 1 samples ;; Binary64.mul_int d nt)
  = Binary64.of_int (samples * nt).
Proof.
  intros Hs Hn Hp. rewrite Z.abs_mul in Hp.
  destruct (mul_int_exact 1 false 1 samples SFint_one ltac:(lia) Hs ltac:(nia))
    as [d [-> Ed]]. cbn [bind].
  rewrite Z.mul_1_l in Ed.
  destruct (mul_int_exact d _ _ nt Ed ltac:(lia) Hn Hp) as [y [-> Ey]].
  rewrite of_int_small by (rewrite Z.abs_mul; nia).
  f_equal. apply Prim2SF_inj.
  rewrite Ey, Prim2SF_literal by (rewrite Z.abs_mul; nia).
  rewrite Z.abs_mul. f_equal.
  cbn [xorb]. destruct (Z.ltb_spec samples 0), (Z.ltb_spec nt 0),
    (Z.ltb_spec (samples * nt) 0); cbn; try reflexivity; nia.
Qed.

(** The threading estimate is the pooled ratio of the counter and the
    product [samples * nt]. *)
Lemma estimate_ratio (inside samples nt : Z) :
  0 < Z.abs nt -> Z.abs (samples * nt) < 2 ^ 53 -> Z.abs nt < 2 ^ 53 ->
  Binary64.estimate inside samples nt = Binary64.ratio inside (samples * nt).
Proof.
  intros Hn Hp Hnt. unfold Binary64.estimate, Binary64.ratio.
  destruct (Binary64.mul_int 4 inside) as [num|e]; [cbn [bind]|reflexivity].
  destruct (Z.eq_dec samples 0) as [->|Hs].
  - destruct (mul_int_zero 1 false 1 SFint_one) as [d [-> Ed]]. cbn [bind].
    destruct (zero_mul_int d false nt Ed ltac:(lia)) as [y [-> Ey]].
    cbn [bind Z.mul]. rewrite of_int_zero. cbn [bind].
    unfold Binary64.true_div. rewrite (eqb_zero_zero y _ Ey). reflexivity.
  - pose proof (denominator_exact samples nt ltac:(lia) Hn Hp) as E.
    destruct (Binary64.mul_int 1 samples) as [d|e]; cbn [bind] in *.
    + rewrite E. reflexivity.
    + now rewrite <- E.
Qed.



Lemma SFint_exponent (a : Z) : 0 < a < 2 ^ 53 -> -52 <= Zdigits2 a - 53 <= 0.
Proof. intros Ha. pose proof (digits_small a Ha). lia. Qed.




(** ** [np.mean] *)














Lemma Prim2SF_float_of_Z (k : Z) :
  0 < k < 2 ^ 53 -> Prim2SF (Binary64.float_of_Z k) = SFint false k.
Proof.
  intros Hk. unfold Binary64.float_of_Z.
  rewrite of_uint63_spec, Uint63.of_Z_spec.
  rewrite Z.mod_small by (change Uint63.wB with (2 ^ 63); lia).
  apply (round_int_small k Hk).
Qed.


Lemma of_int_Ok (z : Z) :
  Z.abs z < 2 ^ 53 -> exists y, Binary64.of_int z = Ok y.
Proof.
  intros Hz. destruct (Z.eq_dec z 0) as [->|H0].
  - eexists. apply of_int_zero.
  - eexists. apply of_int_small. lia.
Qed.

(** The ratio is defined as soon as the denominator is not zero. *)
Lemma ratio_Ok (h n : Z) :
  Z.abs h < 2 ^ 53 -> 0 < Z.abs n < 2 ^ 53 ->
  exists v, Binary64.ratio h n = Ok v.
Proof.
  intros Hh Hn. unfold Binary64.ratio, Binary64.mul_int.
  destruct (of_int_Ok h Hh) as [y ->]. cbn [bind].
  rewrite of_int_small by exact Hn. cbn [bind]. unfold Binary64.true_div.
  rewrite (eqb_zero_SFint _ _ _ (Prim2SF_literal n Hn)). eauto.
Qed.

Lemma ratio_no_samples (h : Z) :
  Z.abs h < 2 ^ 53 -> Binary64.ratio h 0 = Raise ZeroDivisionError.
Proof.
  intros Hh. unfold Binary64.ratio, Binary64.mul_int.
  destruct (of_int_Ok h Hh) as [y ->]. reflexivity.
Qed.

(** Without hits the ratio is zero, of either sign. *)
Lemma ratio_no_hits (n : Z) :
  0 < Z.abs n < 2 ^ 53 ->
  exists v, Binary64.ratio 0 n = Ok v /\ (v =? 0)%float = true.
Proof.
  intros Hn. unfold Binary64.ratio.
  destruct (mul_int_zero 4 false 4 SFint_four) as [num [-> Enum]]. cbn [bind].
  rewrite of_int_small by exact Hn. cbn [bind]. unfold Binary64.true_div.
  pose proof (Prim2SF_literal n Hn) as Ed.
  rewrite (eqb_zero_SFint _ _ _ Ed).
  eexists. split; [reflexivity|].
  eapply eqb_zero_zero. rewrite FloatAxioms.div_spec, Enum, Ed. unfold SFint. reflexivity.
Qed.

Lemma null_eqb (x : float) : null x = true -> (x =? 0)%float = true.
Proof.
  unfold null. intros H. destruct (Prim2SF x) as [s| | |] eqn:E; try discriminate.
  eapply eqb_zero_zero, E.
Qed.

(* ================================================================== *)
(** * Python's generator: facts *)
(* ================================================================== *)

Lemma u32_range (z : Z) : 0 <= MersenneTwister.u32 z < 2 ^ 32.
Proof.
  unfold MersenneTwister.u32. change 0xffffffff with (Z.ones 32).
  rewrite Z.land_ones by lia. apply Z.mod_pos_bound. lia.
Qed.

(** An integer below [2^53] divided by [2^53] is a float of [[0, 1)]. *)
Lemma unit_fraction (n : Z) :
  0 <= n < 2 ^ 53 ->
  in_unit (Binary64.float_of_Z n / 9007199254740992)%float = true.
Proof.
  intros Hn. destruct (Z.eq_dec n 0) as [->|Hn0]; [reflexivity|].
  unfold in_unit.
  rewrite FloatAxioms.leb_spec, FloatAxioms.ltb_spec, FloatAxioms.div_spec.
  rewrite Prim2SF_float_of_Z by lia.
  change (Prim2SF 0) with (S754_zero false).
  change (Prim2SF 1) with (S754_finite false (Z.to_pos (2 ^ 52)) (-52)).
  change (Prim2SF 9007199254740992)
    with (S754_finite false (Z.to_pos (2 ^ 52)) 1).
  unfold SFint.
  pose proof (digits_small n ltac:(lia)) as Hd.
  pose proof (normalized_bounds n ltac:(lia)) as Hm.
  set (mx := n * 2 ^ (53 - Zdigits2 n)) in *.
  destruct (SFdiv_normal false false mx (2 ^ 52) (Zdigits2 n - 53) 1)
    as [m1 [k [Hk [Hq [Hm1 E]]]]]; [lia|lia|lia|].
  unfold SF64div. rewrite E. clear E.
  assert (Eq : mx * 2 ^ 53 / 2 ^ 52 = 2 * mx).
  { change (2 ^ 53) with (2 * 2 ^ 52). rewrite Z.mul_assoc.
    rewrite Z.div_mul by lia. lia. }
  rewrite Eq in Hq, Hm1.
  assert (Ek : k = 1).
  { destruct Hk as [-> | ->]; [|reflexivity].
    change (2 ^ 0) with 1 in Hq. rewrite Z.div_1_r in Hq. lia. }
  subst k. change (2 ^ 1) with 2 in Hq, Hm1.
  assert (Eh : 2 * mx / 2 = mx) by (rewrite Z.mul_comm; apply Z.div_mul; lia).
  rewrite Eh in Hq, Hm1.
  assert (Em : m1 = mx).
  { destruct Hm1 as [H|[_ [[H _]|[_ H]]]]; [exact H|discriminate|].
    rewrite Z.odd_mul in H. discriminate. }
  subst m1. rewrite renorm_exact by lia.
  unfold SFleb, SFltb. cbn [SFcompare xorb].
  assert (Hc : (Zdigits2 n - 53 - 1 - 53 + 1 ?= -52) = Lt)
    by (apply Z.compare_lt_iff; lia).
  rewrite Hc. reflexivity.
Qed.

Lemma genrand_uint32_range (g : MersenneTwister.state) :
  0 <= fst (MersenneTwister.genrand_uint32 g) < 2 ^ 32.
Proof. unfold MersenneTwister.genrand_uint32. cbn [fst]. apply u32_range. Qed.

Lemma random_random_unit (g : MersenneTwister.state) :
  in_unit (fst (MersenneTwister.random_random g)) = true.
Proof.
  unfold MersenneTwister.random_random.
  pose proof (genrand_uint32_range g) as Ha.
  destruct (MersenneTwister.genrand_uint32 g) as [a g1].
  pose proof (genrand_uint32_range g1) as Hb.
  destruct (MersenneTwister.genrand_uint32 g1) as [b g2].
  cbn [fst] in *. apply unit_fraction.
  rewrite !Z.shiftr_div_pow2 by lia.
  assert (0 <= a / 2 ^ 5 < 2 ^ 27)
    by (split; [apply Z.div_pos; lia|apply Z.div_lt_upper_bound; lia]).
  assert (0 <= b / 2 ^ 6 < 2 ^ 26)
    by (split; [apply Z.div_pos; lia|apply Z.div_lt_upper_bound; lia]).
  lia.
Qed.

(** Python's generator as a [random] module. *)
Definition mt19937 : RandomModule :=
  {| gen := MersenneTwister.state;
     seed := MersenneTwister.random_seed;
     random := MersenneTwister.random_random;
     random_unit := random_random_unit |}.

(** The first numbers after [random.seed(0)] and [random.seed(1)]. *)
Lemma mt19937_seed_0 :
  fst (draw_pairs (R := mt19937) 2 (seed 0))
  = [ (0.8444218515250481, 0.7579544029403025);
      (0.420571580830845, 0.25891675029296335) ]%float.
Proof. vm_compute. reflexivity. Qed.

Lemma mt19937_seed_1 :
  fst (draw_pairs (R := mt19937) 1 (seed 1))
  = [ (0.13436424411240122, 0.8474337369372327) ]%float.
Proof. vm_compute. reflexivity. Qed.

(** With seed [0] the first pair misses the circle and the second hits it;
    with seed [1] the first pair hits it. *)
Lemma mt19937_hits :
  worker_hits (R := mt19937) 1 0 = 0
  /\ worker_hits (R := mt19937) 2 0 = 1
  /\ worker_hits (R := mt19937) 1 1 = 1.
Proof. vm_compute. repeat split. Qed.

(* ================================================================== *)
(** * The two examples in binary64: facts *)
(* ================================================================== *)

Lemma quot_mul_le (total nt : Z) :
  nt <> 0 -> Z.abs (Z.quot total nt * nt) <= Z.abs total.
Proof.
  intros Hnt. rewrite Z.abs_mul, quot_abs by exact Hnt.
  assert (E : forall b : bool, Z.abs (if b then - (Z.abs total / Z.abs nt)
                                     else Z.abs total / Z.abs nt)
                               = Z.abs total / Z.abs nt).
  { intros b. pose proof (Z.div_pos (Z.abs total) (Z.abs nt) ltac:(lia) ltac:(lia)).
    destruct b; lia. }
  rewrite E. rewrite Z.mul_comm. apply Z.mul_div_le. lia.
Qed.

Lemma plan_exact (total nt : Z) :
  Z.abs total < 2 ^ 53 -> 0 < Z.abs nt < 2 ^ 53 ->
  Binary64.plan total nt = Ok (worker_args (Z.quot total nt) nt).
Proof.
  intros Ht Hnt. unfold Binary64.plan. now rewrite int_div_exact.
Qed.

Section InterpreterFacts.

Context {R : RandomModule}.

(** The threading example on operands below [2^53]: the threads started
    and, once the joins have returned, the pooled ratio of the counter and
    the product [samples * nt]. *)
Lemma threading_report (schedule : list nat) (total nt : Z) (g0 : gen) :
  Z.abs total < 2 ^ 53 -> 0 < Z.abs nt < 2 ^ 53 ->
  let samples := Z.quot total nt in
  let m := Interleaved.run schedule
             (Interleaved.boot (worker_args samples nt) g0) in
  Interpreter.threading schedule total nt g0
  = {| Interpreter.started := worker_args samples nt;
       Interpreter.outcome :=
         if Interleaved.finished m
         then Some (Binary64.ratio (Interleaved.inside m) (samples * nt))
         else None |}.
Proof.
  intros Ht Hnt samples m. unfold Interpreter.threading.
  rewrite int_div_exact by assumption. fold samples. cbv zeta. fold m.
  f_equal. destruct (Interleaved.finished m); [|reflexivity].
  f_equal. apply estimate_ratio; try lia.
  pose proof (quot_mul_le total nt ltac:(lia)). fold samples in H. lia.
Qed.

Lemma sequential_finished (args : list (Z * Z)) (g0 : gen) :
  Interleaved.finished
    (Interleaved.run (Interleaved.sequential args) (Interleaved.boot args g0))
  = true.
Proof.
  destruct (run_sequential args g0) as [_ [_ Hfin]].
  unfold Interleaved.finished. apply forallb_forall. intros t Ht.
  rewrite Forall_forall in Hfin. now rewrite (Hfin t Ht).
Qed.

Lemma sequential_inside (args : list (Z * Z)) (g0 : gen) :
  Interleaved.inside
    (Interleaved.run (Interleaved.sequential args) (Interleaved.boot args g0))
  = totalHits (task_results args).
Proof.
  destruct (run_sequential args g0) as [_ [Hin _]].
  rewrite Hin, run_threads_inside. cbn [Threading.inside]. lia.
Qed.

(** The totals of a split with a non-negative count for each of at least
    one worker. *)
Lemma totalSamples_split (samples nt : Z) :
  0 <= samples -> 0 <= nt ->
  totalSamples (task_results (worker_args samples nt)) = samples * nt.
Proof.
  intros Hs Hn. rewrite totalSamples_worker_args, !Z2Nat.id by lia. lia.
Qed.

Lemma task_results_worker_args (samples nt : Z) :
  task_results (worker_args samples nt)
  = map (fun r => task_result (samples, r)) (range nt).
Proof. unfold task_results, worker_args. now rewrite map_map. Qed.

(** What [pool.map] returns when every worker has at least one sample:
    the ratio of each rank, in rank order. *)
Lemma pool_map_ratios (nsamples processes : Z) (worker_gen : Z -> gen) :
  0 < nsamples < 2 ^ 53 ->
  exists qs,
    Interpreter.pool_map nsamples processes worker_gen = Ok qs
    /\ Forall2 (fun q t => Binary64.ratio (hitCount t) (sampleCount t) = Ok q)
               qs (task_results (worker_args nsamples processes)).
Proof.
  intros Hn. rewrite task_results_worker_args. unfold Interpreter.pool_map.
  apply sequence_Forall2. intros r _.
  unfold Interpreter.calcInside. rewrite mp_calcInside_count.
  cbn [task_result hitCount sampleCount fst snd].
  pose proof (worker_hits_bounds nsamples r) as Hb.
  rewrite Z2Nat.id in Hb by lia. rewrite Z2Nat.id by lia.
  destruct (ratio_Ok (worker_hits nsamples r) nsamples) as [v Hv]; [lia|lia|].
  exists v. split; exact Hv.
Qed.


Lemma pool_map_no_samples (processes : Z) (worker_gen : Z -> gen) :
  1 <= processes ->
  Interpreter.pool_map 0 processes worker_gen = Raise ZeroDivisionError.
Proof.
  intros Hp. unfold Interpreter.pool_map. apply sequence_Raise.
  - intros E. apply (f_equal (@length Z)) in E.
    rewrite range_length in E. cbn in E. lia.
  - intros r. unfold Interpreter.calcInside. rewrite mp_calcInside_count.
    pose proof (worker_hits_bounds 0 r) as Hb.
    change (Z.of_nat (Z.to_nat 0)) with 0 in Hb.
    replace (worker_hits 0 r) with 0 by lia. reflexivity.
Qed.


(** The multiprocessing example on a request that gives every worker at
    least one sample. *)
Lemma multiprocessing_Ok (total nt : Z) (worker_gen : Z -> gen) :
  1 <= nt <= total -> total < 2 ^ 53 ->
  exists qs,
    Interpreter.pool_map (Z.quot total nt) nt worker_gen = Ok qs
    /\ Interpreter.multiprocessing total nt worker_gen
       = Ok (Binary64.np_mean qs).
Proof.
  intros H Ht. pose proof (samples_pos total nt H) as Hs.
  assert (Hq : Z.quot total nt <= total).
  { rewrite quot_floor by lia. apply Z.div_le_upper_bound; nia. }
  destruct (pool_map_ratios (Z.quot total nt) nt worker_gen ltac:(lia))
    as [qs [Hqs _]].
  exists qs. split; [exact Hqs|].
  unfold Interpreter.multiprocessing.
  rewrite int_div_exact by lia. cbn [bind]. unfold Multiprocessing.Pool.
  destruct (Z.ltb_spec nt 1); [lia|]. cbn [bind]. now rewrite Hqs.
Qed.

Lemma multiprocessing_no_samples (total nt : Z) (worker_gen : Z -> gen) :
  1 <= nt < 2 ^ 53 -> 0 <= total < nt ->
  Interpreter.multiprocessing total nt worker_gen = Raise ZeroDivisionError.
Proof.
  intros Hnt H. unfold Interpreter.multiprocessing.
  rewrite int_div_exact, samples_zero by lia. cbn [bind].
  unfold Multiprocessing.Pool.
  destruct (Z.ltb_spec nt 1); [lia|]. cbn [bind].
  now rewrite pool_map_no_samples by lia.
Qed.

(** Threads that have no sample to draw leave the counter at zero. *)
Lemma idle_inside (samples nt : Z) (g0 : gen) (schedule : list nat) :
  samples <= 0 \/ nt <= 0 ->
  Interleaved.inside
    (Interleaved.run schedule (Interleaved.boot (worker_args samples nt) g0))
  = 0.
Proof.
  intros H.
  destruct (outcomes_totals (worker_args samples nt) g0 schedule)
    as [HH [HS Hall]].
  cbv zeta in HH, HS, Hall. rewrite <- HH.
  pose proof (totals_bounds _ Hall) as Hb.
  rewrite HS, totalSamples_worker_args in Hb.
  assert (E : Z.of_nat (Z.to_nat nt) * Z.of_nat (Z.to_nat samples) = 0)
    by (destruct H; [replace (Z.to_nat samples) with 0%nat by lia
                    |replace (Z.to_nat nt) with 0%nat by lia]; lia).
  lia.
Qed.

End InterpreterFacts.

(* ------------------------------------------------------------------ *)
(** ** The two summaries on the workers of a split *)
(* ------------------------------------------------------------------ *)

(** In exact arithmetic the mean of the workers' ratios is the pooled
    ratio, all workers of a split having the same count. *)
Lemma mean_of_ratios_pooled {R : RandomModule} (samples nt : Z) :
  1 <= samples -> 1 <= nt ->
  (Multiprocessing.np_mean (map ratio (task_results (worker_args samples nt)))
   == pooled (task_results (worker_args samples nt)))%Q.
Proof.
  intros Hs Hn.
  assert (E : map ratio (task_results (worker_args samples nt))
              = map (fun h => (4 * inject_Z h / inject_Z samples)%Q)
                    (rank_hits samples nt)).
  { rewrite task_results_worker_args. unfold rank_hits. rewrite !map_map.
    apply map_ext. intros r. unfold ratio.
    cbn [task_result hitCount sampleCount fst snd].
    now rewrite Z2Nat.id by lia. }
  rewrite E.
  assert (Hlen : length (rank_hits samples nt) = Z.to_nat nt).
  { unfold rank_hits. now rewrite length_map, range_length. }
  rewrite mean_ratios_common.
  - unfold pooled.
    rewrite totalSamples_worker_args, totalHits_worker_args, Hlen.
    rewrite !Z2Nat.id by lia. reflexivity.
  - exact Hs.
  - intros Hnil. rewrite Hnil in Hlen. cbn in Hlen. lia.
Qed.




Section MoreSamples.

Context {R : RandomModule}.




(** Two threads with one sample each: the second one seeds between the
    seeding and the first draw of the first one, which then draws its
    pair from the sequence of the second seed. *)
Lemma run_reseeded (a b : Z) (g0 : gen) :
  nth_error
    (Interleaved.threads
       (Interleaved.run [0; 1; 0; 0; 0]%nat
          (Interleaved.boot [(1, a); (1, b)] g0))) 0
  = Some (Interleaved.returned (1, a) (worker_hits 1 b)).
Proof.
  set (t0 := Interleaved.move (Interleaved.fresh (1, a)) (Interleaved.AtDrawX 0) 0).
  set (t1 := Interleaved.move (Interleaved.fresh (1, b)) (Interleaved.AtDrawX 0) 0).
  set (m2 := {| Interleaved.generator := seed b;
                Interleaved.inside := 0 + 0 + 0;
                Interleaved.threads := [t0; t1] |}).
  assert (E2 : Interleaved.run [0; 1]%nat (Interleaved.boot [(1, a); (1, b)] g0)
               = m2) by reflexivity.
  change [0; 1; 0; 0; 0]%nat with ([0; 1] ++ [0; 0; 0])%nat.
  rewrite run_app, E2.
  rewrite (run_iteration 0 0 m2 t0 eq_refl eq_refl).
  unfold worker_hits. change (Z.to_nat 1) with 1%nat.
  cbn [draw_pairs Interleaved.generator m2].
  destruct (random (seed b)) as [x g1]. destruct (random g1) as [y g2].
  cbn [Interleaved.threads Interleaved.replace nth_error m2 fst].
  rewrite hits_cons. cbn [fst snd].
  unfold t0, Interleaved.move, Interleaved.returned, Interleaved.fresh.
  cbn [Interleaved.nsamples Interleaved.rank Interleaved.added
       Interleaved.loop_head fst snd].
  do 2 f_equal. unfold hits. cbn. lia.
Qed.

End MoreSamples.

Section EstimateBounds.

Context {R : RandomModule}.




End EstimateBounds.

(* ================================================================== *)
(** * The properties of the specification *)
(* ================================================================== *)

(** C1, as amended. For a sample budget and a worker count below [2^53],
    the per-worker sample counts of the split add up to
    [workerCount * floor(totalSamples / workerCount)], that is to
    [totalSamples - totalSamples mod workerCount]; the sum is the requested
    total exactly when the worker count divides it. *)
Theorem C1_partition_sum (total nt : Z) :
  1 <= total < 2 ^ 53 -> 1 <= nt < 2 ^ 53 ->
  exists p, Binary64.plan total nt = Ok p
    /\ sum (sampleCounts p) = nt * (total / nt)
    /\ sum (sampleCounts p) = total - total mod nt
    /\ (sum (sampleCounts p) = total <-> total mod nt = 0).
Proof.
  intros Ht Hnt. exists (worker_args (Z.quot total nt) nt).
  assert (Hs : sum (sampleCounts (worker_args (Z.quot total nt) nt))
               = nt * (total / nt)).
  { rewrite worker_args_counts, sum_repeat, quot_floor by lia. lia. }
  pose proof (Z.div_mod total nt ltac:(lia)) as Hdm.
  repeat split.
  - apply plan_exact; lia.
  - exact Hs.
  - lia.
  - lia.
  - lia.
Qed.

Lemma C1_partition_sum_witness :
  exists p, Binary64.plan 12000000 4 = Ok p
    /\ sum (sampleCounts p) = 4 * (12000000 / 4)
    /\ sum (sampleCounts p) = 12000000 - 12000000 mod 4
    /\ (sum (sampleCounts p) = 12000000 <-> 12000000 mod 4 = 0).
Proof. apply (C1_partition_sum 12000000 4); lia. Defined.

(** C1 as stated fails: for 10 samples and 4 workers the counts add up
    to 8; and for [2^53 + 1] samples and one worker the count is [2^53],
    the float nearest to the budget. *)
Lemma C1_counterexample :
  ~ (exists p, Binary64.plan 10 4 = Ok p /\ sum (sampleCounts p) = 10)
  /\ ~ (exists p, Binary64.plan (2 ^ 53 + 1) 1 = Ok p
                  /\ sum (sampleCounts p) = 2 ^ 53 + 1).
Proof.
  split; intros [p [Hp Hsum]]; vm_compute in Hp;
    injection Hp as <-; vm_compute in Hsum; discriminate.
Qed.

(** C2, as amended. For a sample budget and a worker count below [2^53],
    every worker is assigned the same count
    [floor(totalSamples / workerCount)]; no worker receives an extra sample,
    and for 10 samples and 4 workers the counts are [2, 2, 2, 2]. *)
Theorem C2_equal_allocation (total nt : Z) :
  1 <= total < 2 ^ 53 -> 1 <= nt < 2 ^ 53 ->
  (exists p, Binary64.plan total nt = Ok p
     /\ sampleCounts p = repeat (total / nt) (Z.to_nat nt)
     /\ (forall c, In c (sampleCounts p) -> c = total / nt))
  /\ (exists p, Binary64.plan 10 4 = Ok p /\ sampleCounts p = [2; 2; 2; 2]).
Proof.
  intros Ht Hnt. split.
  - exists (worker_args (Z.quot total nt) nt).
    rewrite plan_exact, worker_args_counts, quot_floor by lia.
    repeat split. intros c Hc. now apply repeat_spec in Hc.
  - eexists. split; vm_compute; reflexivity.
Qed.

Lemma C2_equal_allocation_witness :
  (exists p, Binary64.plan 12000000 4 = Ok p
     /\ sampleCounts p = repeat (12000000 / 4) (Z.to_nat 4)
     /\ (forall c, In c (sampleCounts p) -> c = 12000000 / 4))
  /\ (exists p, Binary64.plan 10 4 = Ok p /\ sampleCounts p = [2; 2; 2; 2]).
Proof. apply (C2_equal_allocation 12000000 4); lia. Defined.

(** C2 as stated fails: for 10 samples and 4 workers the counts are not
    [3, 3, 2, 2]; and for [2^53 + 1] samples and one worker the count is
    not [floor(totalSamples / workerCount)]. *)
Lemma C2_counterexample :
  ~ (exists p, Binary64.plan 10 4 = Ok p /\ sampleCounts p = [3; 3; 2; 2])
  /\ ~ (exists p, Binary64.plan (2 ^ 53 + 1) 1 = Ok p
                  /\ sampleCounts p = [(2 ^ 53 + 1) / 1]).
Proof.
  split; intros [p [Hp Hc]]; vm_compute in Hp;
    injection Hp as <-; vm_compute in Hc; discriminate.
Qed.



(** C4. A call of the multiprocessing [calcInside] with a count [n >= 1]
    and a seed [s] reseeds the generator of its process with [s], whatever
    state it was in, draws exactly the first [n] pairs of the sequence
    that starts there, all coordinates being in [[0, 1)], and counts those
    with [x*x + y*y < 1] strictly; a pair whose sum is exactly [1] is not
    counted.  The threading [calcInside] does not: its generator is the
    one of the [random] module, shared by all threads.  Take two threads
    with one sample each and seeds [a] and [b], and let the second thread
    execute its [random.seed(b)] between the [random.seed(a)] and the
    first draw of the first thread.  The first thread then returns having
    counted the first pair of the sequence of seed [b]: when that pair and
    the first pair of seed [a] do not both pass or both fail the test, its
    count is not the one of the sequence its own seed initialises. *)
Theorem C4_shared_generator {R : RandomModule} (a b : Z) (g0 : gen) :
  worker_hits 1 a <> worker_hits 1 b ->
  let m := Interleaved.run [0; 1; 0; 0; 0]%nat
             (Interleaved.boot [(1, a); (1, b)] g0) in
  (exists t, nth_error (Interleaved.threads m) 0 = Some t
     /\ Interleaved.at_ t = Interleaved.Finished
     /\ Interleaved.nsamples t = 1 /\ Interleaved.rank t = a
     /\ Interleaved.added t = hits (fst (draw_pairs 1 (seed b)))
     /\ Interleaved.added t <> hits (fst (draw_pairs 1 (seed a))))
  /\ (forall n s g,
        1 <= n ->
        let ps := fst (draw_pairs (Z.to_nat n) (seed s)) in
        Z.of_nat (length ps) = n
        /\ Forall (fun p => in_unit (fst p) = true /\ in_unit (snd p) = true)
                  ps
        /\ hits ps
           = Z.of_nat (length (filter
               (fun p => ((fst p * fst p) + (snd p * snd p) <? 1)%float) ps))
        /\ Multiprocessing.calcInside_count n s g = hits ps
        /\ Interpreter.calcInside n s g = Binary64.ratio (hits ps) n)
  /\ (forall x y,
        ((x * x) + (y * y) =? 1)%float = true -> in_circle x y = false).
Proof.
  intros Hne m. split; [|split].
  - exists (Interleaved.returned (1, a) (worker_hits 1 b)).
    split; [apply run_reseeded|].
    cbn [Interleaved.returned Interleaved.at_ Interleaved.nsamples
         Interleaved.rank Interleaved.added fst snd].
    repeat split. exact (not_eq_sym Hne).
  - intros n s g Hn ps.
    assert (Hc : Multiprocessing.calcInside_count n s g = hits ps)
      by apply mp_calcInside_count.
    split; [unfold ps; rewrite draw_pairs_length; lia|].
    split; [apply draw_pairs_unit|]. split; [reflexivity|].
    split; [exact Hc|].
    unfold Interpreter.calcInside. now rewrite Hc.
  - exact boundary_not_inside.
Qed.

Lemma C4_shared_generator_witness :
  let m := Interleaved.run [0; 1; 0; 0; 0]%nat
             (Interleaved.boot (R := mt19937) [(1, 0); (1, 1)]
                (MersenneTwister.random_seed 5)) in
  (exists t, nth_error (Interleaved.threads m) 0 = Some t
     /\ Interleaved.at_ t = Interleaved.Finished
     /\ Interleaved.nsamples t = 1 /\ Interleaved.rank t = 0
     /\ Interleaved.added t
        = hits (fst (draw_pairs 1 (seed (RandomModule := mt19937) 1)))
     /\ Interleaved.added t
        <> hits (fst (draw_pairs 1 (seed (RandomModule := mt19937) 0))))
  /\ (forall n s g,
        1 <= n ->
        let ps := fst (draw_pairs (Z.to_nat n)
                         (seed (RandomModule := mt19937) s)) in
        Z.of_nat (length ps) = n
        /\ Forall (fun p => in_unit (fst p) = true /\ in_unit (snd p) = true)
                  ps
        /\ hits ps
           = Z.of_nat (length (filter
               (fun p => ((fst p * fst p) + (snd p * snd p) <? 1)%float) ps))
        /\ Multiprocessing.calcInside_count (R := mt19937) n s g = hits ps
        /\ Interpreter.calcInside (R := mt19937) n s g
           = Binary64.ratio (hits ps) n)
  /\ (forall x y,
        ((x * x) + (y * y) =? 1)%float = true -> in_circle x y = false).
Proof.
  apply (C4_shared_generator (R := mt19937) 0 1
           (MersenneTwister.random_seed 5)).
  destruct mt19937_hits as [-> [_ ->]]. discriminate.
Defined.

(** C5, as amended. On a request with [totalSamples >= 1] and
    [workerCount >= 1], both below [2^53]: the threading example, once
    its joins have returned, evaluates exactly
    [4.0 * totalHits / totalSamples] in binary64, the totals being the sums
    of the threads' hit counts and sample counts, under every schedule of
    its threads.  The multiprocessing example prints [np.mean] of the
    workers' values [4.0 * hitCount / sampleCount]: the same number in
    exact arithmetic, but not the same float in general.  A value is
    printed when [workerCount <= totalSamples]; otherwise both examples
    stop with a division by zero. *)
Theorem C5_pooled_ratio {R : RandomModule}
    (total nt : Z) (g0 : gen) (worker_gen : Z -> gen) :
  1 <= total < 2 ^ 53 -> 1 <= nt < 2 ^ 53 ->
  exists p, Binary64.plan total nt = Ok p
    /\ (forall schedule r,
          Interpreter.outcome (Interpreter.threading schedule total nt g0)
          = Some r ->
          let rs := Interleaved.outcomes
                      (Interleaved.run schedule (Interleaved.boot p g0)) in
          r = Binary64.ratio (totalHits rs) (totalSamples rs))
    /\ Interpreter.outcome
         (Interpreter.threading (Interleaved.sequential p) total nt g0)
       <> None
    /\ (nt <= total ->
          (forall schedule r,
             Interpreter.outcome (Interpreter.threading schedule total nt g0)
             = Some r -> exists v, r = Ok v)
          /\ exists qs,
               Forall2 (fun q t =>
                          Binary64.ratio (hitCount t) (sampleCount t) = Ok q)
                       qs (task_results p)
               /\ Interpreter.multiprocessing total nt worker_gen
                  = Ok (Binary64.np_mean qs)
               /\ (Multiprocessing.np_mean (map ratio (task_results p))
                   == pooled (task_results p))%Q)
    /\ (total < nt ->
          (forall schedule r,
             Interpreter.outcome (Interpreter.threading schedule total nt g0)
             = Some r -> r = Raise ZeroDivisionError)
          /\ Interpreter.multiprocessing total nt worker_gen
             = Raise ZeroDivisionError).
Proof.
  intros Ht Hnt.
  set (samples := Z.quot total nt).
  assert (Hs0 : 0 <= samples)
    by (unfold samples; rewrite quot_floor by lia; apply Z.div_pos; lia).
  assert (Hsn : samples * nt <= total).
  { unfold samples. rewrite quot_floor by lia.
    rewrite Z.mul_comm. apply Z.mul_div_le. lia. }
  exists (worker_args samples nt).
  split; [apply plan_exact; lia|].
  assert (Hrun : forall schedule r,
            Interpreter.outcome (Interpreter.threading schedule total nt g0)
            = Some r ->
            let m := Interleaved.run schedule
                       (Interleaved.boot (worker_args samples nt) g0) in
            r = Binary64.ratio (totalHits (Interleaved.outcomes m))
                               (totalSamples (Interleaved.outcomes m))
            /\ 0 <= totalHits (Interleaved.outcomes m) <= samples * nt
            /\ totalSamples (Interleaved.outcomes m) = samples * nt).
  { intros schedule r Hr m.
    rewrite threading_report in Hr by lia. cbn [Interpreter.outcome] in Hr.
    fold samples in Hr. fold m in Hr.
    destruct (Interleaved.finished m); [|discriminate]. injection Hr as <-.
    destruct (outcomes_totals (worker_args samples nt) g0 schedule)
      as [HH [HS Hall]]. fold m in HH, HS, Hall.
    rewrite totalSamples_split in HS by lia.
    pose proof (totals_bounds _ Hall) as Hb.
    rewrite HH, HS in *. repeat split; lia. }
  split; [|split; [|split]].
  - intros schedule r Hr rs. now destruct (Hrun schedule r Hr) as [E _].
  - rewrite threading_report by lia. cbn [Interpreter.outcome].
    fold samples. rewrite sequential_finished. discriminate.
  - intros Hle.
    assert (Hs1 : 1 <= samples) by (apply samples_pos; lia).
    split.
    + intros schedule r Hr. destruct (Hrun schedule r Hr) as [-> [Hb HS]].
      rewrite HS. apply ratio_Ok; nia.
    + destruct (multiprocessing_Ok total nt worker_gen ltac:(lia) ltac:(lia))
        as [qs [Hqs Hmain]]. fold samples in Hqs.
      destruct (pool_map_ratios samples nt worker_gen ltac:(nia))
        as [qs' [Hqs' Hall]].
      rewrite Hqs in Hqs'. injection Hqs' as <-.
      exists qs. split; [exact Hall|]. split; [exact Hmain|].
      apply mean_of_ratios_pooled; lia.
  - intros Hgt.
    assert (Hs : samples = 0) by (apply samples_zero; lia).
    split.
    + intros schedule r Hr. destruct (Hrun schedule r Hr) as [-> [Hb HS]].
      rewrite HS, Hs. apply ratio_no_samples. rewrite Hs in Hb. lia.
    + apply multiprocessing_no_samples; lia.
Qed.

Lemma C5_pooled_ratio_witness :
  exists p, Binary64.plan 12 4 = Ok p
    /\ (forall schedule r,
          Interpreter.outcome
            (Interpreter.threading schedule 12 4 (Cyclic.position 7))
          = Some r ->
          let rs := Interleaved.outcomes
                      (Interleaved.run schedule
                         (Interleaved.boot p (Cyclic.position 7))) in
          r = Binary64.ratio (totalHits rs) (totalSamples rs))
    /\ Interpreter.outcome
         (Interpreter.threading (Interleaved.sequential p) 12 4
            (Cyclic.position 7))
       <> None
    /\ (4 <= 12 ->
          (forall schedule r,
             Interpreter.outcome
               (Interpreter.threading schedule 12 4 (Cyclic.position 7))
             = Some r -> exists v, r = Ok v)
          /\ exists qs,
               Forall2 (fun q t =>
                          Binary64.ratio (hitCount t) (sampleCount t) = Ok q)
                       qs (@task_results Cyclic.generator p)
               /\ Interpreter.multiprocessing 12 4 Cyclic.position
                  = Ok (Binary64.np_mean qs)
               /\ (Multiprocessing.np_mean
                     (map ratio (@task_results Cyclic.generator p))
                   == pooled (@task_results Cyclic.generator p))%Q)
    /\ (12 < 4 ->
          (forall schedule r,
             Interpreter.outcome
               (Interpreter.threading schedule 12 4 (Cyclic.position 7))
             = Some r -> r = Raise ZeroDivisionError)
          /\ Interpreter.multiprocessing 12 4 Cyclic.position
             = Raise ZeroDivisionError).
Proof.
  apply (C5_pooled_ratio 12 4 (Cyclic.position 7) Cyclic.position); lia.
Defined.

(** C5 as stated fails: for 1000 samples and 3 processes, run with
    Python's generator, the workers count 260, 260 and 257 hits out of
    333; the multiprocessing example prints the mean of the three ratios,
    [3.1111111111111107], which is not the binary64 value
    [3.111111111111111] of [4.0 * 777 / 999]. *)
Lemma C5_counterexample :
  map hitCount (task_results (R := mt19937) (worker_args 333 3))
  = [260; 260; 257]
  /\ Interpreter.multiprocessing (R := mt19937) 1000 3
       MersenneTwister.random_seed
     = Ok 3.1111111111111107%float
  /\ Binary64.ratio 777 999 = Ok 3.111111111111111%float
  /\ (3.1111111111111107 =? 3.111111111111111)%float = false.
Proof.
  split; [vm_compute; reflexivity|].
  split; [vm_compute; reflexivity|].
  split; vm_compute; reflexivity.
Qed.







(** C8, as amended. The threading example does not check its arguments
    and has no [InvalidArgument] error.  On a request with
    [totalSamples < 1] or [workerCount < 1], both of absolute value below
    [2^53]: if [workerCount = 0] it stops with a division by zero before
    any thread is started; otherwise the threads of [range(workerCount)]
    are started and joined, none of them draws a sample, and once they
    have returned it stops with a division by zero when
    [int(totalSamples / workerCount)] is [0], and prints a zero when it is
    not. *)
Theorem C8_no_validation {R : RandomModule} (total nt : Z) (g0 : gen) :
  total < 1 \/ nt < 1 ->
  Z.abs total < 2 ^ 53 -> Z.abs nt < 2 ^ 53 ->
  (nt = 0 ->
     forall schedule,
       Interpreter.threading schedule total nt g0
       = {| Interpreter.started := [];
            Interpreter.outcome := Some (Raise ZeroDivisionError) |})
  /\ (nt <> 0 ->
        (forall schedule,
           let r := Interpreter.threading schedule total nt g0 in
           Interpreter.started r = worker_args (Z.quot total nt) nt
           /\ length (Interpreter.started r) = Z.to_nat nt
           /\ Interleaved.inside
                (Interleaved.run schedule
                   (Interleaved.boot (Interpreter.started r) g0)) = 0
           /\ (forall o,
                 Interpreter.outcome r = Some o ->
                 (Z.quot total nt = 0 -> o = Raise ZeroDivisionError)
                 /\ (Z.quot total nt <> 0 ->
                       exists v, o = Ok v /\ (v =? 0)%float = true)))
        /\ Interpreter.outcome
             (Interpreter.threading
                (Interleaved.sequential (worker_args (Z.quot total nt) nt))
                total nt g0)
           <> None).
Proof.
  intros Hdom Ht Hn. split.
  - intros -> schedule. unfold Interpreter.threading.
    now rewrite int_div_zero.
  - intros Hnt.
    assert (Hidle : Z.quot total nt <= 0 \/ nt <= 0).
    { destruct (Z.le_gt_cases nt 0) as [Hle|Hgt]; [now right|left].
      apply quot_nonpos; lia. }
    pose proof (quot_mul_le total nt Hnt) as Hq.
    split.
    + intros schedule r. subst r.
      rewrite threading_report by lia.
      cbn [Interpreter.started Interpreter.outcome].
      rewrite (idle_inside _ _ g0 schedule Hidle).
      split; [reflexivity|]. split; [apply worker_args_length|].
      split; [reflexivity|].
      intros o Ho.
      destruct (Interleaved.finished _); [|discriminate]. injection Ho as <-.
      split.
      * intros ->. change (0 * nt) with 0. apply ratio_no_samples. lia.
      * intros Hs. apply ratio_no_hits. nia.
    + rewrite threading_report by lia. cbn [Interpreter.outcome].
      rewrite sequential_finished. discriminate.
Qed.

Lemma C8_no_validation_witness :
  (4 = 0 ->
     forall schedule,
       Interpreter.threading schedule (-12) 4 (Cyclic.position 0)
       = {| Interpreter.started := [];
            Interpreter.outcome := Some (Raise ZeroDivisionError) |})
  /\ (4 <> 0 ->
        (forall schedule,
           let r := Interpreter.threading schedule (-12) 4
                      (Cyclic.position 0) in
           Interpreter.started r = worker_args (Z.quot (-12) 4) 4
           /\ length (Interpreter.started r) = Z.to_nat 4
           /\ Interleaved.inside
                (Interleaved.run schedule
                   (Interleaved.boot (Interpreter.started r)
                      (Cyclic.position 0))) = 0
           /\ (forall o,
                 Interpreter.outcome r = Some o ->
                 (Z.quot (-12) 4 = 0 -> o = Raise ZeroDivisionError)
                 /\ (Z.quot (-12) 4 <> 0 ->
                       exists v, o = Ok v /\ (v =? 0)%float = true)))
        /\ Interpreter.outcome
             (Interpreter.threading
                (Interleaved.sequential (worker_args (Z.quot (-12) 4) 4))
                (-12) 4 (Cyclic.position 0))
           <> None).
Proof.
  apply (C8_no_validation (-12) 4 (Cyclic.position 0)).
  - left. lia.
  - vm_compute. reflexivity.
  - vm_compute. reflexivity.
Defined.

(** C8 as stated fails: on the request [totalSamples = -12],
    [workerCount = 4] four threads are started and joined and a value, the
    zero [-0.0], is printed; no error is raised. *)
Lemma C8_counterexample :
  let r := Interpreter.threading
             (Interleaved.sequential [(-3, 0); (-3, 1); (-3, 2); (-3, 3)])
             (-12) 4 (Cyclic.position 0) in
  Interpreter.started r = [(-3, 0); (-3, 1); (-3, 2); (-3, 3)]
  /\ Interpreter.outcome r = Some (Ok (-0)%float)
  /\ ~ (Interpreter.started r = []
        /\ exists e, Interpreter.outcome r = Some (Raise e)).
Proof.
  cbv zeta. split; [vm_compute; reflexivity|].
  split; [vm_compute; reflexivity|].
  intros [Hs _]. vm_compute in Hs. discriminate.
Qed.

(** C9. A task run with [n >= 1] samples produces a hit count between [0]
    and [n]: the counter starts at [0] (or, in the threading example, at
    the current value of the global) and grows by at most one per drawn
    pair.  In the threading example this holds for every thread under every
    schedule. *)
Theorem C9_hit_bounds {R : RandomModule}
    (n s : Z) (g0 : gen) (st : Threading.globals) :
  1 <= n ->
  0 <= Multiprocessing.calcInside_count n s g0 <= n
  /\ Threading.inside st
     <= Threading.inside (Threading.calcInside n s st)
     <= Threading.inside st + n
  /\ 0 <= hitCount (task_result (n, s)) <= sampleCount (task_result (n, s))
  /\ sampleCount (task_result (n, s)) = n
  /\ (forall (ranks : list Z) (schedule : list nat),
        Forall (fun r => 0 <= hitCount r <= sampleCount r /\ sampleCount r = n)
               (Interleaved.outcomes
                  (Interleaved.run schedule
                     (Interleaved.boot (map (fun i => (n, i)) ranks) g0)))).
Proof.
  intros Hn.
  pose proof (sample_loop_invariant (Z.to_nat n) (seed s) 0) as Hmp.
  pose proof (sample_loop_invariant (Z.to_nat n) (seed s) (Threading.inside st))
    as Hth.
  pose proof (worker_hits_bounds n s) as Hw.
  unfold Multiprocessing.calcInside_count, Threading.calcInside.
  destruct (sample_loop (Z.to_nat n) (seed s) (Threading.inside st)) as [g c].
  cbn [task_result hitCount sampleCount fst snd Threading.inside] in *.
  rewrite Z2Nat.id in * by lia.
  repeat split; try lia.
  intros ranks schedule.
  destruct (run_bounds (map (fun i => (n, i)) ranks) g0 schedule)
    as [Hargs [Hall _]].
  unfold Interleaved.outcomes. apply Forall_map. cbn [hitCount sampleCount].
  apply Forall_forall. intros t Ht.
  rewrite Forall_forall in Hall. specialize (Hall t Ht).
  assert (Hnt : Interleaved.nsamples t = n).
  { apply (in_map (fun t => (Interleaved.nsamples t, Interleaved.rank t))) in Ht.
    rewrite Hargs in Ht. apply in_map_iff in Ht as [i [Ei _]].
    now injection Ei. }
  rewrite Hnt in *. rewrite Z2Nat.id in * by lia. lia.
Qed.

Lemma C9_hit_bounds_witness :
  0 <= Multiprocessing.calcInside_count 4 1 (Cyclic.position 7) <= 4
  /\ Threading.inside (Cyclic.start 7)
     <= Threading.inside (Threading.calcInside 4 1 (Cyclic.start 7))
     <= Threading.inside (Cyclic.start 7) + 4
  /\ 0 <= hitCount (@task_result Cyclic.generator (4, 1))
       <= sampleCount (@task_result Cyclic.generator (4, 1))
  /\ sampleCount (@task_result Cyclic.generator (4, 1)) = 4
  /\ (forall (ranks : list Z) (schedule : list nat),
        Forall (fun r => 0 <= hitCount r <= sampleCount r /\ sampleCount r = 4)
               (Interleaved.outcomes
                  (Interleaved.run schedule
                     (Interleaved.boot (map (fun i => (4, i)) ranks)
                                       (Cyclic.position 7))))).
Proof.
  apply (C9_hit_bounds 4 1 (Cyclic.position 7) (Cyclic.start 7)). lia.
Defined.

(** C10, as amended. In the multiprocessing example every worker gets the
    same count [nsamples = int(totalSamples / processes)].  The value it
    prints is [np.mean] of the workers' ratios; the value the threading
    example prints for the same request, when its threads run one after
    the other, is the pooled ratio of the same hit counts.  The two are
    the same number in exact arithmetic, and as summaries of arbitrary
    per-worker outcomes the mean of the ratios and the pooled ratio agree
    for all hit counts exactly when all sample counts are equal; the
    binary64 values printed can differ. *)
Theorem C10_mean_of_ratios {R : RandomModule}
    (total processes : Z) (g0 : gen) (worker_gen : Z -> gen) (ns : list Z) :
  1 <= processes <= total -> total < 2 ^ 53 ->
  ns <> [] -> Forall (fun n => 1 <= n) ns ->
  (exists p qs v,
      Binary64.plan total processes = Ok p
      /\ (forall c, In c (sampleCounts p) -> c = Z.quot total processes)
      /\ Forall2 (fun q t =>
                    Binary64.ratio (hitCount t) (sampleCount t) = Ok q)
                 qs (task_results p)
      /\ Interpreter.multiprocessing total processes worker_gen
         = Ok (Binary64.np_mean qs)
      /\ Interpreter.outcome
           (Interpreter.threading (Interleaved.sequential p)
              total processes g0) = Some (Ok v)
      /\ Binary64.ratio (totalHits (task_results p))
                        (totalSamples (task_results p)) = Ok v
      /\ (Multiprocessing.np_mean (map ratio (task_results p))
          == pooled (task_results p))%Q)
  /\ (schemes_agree ns <-> all_equal ns).
Proof.
  intros Hp Ht Hne Hpos. split.
  - set (samples := Z.quot total processes).
    pose proof (samples_pos total processes Hp) as Hs. fold samples in Hs.
    assert (Hsn : samples * processes <= total).
    { unfold samples. rewrite quot_floor by lia.
      rewrite Z.mul_comm. apply Z.mul_div_le. lia. }
    set (p := worker_args samples processes).
    destruct (multiprocessing_Ok total processes worker_gen Hp Ht)
      as [qs [Hqs Hmain]]. fold samples in Hqs.
    destruct (pool_map_ratios samples processes worker_gen ltac:(nia))
      as [qs' [Hqs' Hall]].
    rewrite Hqs in Hqs'. injection Hqs' as <-.
    assert (Hbounds : 0 <= totalHits (task_results p) <= samples * processes).
    { rewrite <- (totalSamples_split samples processes) by lia.
      apply totalHits_bounds. }
    destruct (ratio_Ok (totalHits (task_results p)) (samples * processes))
      as [v Hv]; [lia|nia|].
    exists p, qs, v.
    split; [apply plan_exact; lia|].
    split.
    { intros c Hc. unfold p in Hc. rewrite worker_args_counts in Hc.
      now apply repeat_spec in Hc. }
    split; [exact Hall|]. split; [exact Hmain|].
    split.
    { rewrite threading_report by lia. cbn [Interpreter.outcome].
      fold samples. fold p.
      now rewrite sequential_finished, sequential_inside, Hv. }
    split.
    { unfold p at 2. rewrite totalSamples_split by lia. exact Hv. }
    apply mean_of_ratios_pooled; lia.
  - split.
    + now apply agree_equal_counts.
    + now apply equal_counts_agree.
Qed.

Lemma C10_mean_of_ratios_witness :
  (exists p qs v,
      Binary64.plan 1000 3 = Ok p
      /\ (forall c, In c (sampleCounts p) -> c = Z.quot 1000 3)
      /\ Forall2 (fun q t =>
                    Binary64.ratio (hitCount t) (sampleCount t) = Ok q)
                 qs (task_results (R := mt19937) p)
      /\ Interpreter.multiprocessing (R := mt19937) 1000 3
           MersenneTwister.random_seed
         = Ok (Binary64.np_mean qs)
      /\ Interpreter.outcome
           (Interpreter.threading (R := mt19937) (Interleaved.sequential p)
              1000 3 (MersenneTwister.random_seed 0)) = Some (Ok v)
      /\ Binary64.ratio (totalHits (task_results (R := mt19937) p))
                        (totalSamples (task_results (R := mt19937) p)) = Ok v
      /\ (Multiprocessing.np_mean (map ratio (task_results (R := mt19937) p))
          == pooled (task_results (R := mt19937) p))%Q)
  /\ (schemes_agree [333; 333; 333] <-> all_equal [333; 333; 333]).
Proof.
  apply (C10_mean_of_ratios (R := mt19937) 1000 3
           (MersenneTwister.random_seed 0) MersenneTwister.random_seed
           [333; 333; 333]).
  - lia.
  - lia.
  - discriminate.
  - repeat constructor; lia.
Defined.

(** C10 as stated fails for the values printed: for 1000 samples and 3
    processes, run with Python's generator, the workers count 260, 260
    and 257 hits out of 333; the multiprocessing example prints
    [3.1111111111111107] and the threading example, its threads running
    one after the other, prints [3.111111111111111]. *)
Lemma C10_counterexample :
  map hitCount (task_results (R := mt19937) (worker_args 333 3))
  = [260; 260; 257]
  /\ Interpreter.multiprocessing (R := mt19937) 1000 3
       MersenneTwister.random_seed
     = Ok 3.1111111111111107%float
  /\ Interpreter.outcome
       (Interpreter.threading (R := mt19937)
          (Interleaved.sequential (worker_args 333 3)) 1000 3
          (MersenneTwister.random_seed 0))
     = Some (Ok 3.111111111111111%float)
  /\ (3.1111111111111107 =? 3.111111111111111)%float = false.
Proof.
  split; [vm_compute; reflexivity|].
  split; [vm_compute; reflexivity|].
  split; vm_compute; reflexivity.
Qed.

(* ================================================================== *)
(** * Further properties of the two estimators *)
(* ================================================================== *)

(** X1. For every worker count from 1 to 4096, the interpreter's
    [int(12e6/nt)], a binary64 division followed by a truncation, is the
    exact truncated quotient of 12000000 by [nt]: the rounding of the
    division never moves the result across an integer. *)
Theorem X1_samples_binary64 (nt : Z) :
  1 <= nt <= 4096 ->
  Binary64.samples_binary64 nt = Some (Z.quot 12000000 nt)
  /\ int_div 12000000 nt = Ok (Z.quot 12000000 nt).
Proof.
  intros Hnt. split; [|apply int_div_pos; lia].
  pose proof samples_binary64_agrees as Hall.
  rewrite forallb_forall in Hall.
  assert (Hin : In nt (map Z.of_nat (seq 1 4096))).
  { apply in_map_iff. exists (Z.to_nat nt). split; [lia|].
    apply in_seq. lia. }
  specialize (Hall nt Hin). unfold Binary64.agrees in Hall.
  rewrite int_div_pos in Hall by lia.
  destruct (Binary64.samples_binary64 nt) as [a|]; [|discriminate].
  apply Z.eqb_eq in Hall. now subst.
Qed.

Lemma X1_samples_binary64_witness :
  Binary64.samples_binary64 7 = Some (Z.quot 12000000 7)
  /\ int_div 12000000 7 = Ok (Z.quot 12000000 7).
Proof. apply (X1_samples_binary64 7). lia. Defined.

Section LoopFacts.

Context {R : RandomModule}.

Lemma sample_loop_add (n m : nat) :
  forall (g : gen) (c : Z),
    sample_loop (n + m) g c
    = sample_loop m (fst (sample_loop n g c)) (snd (sample_loop n g c)).
Proof.
  induction n as [|k IH]; intros g c; [reflexivity|].
  cbn [Nat.add sample_loop].
  destruct (random g) as [x g1]. destruct (random g1) as [y g2].
  destruct (in_circle x y); apply IH.
Qed.

End LoopFacts.

(** X2. The sampling loop composes: [n + m] iterations are [n] iterations
    followed by [m] more from the generator state and counter the first
    [n] left behind.  Hence, from one seed, asking for [m] more samples
    keeps the hits already found and adds between [0] and [m]. *)
Theorem X2_loop_composes {R : RandomModule} (n m s : Z) (g : gen) (c : Z) :
  0 <= n -> 0 <= m ->
  sample_loop (Z.to_nat (n + m)) g c
  = sample_loop (Z.to_nat m) (fst (sample_loop (Z.to_nat n) g c))
                (snd (sample_loop (Z.to_nat n) g c))
  /\ worker_hits n s <= worker_hits (n + m) s <= worker_hits n s + m.
Proof.
  intros Hn Hm. rewrite Z2Nat.inj_add by lia. split.
  - apply sample_loop_add.
  - pose proof (sample_loop_add (Z.to_nat n) (Z.to_nat m) (seed s) 0) as E.
    rewrite !sample_loop_draws in E. cbn [fst snd] in E.
    injection E as _ E.
    pose proof (hits_bounds
                  (fst (draw_pairs (Z.to_nat m)
                          (snd (draw_pairs (Z.to_nat n) (seed s)))))) as Hb.
    rewrite draw_pairs_length in Hb.
    unfold worker_hits. rewrite Z2Nat.inj_add by lia. lia.
Qed.

Lemma X2_loop_composes_witness :
  sample_loop (Z.to_nat (2 + 3)) (Cyclic.position 1) 0
  = sample_loop (Z.to_nat 3)
      (fst (sample_loop (Z.to_nat 2) (Cyclic.position 1) 0))
      (snd (sample_loop (Z.to_nat 2) (Cyclic.position 1) 0))
  /\ @worker_hits Cyclic.generator 2 1
     <= @worker_hits Cyclic.generator (2 + 3) 1
     <= @worker_hits Cyclic.generator 2 1 + 3.
Proof. apply (X2_loop_composes 2 3 1 (Cyclic.position 1) 0); lia. Defined.







(* ------------------------------------------------------------------ *)
(** ** The threads, schedule by schedule *)
(* ------------------------------------------------------------------ *)

Section ScheduleFacts.

Context {R : RandomModule}.

Import Interleaved.

Lemma thread_step_delta (g g' : gen) (t t' : thread) (d : Z) :
  thread_step g t = (g', t', d) -> 0 <= d <= 1.
Proof.
  unfold thread_step.
  destruct (at_ t) as [|k|k x|k x y|]; try destruct (random g);
    try destruct (in_circle x y); intros E; injection E as <- <- <-; lia.
Qed.

Lemma step_inside (m : machine) (i : nat) :
  inside m <= inside (step m i) <= inside m + 1.
Proof.
  unfold step. destruct (nth_error (threads m) i) as [t|]; [|lia].
  destruct (thread_step (generator m) t) as [[g t'] d] eqn:E.
  pose proof (thread_step_delta _ _ _ _ _ E). cbn [inside]. lia.
Qed.

Lemma run_inside (schedule : list nat) :
  forall m : machine,
    inside m <= inside (run schedule m)
    <= inside m + Z.of_nat (length schedule).
Proof.
  induction schedule as [|i sch IH]; intros m.
  - cbn. lia.
  - rewrite run_cons. specialize (IH (step m i)).
    pose proof (step_inside m i). cbn [length]. lia.
Qed.

Lemma thread_step_steps_left (g g' : gen) (t t' : thread) (d : Z) :
  thread_step g t = (g', t', d) -> steps_left t' = Nat.pred (steps_left t).
Proof.
  unfold thread_step, steps_left.
  destruct t as [n r p a]. cbn [at_ nsamples].
  destruct p as [|k|k x|k x y|]; try destruct (random g);
    try destruct (in_circle x y); intros E; injection E as <- <- <-;
    cbn [at_ move nsamples];
    try (destruct (Z.to_nat n)); try (destruct k); cbn [loop_head]; lia.
Qed.

Lemma nth_error_replace_other (i j : nat) (t : thread) :
  i <> j -> forall l, nth_error (replace i t l) j = nth_error l j.
Proof.
  revert j. induction i as [|i IH]; intros [|j] Hij [|u l];
    cbn [replace nth_error]; try reflexivity; try contradiction.
  apply IH. lia.
Qed.

Lemma step_steps_left (m : machine) (i j : nat) (t : thread) :
  nth_error (threads m) j = Some t ->
  exists t', nth_error (threads (step m i)) j = Some t'
    /\ steps_left t' = if Nat.eq_dec i j then Nat.pred (steps_left t)
                       else steps_left t.
Proof.
  intros Hj. unfold step.
  destruct (Nat.eq_dec i j) as [->|Hij].
  - rewrite Hj.
    destruct (thread_step (generator m) t) as [[g t'] d] eqn:E.
    exists t'. cbn [threads]. split.
    + eapply nth_error_replace, Hj.
    + eapply thread_step_steps_left, E.
  - exists t. split; [|reflexivity].
    destruct (nth_error (threads m) i) as [u|]; [|exact Hj].
    destruct (thread_step (generator m) u) as [[g u'] d].
    cbn [threads]. now rewrite nth_error_replace_other.
Qed.

Lemma run_steps_left (schedule : list nat) :
  forall (m : machine) (j : nat) (t : thread),
    nth_error (threads m) j = Some t ->
    exists t', nth_error (threads (run schedule m)) j = Some t'
      /\ steps_left t' = (steps_left t - count_occ Nat.eq_dec schedule j)%nat.
Proof.
  induction schedule as [|i sch IH]; intros m j t Hj.
  - exists t. split; [exact Hj|cbn; lia].
  - rewrite run_cons.
    destruct (step_steps_left m i j t Hj) as [t1 [H1 E1]].
    destruct (IH (step m i) j t1 H1) as [t' [H' E']].
    exists t'. split; [exact H'|].
    rewrite E', E1. cbn [count_occ].
    destruct (Nat.eq_dec i j); lia.
Qed.

Lemma finished_steps_left (m : machine) :
  finished m = true <-> Forall (fun t => steps_left t = 0%nat) (threads m).
Proof.
  unfold finished. rewrite forallb_forall, Forall_forall.
  split; intros H t Ht; specialize (H t Ht); unfold steps_left in *;
    destruct (at_ t); try reflexivity; try discriminate; lia.
Qed.

Lemma run_length (schedule : list nat) (m : machine) :
  length (threads (run schedule m)) = length (threads m).
Proof.
  pose proof (run_args schedule m) as E.
  apply (f_equal (@length (Z * Z))) in E. now rewrite !length_map in E.
Qed.

End ScheduleFacts.

(** X5. Under every schedule the shared counter [inside] never decreases,
    and a statement adds at most one to it: after any further statements
    [s2] the counter lies between its value before them and that value plus
    the number of statements. *)
Theorem X5_counter_monotone {R : RandomModule}
    (s1 s2 : list nat) (m : Interleaved.machine) :
  Interleaved.inside (Interleaved.run s1 m)
  <= Interleaved.inside (Interleaved.run (s1 ++ s2) m)
  <= Interleaved.inside (Interleaved.run s1 m) + Z.of_nat (length s2).
Proof. rewrite run_app. apply run_inside. Qed.

Lemma finished_iff_counts {R : RandomModule}
    (args : list (Z * Z)) (g0 : gen) (schedule : list nat) :
  Interleaved.finished (Interleaved.run schedule (Interleaved.boot args g0))
  = true
  <-> (forall i a, nth_error args i = Some a ->
         (1 + 3 * Z.to_nat (fst a) <= count_occ Nat.eq_dec schedule i)%nat).
Proof.
  rewrite finished_steps_left, Forall_forall. split.
  - intros H i a Ha.
    assert (Hi : nth_error (Interleaved.threads (Interleaved.boot args g0)) i
                 = Some (Interleaved.fresh a))
      by (cbn [Interleaved.boot Interleaved.threads];
          now rewrite nth_error_map, Ha).
    destruct (run_steps_left schedule _ i _ Hi) as [t' [Ht' E]].
    specialize (H t' (nth_error_In _ _ Ht')).
    change (Interleaved.steps_left (Interleaved.fresh a))
      with (1 + 3 * Z.to_nat (fst a))%nat in E.
    lia.
  - intros H t' Ht'.
    apply In_nth_error in Ht' as [i Hi].
    assert (Hlt : (i < length args)%nat).
    { assert (Hl : (i < length (Interleaved.threads
                     (Interleaved.run schedule (Interleaved.boot args g0))))%nat)
        by (apply nth_error_Some; congruence).
      rewrite run_length in Hl.
      cbn [Interleaved.boot Interleaved.threads] in Hl.
      now rewrite length_map in Hl. }
    destruct (nth_error args i) as [a|] eqn:Ha;
      [|apply nth_error_None in Ha; lia].
    assert (Hi0 : nth_error (Interleaved.threads (Interleaved.boot args g0)) i
                  = Some (Interleaved.fresh a))
      by (cbn [Interleaved.boot Interleaved.threads];
          now rewrite nth_error_map, Ha).
    destruct (run_steps_left schedule _ i _ Hi0) as [t'' [Ht'' E]].
    rewrite Hi in Ht''. injection Ht'' as <-.
    specialize (H i a Ha).
    change (Interleaved.steps_left (Interleaved.fresh a))
      with (1 + 3 * Z.to_nat (fst a))%nat in E.
    lia.
Qed.

Section Reproducibility.

Context {R : RandomModule}.

Import Interleaved.

Lemma run_sequential_threads (args : list (Z * Z)) :
  forall (done : list thread) (m : machine),
    threads m = done ++ map fresh args ->
    threads (run (sequential_from (length done) args) m)
    = done ++ map (fun a => returned a (worker_hits (fst a) (snd a))) args.
Proof.
  induction args as [|a args IH]; intros done m Hts.
  - cbn. now rewrite Hts.
  - cbn [sequential_from map] in *. rewrite run_app.
    assert (Hn : nth_error (threads m) (length done) = Some (fresh a)).
    { rewrite Hts, nth_error_app2, Nat.sub_diag by lia. reflexivity. }
    pose proof (run_solo (length done) m (fresh a) Hn eq_refl) as Hsolo.
    cbv zeta in Hsolo. cbn [fresh nsamples rank] in Hsolo.
    rewrite threading_calcInside_inside in Hsolo.
    cbn [Threading.inside] in Hsolo.
    replace (move {| nsamples := fst a; rank := snd a; at_ := AtSeed;
                     added := 0 |} Finished
                  (inside m + worker_hits (fst a) (snd a) - inside m))
      with (returned a (worker_hits (fst a) (snd a))) in Hsolo
      by (unfold move, returned; cbn [nsamples rank added]; f_equal; lia).
    rewrite Hts, replace_middle in Hsolo.
    set (fin := returned a (worker_hits (fst a) (snd a))) in *.
    set (m1 := run (solo (length done) (fst a)) m) in *.
    assert (Hts1 : threads m1 = (done ++ [fin]) ++ map fresh args)
      by (rewrite Hsolo; cbn [threads]; now rewrite <- app_assoc).
    specialize (IH (done ++ [fin]) m1 Hts1).
    rewrite length_app, Nat.add_1_r in IH.
    rewrite IH, <- app_assoc. reflexivity.
Qed.

End Reproducibility.

(** X7. When no thread is preempted, the threading example is
    reproducible: all threads finish, the thread created with
    [(nsamples, rank)] has made exactly the hits of the first [nsamples]
    pairs of the seed-[rank] sequence, and the global counter ends at the
    sum of these, whatever state the generator was in at start-up. *)
Theorem X7_unpreempted_reproducible {R : RandomModule}
    (args : list (Z * Z)) (g0 : gen) :
  let m := Interleaved.run (Interleaved.sequential args)
                           (Interleaved.boot args g0) in
  Interleaved.finished m = true
  /\ Interleaved.outcomes m = task_results args
  /\ Interleaved.inside m = totalHits (task_results args).
Proof.
  intros m.
  assert (Hts : Interleaved.threads m
                = map (fun a => Interleaved.returned a
                                  (worker_hits (fst a) (snd a))) args)
    by (apply (run_sequential_threads args [] (Interleaved.boot args g0));
        reflexivity).
  repeat split.
  - unfold Interleaved.finished. rewrite Hts. apply forallb_forall.
    intros t Ht. apply in_map_iff in Ht as [a [<- _]]. reflexivity.
  - unfold Interleaved.outcomes, task_results. rewrite Hts, map_map.
    apply map_ext. intros a. reflexivity.
  - destruct (run_sequential args g0) as [_ [Hin _]]. fold m in Hin.
    rewrite Hin, run_threads_inside. cbn [Threading.inside]. lia.
Qed.

Section Preemption.

Context {R : RandomModule}.

Import Interleaved.

(** Two threads with one sample each; the second one seeds and finishes
    between the seeding and the first draw of the first one.  Both pairs
    then come from the sequence of the second seed. *)
Lemma run_preempted (a b : Z) (g0 : gen) :
  inside (run ([0%nat] ++ solo 1 1 ++ [0; 0; 0]%nat)
              (boot [(1, a); (1, b)] g0))
  = worker_hits 2 b.
Proof.
  rewrite !run_app.
  set (t0 := move (fresh (1, a)) (AtDrawX 0) 0).
  set (ma := {| generator := seed a; inside := 0;
                threads := [t0; fresh (1, b)] |}).
  assert (Ea : run [0%nat] (boot [(1, a); (1, b)] g0) = ma) by reflexivity.
  rewrite Ea.
  pose proof (run_solo 1 ma (fresh (1, b)) eq_refl eq_refl) as Eb.
  cbv zeta in Eb. cbn [fresh nsamples rank fst snd] in Eb. rewrite Eb.
  set (st := Threading.calcInside 1 b
               {| Threading.random_state := generator ma;
                  Threading.inside := inside ma |}).
  set (mb := {| generator := Threading.random_state st;
                inside := Threading.inside st;
                threads := _ |}).
  assert (H0 : nth_error (threads mb) 0 = Some t0) by reflexivity.
  rewrite (run_iteration 0 0 mb t0 H0 eq_refl).
  pose proof (sample_loop_add 1 1 (seed b) 0) as Eadd.
  rewrite (sample_loop_draws (1 + 1)) in Eadd.
  unfold worker_hits. change (Z.to_nat 2) with (1 + 1)%nat.
  assert (Est : st = {| Threading.random_state := fst (sample_loop 1 (seed b) 0);
                        Threading.inside := snd (sample_loop 1 (seed b) 0) |}).
  { unfold st, Threading.calcInside. cbn [Threading.inside ma generator inside].
    change (Z.to_nat 1) with 1%nat.
    now destruct (sample_loop 1 (seed b) 0). }
  cbn [generator inside mb]. rewrite Est.
  cbn [Threading.random_state Threading.inside].
  set (G := fst (sample_loop 1 (seed b) 0)) in *.
  set (C := snd (sample_loop 1 (seed b) 0)) in *.
  cbn [sample_loop] in Eadd.
  destruct (random G) as [x g1]. destruct (random g1) as [y g2].
  cbn [inside].
  assert (E2 : 0 + hits (fst (draw_pairs (1 + 1) (seed b)))
               = snd (if in_circle x y then (g2, C + 1) else (g2, C)))
    by (rewrite <- Eadd; reflexivity).
  destruct (in_circle x y); cbn [snd] in E2; lia.
Qed.

End Preemption.

(** X8. The estimate of the threading example depends on the schedule.
    Take two threads with one sample each and seeds [a] and [b].  Without
    preemption the counter ends at the hits of the first pair of each
    seed.  If the second thread seeds and finishes between the seeding and
    the first draw of the first one, both pairs come from the sequence of
    seed [b], and the counter ends at the hits of its first two pairs.
    Both schedules let the joins return; when the two counts differ, so do
    the printed estimates. *)
Theorem X8_schedule_dependence {R : RandomModule} (a b : Z) (g0 : gen) :
  worker_hits 1 a + worker_hits 1 b <> worker_hits 2 b ->
  let args := [(1, a); (1, b)] in
  let m1 := Interleaved.run (Interleaved.sequential args)
                            (Interleaved.boot args g0) in
  let m2 := Interleaved.run [0; 1; 1; 1; 1; 0; 0; 0]%nat
                            (Interleaved.boot args g0) in
  Interleaved.finished m1 = true
  /\ Interleaved.finished m2 = true
  /\ Interleaved.inside m1 = worker_hits 1 a + worker_hits 1 b
  /\ Interleaved.inside m2 = worker_hits 2 b
  /\ exists v1 v2,
       Threading.estimate (Interleaved.inside m1) 1 2 = Ok v1
       /\ Threading.estimate (Interleaved.inside m2) 1 2 = Ok v2
       /\ ~ (v1 == v2)%Q.
Proof.
  intros Hne args m1 m2.
  assert (H1 : Interleaved.inside m1 = worker_hits 1 a + worker_hits 1 b).
  { destruct (run_sequential args g0) as [_ [Hin _]]. fold m1 in Hin.
    rewrite Hin, run_threads_inside. cbn [Threading.inside].
    unfold totalHits, task_results, args.
    cbn [map sum fold_right hitCount task_result fst snd]. lia. }
  assert (H2 : Interleaved.inside m2 = worker_hits 2 b)
    by apply (run_preempted a b g0).
  split; [|split]; [| |split; [exact H1|split; [exact H2|]]].
  - apply finished_iff_counts. intros [|[|i]] c Hc; cbn in Hc;
      [injection Hc as <-; vm_compute; lia ..|destruct i; discriminate].
  - apply finished_iff_counts. intros [|[|i]] c Hc; cbn in Hc;
      [injection Hc as <-; vm_compute; lia ..|destruct i; discriminate].
  - rewrite H1, H2. unfold Threading.estimate.
    rewrite !true_div_ok by (intros E; discriminate E).
    do 2 eexists. split; [reflexivity|]. split; [reflexivity|].
    intros E. apply Hne.
    apply inject_Z_injective.
    set (x := inject_Z (worker_hits 1 a + worker_hits 1 b)) in *.
    set (y := inject_Z (worker_hits 2 b)) in *.
    transitivity ((4 * x / (1 * inject_Z 1 * inject_Z 2)) * (2 # 4))%Q;
      [field|].
    rewrite E. field.
Qed.

Lemma X8_schedule_dependence_witness :
  let args := [(1, 0); (1, 4)] in
  let m1 := Interleaved.run (Interleaved.sequential args)
                            (Interleaved.boot args (Cyclic.position 7)) in
  let m2 := Interleaved.run [0; 1; 1; 1; 1; 0; 0; 0]%nat
                            (Interleaved.boot args (Cyclic.position 7)) in
  Interleaved.finished m1 = true
  /\ Interleaved.finished m2 = true
  /\ Interleaved.inside m1
     = @worker_hits Cyclic.generator 1 0 + @worker_hits Cyclic.generator 1 4
  /\ Interleaved.inside m2 = @worker_hits Cyclic.generator 2 4
  /\ exists v1 v2,
       Threading.estimate (Interleaved.inside m1) 1 2 = Ok v1
       /\ Threading.estimate (Interleaved.inside m2) 1 2 = Ok v2
       /\ ~ (v1 == v2)%Q.
Proof.
  apply (X8_schedule_dependence 0 4 (Cyclic.position 7)).
  vm_compute. discriminate.
Defined.

(* ================================================================== *)
(** * The mpi4py examples: facts *)
(* ================================================================== *)

Lemma range_add (a b : Z) :
  0 <= a -> 0 <= b -> range (a + b) = range a ++ map (fun i => a + i) (range b).
Proof.
  intros Ha Hb. unfold range.
  rewrite Z2Nat.inj_add, seq_app, map_app by lia. f_equal.
  cbn [Nat.add]. rewrite map_map.
  apply nth_error_ext. intros i.
  rewrite !nth_error_map, !nth_error_seq.
  destruct (Nat.ltb i (Z.to_nat b)); cbn [option_map]; [f_equal; lia|reflexivity].
Qed.

Lemma range_succ (k : Z) : 0 <= k -> range (k + 1) = range k ++ [k].
Proof.
  intros Hk. rewrite range_add by lia. f_equal.
  change (range 1) with [0]. cbn [map]. f_equal. lia.
Qed.

Lemma range_In (n i : Z) : In i (range n) <-> 0 <= i < n.
Proof.
  unfold range. rewrite in_map_iff. split.
  - intros [k [<- Hk]]. apply in_seq in Hk. lia.
  - intros Hi. exists (Z.to_nat i). split; [lia|]. apply in_seq. lia.
Qed.

(** The integers [a + 1, ..., a + n] tile: the blocks of [n] consecutive
    integers of the ranks [0 .. size-1], put end to end, are the integers
    [1 .. n * size]. *)
Lemma blocks_tile (n : Z) (size : nat) :
  0 <= n ->
  concat (map (fun r => map (fun i => r * n + 1 + i) (range n))
              (range (Z.of_nat size)))
  = map (fun j => j + 1) (range (n * Z.of_nat size)).
Proof.
  intros Hn. induction size as [|k IH].
  - replace (n * Z.of_nat 0) with 0 by lia. reflexivity.
  - replace (Z.of_nat (S k)) with (Z.of_nat k + 1) by lia.
    rewrite range_succ, map_app, concat_app, IH by lia.
    replace (n * (Z.of_nat k + 1)) with (n * Z.of_nat k + n) by lia.
    rewrite range_add, map_app by lia. f_equal.
    cbn [map concat]. rewrite app_nil_r, map_map.
    apply map_ext. intros i. lia.
Qed.

Lemma Forall2_concat (A B : Type) (P : A -> B -> Prop)
    (ls : list (list A)) (ms : list (list B)) :
  Forall2 (Forall2 P) ls ms -> Forall2 P (concat ls) (concat ms).
Proof.
  induction 1 as [|l m ls ms Hlm _ IH]; [constructor|].
  cbn [concat]. now apply Forall2_app.
Qed.

Lemma Forall2_nth (A B : Type) (P : A -> B -> Prop) (l : list A) (m : list B) :
  Forall2 P l m ->
  forall i b, nth_error m i = Some b ->
    exists a, nth_error l i = Some a /\ P a b.
Proof.
  induction 1 as [|a0 b0 l m H0 _ IH]; intros [|i] b Hb;
    try discriminate Hb.
  - injection Hb as <-. now exists a0.
  - now apply IH.
Qed.

Lemma set_last_snoc (l : list Q) (a v : Q) :
  Numpy.set_last (l ++ [a]) v = l ++ [v].
Proof.
  unfold Numpy.set_last.
  destruct (l ++ [a]) as [|x t] eqn:E.
  - now destruct l.
  - rewrite <- E, removelast_last. reflexivity.
Qed.

Lemma set_last_length (l : list Q) (v : Q) :
  length (Numpy.set_last l v) = length l.
Proof.
  destruct l as [|x t] using rev_ind; [reflexivity|].
  rewrite set_last_snoc, !length_app. reflexivity.
Qed.

Lemma linspace_length (start stop : Q) (num : Z) :
  0 <= num ->
  exists l, Numpy.linspace start stop num = Ok l
            /\ length l = Z.to_nat num.
Proof.
  intros Hn. unfold Numpy.linspace.
  destruct (Z.ltb_spec num 0) as [|_]; [lia|].
  eexists. split; [reflexivity|].
  assert (Hlen : forall f g : Q -> Q,
             length (map f (map g (map inject_Z (range num)))) = Z.to_nat num)
    by (intros; now rewrite !length_map, range_length).
  destruct (1 <? num); [rewrite set_last_length|];
    destruct (0 <? num - 1); try destruct (Qeq_bool _ _); apply Hlen.
Qed.

(** With a unit step the samples are the integers after [start]. *)
Lemma unit_steps (a : Z) (step : Q) (l : list Z) :
  (step == 1)%Q ->
  Forall2 Qeq
    (map (fun v => v + inject_Z a)%Q
         (map (fun v => v * step)%Q (map inject_Z l)))
    (map (fun i => inject_Z (a + i)) l).
Proof.
  intros Hs. induction l as [|i l IH]; [constructor|].
  cbn [map]. constructor; [|exact IH].
  rewrite Hs, inject_Z_plus. ring.
Qed.

Lemma sendbuf_block (n rank : Z) :
  1 <= n ->
  exists l, MPI.sendbuf n rank = Ok l
    /\ Forall2 Qeq l (map (fun i => inject_Z (rank * n + 1 + i)) (range n)).
Proof.
  intros Hn. unfold MPI.sendbuf, Numpy.linspace.
  destruct (Z.ltb_spec n 0) as [|_]; [lia|].
  eexists. split; [reflexivity|].
  destruct (Z.ltb_spec 0 (n - 1)) as [Hdiv|Hdiv].
  - destruct (Z.ltb_spec 1 n) as [_|]; [|lia].
    set (delta := (inject_Z ((rank + 1) * n) - inject_Z (rank * n + 1))%Q).
    assert (Hdelta : (delta == inject_Z (n - 1))%Q).
    { unfold delta, Qminus. rewrite <- inject_Z_opp, <- inject_Z_plus.
      replace ((rank + 1) * n + - (rank * n + 1)) with (n - 1) by lia.
      reflexivity. }
    assert (Hstep : (delta / inject_Z (n - 1) == 1)%Q).
    { rewrite Hdelta. field. apply inject_Z_nonzero. lia. }
    assert (Hnz : Qeq_bool (delta / inject_Z (n - 1)) 0 = false).
    { destruct (Qeq_bool _ 0) eqn:E; [|reflexivity].
      apply Qeq_bool_iff in E. rewrite Hstep in E. discriminate E. }
    rewrite Hnz.
    replace n with ((n - 1) + 1) at 1 3 by lia.
    rewrite range_succ, !map_app by lia. cbn [map].
    rewrite set_last_snoc. apply Forall2_app.
    + now apply unit_steps.
    + constructor; [|constructor].
      replace (rank * n + 1 + (n - 1)) with ((rank + 1) * n) by lia.
      reflexivity.
  - assert (n = 1) as -> by lia. cbn.
    constructor; [|constructor].
    unfold Qeq. cbn. lia.
Qed.

Lemma map_const_repeat (A B : Type) (c : B) (l : list A) :
  map (fun _ => c) l = repeat c (length l).
Proof. induction l as [|x l IH]; [reflexivity|]. cbn. now rewrite IH. Qed.

Lemma gather_recvbufs (n size : Z) (junk : nat -> Q) :
  0 <= n -> 1 <= size ->
  sequence (map (MPI.recvbuf n junk size) (range size))
  = Ok (Some (map junk (seq 0 (Z.to_nat (n * size))))
          :: repeat None (Z.to_nat size - 1)).
Proof.
  intros Hn Hs.
  replace size with (1 + (size - 1)) at 2 by lia.
  rewrite range_add by lia. change (range 1) with [0].
  cbn [app map sequence].
  unfold MPI.recvbuf at 1. cbn [Z.eqb]. unfold Numpy.empty.
  destruct (Z.ltb_spec (n * size) 0) as [|_]; [nia|]. cbn [bind].
  rewrite map_map.
  rewrite (map_ext_in _ (fun _ : Z => Ok (@None (list Q)))).
  - rewrite (sequence_Ok Z (option (list Q)) (fun _ => None)). cbn [bind].
    f_equal. f_equal.
    rewrite map_const_repeat, range_length. f_equal. lia.
  - intros i Hi. apply range_In in Hi. unfold MPI.recvbuf.
    destruct (Z.eqb_spec (1 + i) 0); [lia|reflexivity].
Qed.

(** The gather on a communicator of [size] processes with blocks of [n]
    numbers. *)
Lemma gather_result (n size : Z) (junk : nat -> Q) :
  1 <= n -> 1 <= size ->
  exists all,
    MPI.gather n junk size
    = Ok (Some (Some all :: repeat None (Z.to_nat size - 1)))
    /\ Forall2 Qeq all (map (fun j => inject_Z (j + 1)) (range (n * size))).
Proof.
  intros Hn Hs. unfold MPI.gather.
  destruct (sequence_Forall2 Z (list Q) (list Q) (MPI.sendbuf n)
              (fun r => map (fun i => inject_Z (r * n + 1 + i)) (range n))
              (Forall2 Qeq) (range size)) as [blocks [Hb Pb]].
  { intros r _. now apply sendbuf_block. }
  rewrite Hb. cbn [bind].
  rewrite gather_recvbufs by lia. cbn [bind].
  apply Forall2_concat in Pb.
  assert (Et : concat (map (fun r => map (fun i => inject_Z (r * n + 1 + i))
                                        (range n)) (range size))
               = map (fun j => inject_Z (j + 1)) (range (n * size))).
  { rewrite <- (Z2Nat.id size) by lia.
    rewrite <- (map_map (fun j => j + 1) inject_Z).
    rewrite <- blocks_tile by lia.
    rewrite concat_map, map_map. f_equal.
    apply map_ext. intros r. now rewrite map_map. }
  rewrite Et in Pb.
  exists (concat blocks). split; [|exact Pb].
  unfold MPI.Gather.
  apply Forall2_length in Pb.
  rewrite Pb, !length_map, length_seq, range_length, Nat.eqb_refl.
  reflexivity.
Qed.

(** X9. In the gather cell the block of rank [rank] holds exactly the
    integers [rank*n + 1, ..., rank*n + n] for every block size [n >= 1]:
    the step of the [linspace] is exactly one.  For the notebook's
    [numDataPerRank = 10] and the ranks below 256 the binary64 evaluation
    yields these integers without rounding. *)
Theorem X9_gather_sendbuf (n rank : Z) :
  1 <= n ->
  (exists l, MPI.sendbuf n rank = Ok l
     /\ length l = Z.to_nat n
     /\ (forall i, 0 <= i < n ->
           exists q, nth_error l (Z.to_nat i) = Some q
                     /\ (q == inject_Z (rank * n + 1 + i))%Q))
  /\ (n = 10 -> 0 <= rank < 256 -> MPI.sendbuf_binary64_exact n rank = true).
Proof.
  intros Hn. split.
  - destruct (sendbuf_block n rank Hn) as [l [Hl Fl]].
    exists l. split; [exact Hl|]. split.
    + apply Forall2_length in Fl.
      now rewrite Fl, length_map, range_length.
    + intros i Hi.
      apply (Forall2_nth _ _ _ _ _ Fl (Z.to_nat i)).
      now rewrite nth_error_map, (range_nth n i Hi).
  - intros -> Hr.
    assert (Hall : forallb (MPI.sendbuf_binary64_exact 10) (range 256) = true)
      by (vm_compute; reflexivity).
    rewrite forallb_forall in Hall. apply Hall, range_In, Hr.
Qed.

Lemma X9_gather_sendbuf_witness :
  (exists l, MPI.sendbuf 10 3 = Ok l
     /\ length l = Z.to_nat 10
     /\ (forall i, 0 <= i < 10 ->
           exists q, nth_error l (Z.to_nat i) = Some q
                     /\ (q == inject_Z (3 * 10 + 1 + i))%Q))
  /\ (10 = 10 -> 0 <= 3 < 256 -> MPI.sendbuf_binary64_exact 10 3 = true).
Proof. apply (X9_gather_sendbuf 10 3). lia. Defined.

(** X10. The gather cell run by [size >= 1] processes with blocks of
    [n >= 1] numbers leaves in [recvbuf] of rank 0 the numbers
    [1, 2, ..., n * size] in order, and [None] on every other rank: the
    blocks of the ranks tile the range without gap or overlap, the buffer
    allocated has exactly the room the collective needs, and nothing of the
    uninitialised memory of [np.empty] survives. *)
Theorem X10_gather (n size : Z) (junk : nat -> Q) :
  1 <= n -> 1 <= size ->
  exists all,
    MPI.gather n junk size
    = Ok (Some (Some all :: repeat None (Z.to_nat size - 1)))
    /\ length all = Z.to_nat (n * size)
    /\ (forall j, 0 <= j < n * size ->
          exists q, nth_error all (Z.to_nat j) = Some q
                    /\ (q == inject_Z (j + 1))%Q).
Proof.
  intros Hn Hs.
  destruct (gather_result n size junk Hn Hs) as [all [Hg Fa]].
  exists all. split; [exact Hg|]. split.
  - apply Forall2_length in Fa.
    now rewrite Fa, length_map, range_length.
  - intros j Hj.
    apply (Forall2_nth _ _ _ _ _ Fa (Z.to_nat j)).
    now rewrite nth_error_map, (range_nth (n * size) j Hj).
Qed.

Lemma X10_gather_witness :
  exists all,
    MPI.gather 10 (fun _ => 99 # 7) 4
    = Ok (Some (Some all :: repeat None (Z.to_nat 4 - 1)))
    /\ length all = Z.to_nat (10 * 4)
    /\ (forall j, 0 <= j < 10 * 4 ->
          exists q, nth_error all (Z.to_nat j) = Some q
                    /\ (q == inject_Z (j + 1))%Q).
Proof. apply (X10_gather 10 4 (fun _ => 99 # 7)); lia. Defined.

(* ------------------------------------------------------------------ *)
(** ** Point-to-point *)
(* ------------------------------------------------------------------ *)

Lemma valid_rank_spec (size r : Z) :
  MPI.valid_rank size r = true <-> 0 <= r < size.
Proof. unfold MPI.valid_rank. rewrite andb_true_iff. lia. Qed.

Section DictionaryFacts.

Variable A : Type.
Variable data : A.
Variable size : Z.
Hypothesis two : 2 <= size.

Let delivered : MPI.world A :=
  {| MPI.at0 := MPI.Sent; MPI.at1 := MPI.Printed;
     MPI.channel := []; MPI.stdout1 := [data] |}.

Let reachable (w : MPI.world A) : Prop :=
  w = MPI.init
  \/ w = {| MPI.at0 := MPI.Sent; MPI.at1 := MPI.ToRecv;
            MPI.channel := [data]; MPI.stdout1 := [] |}
  \/ w = {| MPI.at0 := MPI.Sent; MPI.at1 := MPI.ToPrint data;
            MPI.channel := []; MPI.stdout1 := [] |}
  \/ w = delivered.

Lemma dict_valid_1 : MPI.valid_rank size 1 = true.
Proof. apply valid_rank_spec. lia. Qed.

Lemma dict_valid_0 : MPI.valid_rank size 0 = true.
Proof. apply valid_rank_spec. lia. Qed.

Lemma dict_step_reachable (w : MPI.world A) (r : Z) :
  reachable w -> reachable (MPI.step data size w r).
Proof.
  unfold reachable, delivered, MPI.init, MPI.step.
  intros [-> | [-> | [-> | ->]]];
    destruct (MPI.valid_rank size r); cbn [negb]; auto;
    destruct (r =? 0); cbn [MPI.at0 MPI.at1 MPI.channel MPI.stdout1 app];
    try rewrite dict_valid_1; auto;
    destruct (r =? 1); cbn [MPI.at0 MPI.at1 MPI.channel MPI.stdout1 app]; auto 6.
Qed.

Lemma dict_run_reachable (s : list Z) :
  forall w, reachable w -> reachable (MPI.run data size s w).
Proof.
  unfold MPI.run. induction s as [|r s IH]; intros w Hw; [exact Hw|].
  cbn [fold_left]. apply IH, dict_step_reachable, Hw.
Qed.

Lemma dict_finish (w : MPI.world A) :
  reachable w -> MPI.run data size [0; 1; 1] w = delivered.
Proof.
  unfold reachable, delivered, MPI.init, MPI.run, MPI.step.
  cbn [fold_left].
  intros [-> | [-> | [-> | ->]]];
    rewrite ?dict_valid_0, ?dict_valid_1;
    cbn [negb Z.eqb MPI.at0 MPI.at1 MPI.channel MPI.stdout1 app];
    rewrite ?dict_valid_0, ?dict_valid_1; reflexivity.
Qed.

Lemma dict_deliver (s : list Z) :
  let w := MPI.run data size s (MPI.init) in
  (forall f, MPI.at0 w <> MPI.SendFailed f)
  /\ (MPI.stdout1 w = [] \/ MPI.stdout1 w = [data])
  /\ MPI.run data size (s ++ [0; 1; 1]) (MPI.init) = delivered.
Proof.
  intros w.
  assert (Hw : reachable w)
    by (apply dict_run_reachable; left; reflexivity).
  repeat split.
  - intros f. destruct Hw as [E|[E|[E|E]]]; rewrite E; discriminate.
  - destruct Hw as [E|[E|[E|E]]]; rewrite E; cbn; auto.
  - unfold MPI.run. rewrite fold_left_app. now apply dict_finish.
Qed.

End DictionaryFacts.

Section ArrayFacts.

Variable numData : Z.
Variables start stop : Q.
Variable junk : nat -> Q.
Variable size : Z.
Variable data buffer : list Q.

Hypothesis two : 2 <= size.
Hypothesis data_sent : Numpy.linspace start stop numData = Ok data.
Hypothesis buffer_allocated : Numpy.empty junk numData = Ok buffer.
Hypothesis same_length : length data = length buffer.

Local Abbreviation step := (MPI.Array.step numData start stop junk size).
Local Abbreviation run := (MPI.Array.run numData start stop junk size).
Local Abbreviation consistent := (Exchange.consistent numData data buffer).
Local Abbreviation final := (Exchange.final numData data).

Lemma array_valid_1 : MPI.valid_rank size 1 = true.
Proof. apply valid_rank_spec. lia. Qed.

Lemma array_valid_0 : MPI.valid_rank size 0 = true.
Proof. apply valid_rank_spec. lia. Qed.

Lemma Recv_fits : MPI.Array.Recv buffer data = Some data.
Proof.
  unfold MPI.Array.Recv.
  destruct (Nat.leb_spec (length data) (length buffer)) as [_|]; [|lia].
  rewrite skipn_all2 by lia. now rewrite app_nil_r.
Qed.

Lemma array_step_consistent (w : MPI.Array.world) (r : Z) :
  consistent w -> consistent (step w r).
Proof.
  destruct w as [s0 r0 ch out].
  unfold Exchange.consistent.
  cbn [MPI.Array.at0 MPI.Array.at1 MPI.Array.channel MPI.Array.stdout1].
  intros (Hs & Hr & Hc & -> & ->).
  unfold MPI.Array.step.
  destruct (MPI.valid_rank size r); cbn [negb]; [|now repeat split].
  cbn [MPI.Array.at0 MPI.Array.at1 MPI.Array.channel MPI.Array.stdout1].
  destruct (r =? 0).
  - destruct s0; cbn in Hs; try contradiction;
      rewrite ?array_valid_1, ?data_sent;
      cbn [MPI.Array.at0 MPI.Array.at1 MPI.Array.channel MPI.Array.stdout1];
      destruct r0; cbn in Hr, Hc |- *; try contradiction; try lia;
      repeat split; auto; lia.
  - destruct (r =? 1); [|now repeat split].
    destruct r0; cbn in Hr; try contradiction; subst;
      destruct s0; cbn in Hs, Hc |- *; try contradiction; try lia;
      rewrite ?buffer_allocated, ?Recv_fits;
      cbn [MPI.Array.at0 MPI.Array.at1 MPI.Array.channel MPI.Array.stdout1];
      cbn; repeat split; auto; lia.
Qed.

Lemma array_run_consistent (s : list Z) :
  forall w, consistent w -> consistent (run s w).
Proof.
  unfold MPI.Array.run. induction s as [|r s IH]; intros w Hw; [exact Hw|].
  cbn [fold_left]. apply IH, array_step_consistent, Hw.
Qed.

Lemma array_step_0 (w : MPI.Array.world) :
  consistent w ->
  MPI.Array.at0 (step w 0) = Exchange.sender_next (MPI.Array.at0 w)
  /\ MPI.Array.at1 (step w 0) = MPI.Array.at1 w.
Proof.
  destruct w as [s0 r0 ch out]. intros (Hs & _).
  cbn [MPI.Array.at0] in Hs. unfold MPI.Array.step.
  rewrite array_valid_0. cbn [negb Z.eqb MPI.Array.at0 MPI.Array.at1].
  destruct s0; cbn in Hs; try contradiction;
    rewrite ?array_valid_1, ?data_sent; split; reflexivity.
Qed.

Lemma array_step_1 (w : MPI.Array.world) :
  consistent w ->
  MPI.Array.at0 (step w 1) = MPI.Array.at0 w
  /\ MPI.Array.at1 (step w 1)
     = Exchange.receiver_next numData data buffer
         (MPI.Array.at0 w) (MPI.Array.at1 w).
Proof.
  destruct w as [s0 r0 ch out].
  unfold Exchange.consistent.
  cbn [MPI.Array.at0 MPI.Array.at1 MPI.Array.channel MPI.Array.stdout1].
  intros (Hs & Hr & Hc & -> & ->).
  unfold MPI.Array.step. rewrite array_valid_1. cbn [negb Z.eqb].
  cbn [MPI.Array.at0 MPI.Array.at1 MPI.Array.channel MPI.Array.stdout1].
  destruct r0; cbn in Hr; try contradiction; subst;
    destruct s0; cbn in Hs, Hc |- *; try contradiction; try lia;
    rewrite ?buffer_allocated, ?Recv_fits; split; reflexivity.
Qed.

Lemma array_finish_sender (w : MPI.Array.world) :
  consistent w ->
  consistent (run [0; 0] w)
  /\ MPI.Array.at0 (run [0; 0] w) = MPI.Array.Sent
  /\ MPI.Array.at1 (run [0; 0] w) = MPI.Array.at1 w.
Proof.
  intros Hw. unfold MPI.Array.run. cbn [fold_left].
  pose proof (array_step_consistent w 0 Hw) as H1.
  destruct (array_step_0 w Hw) as [E1 F1].
  set (w1 := step w 0) in *. clearbody w1.
  pose proof (array_step_consistent w1 0 H1) as H2.
  destruct (array_step_0 w1 H1) as [E2 F2].
  split; [exact H2|]. rewrite E2, F2, E1, F1. split; [|reflexivity].
  destruct Hw as (Hs & _).
  destruct (MPI.Array.at0 w); cbn in Hs; try contradiction; reflexivity.
Qed.

Lemma array_finish_receiver (w : MPI.Array.world) :
  consistent w -> MPI.Array.at0 w = MPI.Array.Sent ->
  consistent (run [1; 1; 1; 1; 1] w)
  /\ MPI.Array.at0 (run [1; 1; 1; 1; 1] w) = MPI.Array.Sent
  /\ MPI.Array.at1 (run [1; 1; 1; 1; 1] w) = MPI.Array.Printed.
Proof.
  intros Hw Hsent. unfold MPI.Array.run. cbn [fold_left].
  assert (Hr : Exchange.receiver_ok numData data buffer (MPI.Array.at1 w))
    by apply Hw.
  pose proof (array_step_consistent w 1 Hw) as H1.
  destruct (array_step_1 w Hw) as [E1 F1]. rewrite Hsent in E1, F1.
  set (w1 := step w 1) in *. clearbody w1.
  pose proof (array_step_consistent w1 1 H1) as H2.
  destruct (array_step_1 w1 H1) as [E2 F2]. rewrite E1 in E2, F2.
  set (w2 := step w1 1) in *. clearbody w2.
  pose proof (array_step_consistent w2 1 H2) as H3.
  destruct (array_step_1 w2 H2) as [E3 F3]. rewrite E2 in E3, F3.
  set (w3 := step w2 1) in *. clearbody w3.
  pose proof (array_step_consistent w3 1 H3) as H4.
  destruct (array_step_1 w3 H3) as [E4 F4]. rewrite E3 in E4, F4.
  set (w4 := step w3 1) in *. clearbody w4.
  pose proof (array_step_consistent w4 1 H4) as H5.
  destruct (array_step_1 w4 H4) as [E5 F5]. rewrite E4 in E5, F5.
  split; [exact H5|]. split; [exact E5|].
  rewrite F5, F4, F3, F2, F1.
  destruct (MPI.Array.at1 w); cbn in Hr; try contradiction; reflexivity.
Qed.

Lemma array_run_app (s1 s2 : list Z) (w : MPI.Array.world) :
  run (s1 ++ s2) w = run s2 (run s1 w).
Proof. unfold MPI.Array.run. apply fold_left_app. Qed.

Lemma array_finish (w : MPI.Array.world) :
  consistent w -> run [0; 0; 1; 1; 1; 1; 1] w = final.
Proof.
  intros Hw.
  change [0; 0; 1; 1; 1; 1; 1] with ([0; 0] ++ [1; 1; 1; 1; 1]).
  rewrite (array_run_app [0; 0] [1; 1; 1; 1; 1] w).
  destruct (array_finish_sender w Hw) as (H1 & E1 & _).
  generalize dependent (run [0; 0] w). intros w1 H1 E1.
  destruct (array_finish_receiver w1 H1 E1) as (H2 & E2 & F2).
  generalize dependent (run [1; 1; 1; 1; 1] w1). intros w2 H2 E2 F2.
  destruct w2 as [s r ch out].
  destruct H2 as (_ & _ & _ & Hch & Hout).
  cbn [MPI.Array.at0 MPI.Array.at1 MPI.Array.channel MPI.Array.stdout1] in *.
  subst. reflexivity.
Qed.

Lemma array_init_consistent : consistent MPI.Array.init.
Proof. unfold Exchange.consistent. cbn. repeat split; lia. Qed.

Lemma array_exchange (s : list Z) :
  let w := run s MPI.Array.init in
  (forall f, MPI.Array.at0 w <> MPI.Array.SendFailed f)
  /\ (forall f, MPI.Array.at1 w <> MPI.Array.RecvFailed f)
  /\ (exists rest,
        MPI.Array.stdout1 w ++ rest
        = [MPI.Array.Line_count numData; MPI.Array.Line_data data])
  /\ run (s ++ [0; 0; 1; 1; 1; 1; 1]) MPI.Array.init = final.
Proof.
  intros w.
  assert (Hw : consistent w)
    by (apply array_run_consistent, array_init_consistent).
  destruct Hw as (Hs & Hr & _ & _ & Hout).
  repeat split.
  - intros f E. rewrite E in Hs. exact Hs.
  - intros f E. rewrite E in Hr. exact Hr.
  - rewrite Hout. destruct (MPI.Array.at1 w); cbn in Hr |- *;
      try contradiction; eauto.
  - rewrite array_run_app.
    apply array_finish, array_run_consistent, array_init_consistent.
Qed.

End ArrayFacts.

(* ------------------------------------------------------------------ *)
(** ** A single process *)
(* ------------------------------------------------------------------ *)

Lemma single_valid (r : Z) : MPI.valid_rank 1 r = (r =? 0).
Proof.
  unfold MPI.valid_rank.
  destruct (Z.eqb_spec r 0) as [->|]; [reflexivity|].
  destruct (Z.leb_spec 0 r), (Z.ltb_spec r 1); cbn; try reflexivity; lia.
Qed.

Section SingleProcess.

Variable A : Type.
Variable data : A.

Let failed : MPI.world A :=
  {| MPI.at0 := MPI.SendFailed (MPI.InvalidRank 1 1); MPI.at1 := MPI.ToRecv;
     MPI.channel := []; MPI.stdout1 := [] |}.

Lemma dict_single_step (w : MPI.world A) (r : Z) :
  w = MPI.init \/ w = failed ->
  MPI.step data 1 w r = (if r =? 0 then failed else w).
Proof.
  unfold MPI.step. rewrite single_valid.
  intros [-> | ->]; destruct (r =? 0); reflexivity.
Qed.

Lemma dict_single (s : list Z) :
  forall w, w = MPI.init \/ w = failed ->
    (MPI.run data 1 s w = MPI.init \/ MPI.run data 1 s w = failed)
    /\ (In 0 s -> MPI.run data 1 s w = failed).
Proof.
  unfold MPI.run. induction s as [|r s IH]; intros w Hw.
  - split; [exact Hw|intros []].
  - cbn [fold_left]. rewrite (dict_single_step w r Hw).
    destruct (Z.eqb_spec r 0) as [->|Hr].
    + destruct (IH failed (or_intror eq_refl)) as [_ H].
      assert (Hf : fold_left (MPI.step data 1) s failed = failed).
      { clear -s. induction s as [|q s IHs]; [reflexivity|].
        cbn [fold_left].
        rewrite (dict_single_step failed q (or_intror eq_refl)).
        now destruct (q =? 0). }
      rewrite Hf. split; [now right|reflexivity].
    + destruct (IH w Hw) as [H1 H2]. split; [exact H1|].
      intros [E|Hin]; [congruence|now apply H2].
Qed.

End SingleProcess.

Section SingleProcessArray.

Variable numData : Z.
Variables start stop : Q.
Variable junk : nat -> Q.

Local Abbreviation step := (MPI.Array.step numData start stop junk 1).
Local Abbreviation run := (MPI.Array.run numData start stop junk 1).

Let failed : MPI.Array.world :=
  {| MPI.Array.at0 := MPI.Array.SendFailed (MPI.InvalidRank 1 1);
     MPI.Array.at1 := MPI.Array.RecvCount;
     MPI.Array.channel := []; MPI.Array.stdout1 := [] |}.

Lemma array_single_step (w : MPI.Array.world) (r : Z) :
  w = MPI.Array.init \/ w = failed ->
  step w r = (if r =? 0 then failed else w).
Proof.
  unfold MPI.Array.step. rewrite single_valid.
  intros [-> | ->]; destruct (r =? 0); reflexivity.
Qed.

Lemma array_single (s : list Z) :
  forall w, w = MPI.Array.init \/ w = failed ->
    (run s w = MPI.Array.init \/ run s w = failed)
    /\ (In 0 s -> run s w = failed).
Proof.
  unfold MPI.Array.run. induction s as [|r s IH]; intros w Hw.
  - split; [exact Hw|intros []].
  - cbn [fold_left]. rewrite (array_single_step w r Hw).
    destruct (Z.eqb_spec r 0) as [->|Hr].
    + assert (Hf : fold_left step s failed = failed).
      { clear -s. induction s as [|q s IHs]; [reflexivity|].
        cbn [fold_left].
        rewrite (array_single_step failed q (or_intror eq_refl)).
        now destruct (q =? 0). }
      rewrite Hf. split; [now right|reflexivity].
    + destruct (IH w Hw) as [H1 H2]. split; [exact H1|].
      intros [E|Hin]; [congruence|now apply H2].
Qed.

End SingleProcessArray.

(** X11. The dictionary cell run by at least two processes, under every
    schedule: rank 0's send never fails, rank 1 prints nothing or exactly
    the dictionary rank 0 built, and from whatever state the schedule has
    led to, one more statement of rank 0 and two of rank 1 end the run
    with the dictionary printed once and no message left under way. *)
Theorem X11_pt2pt_delivers (A : Type) (data : A) (size : Z)
    (schedule : list Z) :
  2 <= size ->
  let w := MPI.run data size schedule MPI.init in
  (forall f, MPI.at0 w <> MPI.SendFailed f)
  /\ (MPI.stdout1 w = [] \/ MPI.stdout1 w = [data])
  /\ MPI.run data size (schedule ++ [0; 1; 1]) MPI.init
     = {| MPI.at0 := MPI.Sent; MPI.at1 := MPI.Printed;
          MPI.channel := []; MPI.stdout1 := [data] |}.
Proof. intros Hs. exact (dict_deliver A data size Hs schedule). Qed.

Lemma X11_pt2pt_delivers_witness :
  let w := MPI.run 7%nat 4 [1; 3; 0; 1] MPI.init in
  (forall f, MPI.at0 w <> MPI.SendFailed f)
  /\ (MPI.stdout1 w = [] \/ MPI.stdout1 w = [7%nat])
  /\ MPI.run 7%nat 4 ([1; 3; 0; 1] ++ [0; 1; 1]) MPI.init
     = {| MPI.at0 := MPI.Sent; MPI.at1 := MPI.Printed;
          MPI.channel := []; MPI.stdout1 := [7%nat] |}.
Proof. apply (X11_pt2pt_delivers nat 7%nat 4 [1; 3; 0; 1]). lia. Defined.

(** X12. The count-and-array cell run by at least two processes with
    [numData >= 0], under every schedule: neither rank fails, the count
    always arrives before the array, the buffer rank 1 allocates has
    exactly the length of the array rank 0 sends, so that the receive fits
    and leaves none of the uninitialised memory behind; rank 1 prints a
    prefix of [numData] followed by the very array rank 0 computed, and
    from whatever state the schedule has led to, two more statements of
    rank 0 and five of rank 1 end the run with both lines printed. *)
Theorem X12_pt2pt_array (numData : Z) (start stop : Q) (junk : nat -> Q)
    (size : Z) (schedule : list Z) :
  2 <= size -> 0 <= numData ->
  exists data,
    Numpy.linspace start stop numData = Ok data
    /\ length data = Z.to_nat numData
    /\ let w := MPI.Array.run numData start stop junk size schedule
                  MPI.Array.init in
       (forall f, MPI.Array.at0 w <> MPI.Array.SendFailed f)
       /\ (forall f, MPI.Array.at1 w <> MPI.Array.RecvFailed f)
       /\ (exists rest,
             MPI.Array.stdout1 w ++ rest
             = [MPI.Array.Line_count numData; MPI.Array.Line_data data])
       /\ MPI.Array.run numData start stop junk size
            (schedule ++ [0; 0; 1; 1; 1; 1; 1]) MPI.Array.init
          = Exchange.final numData data.
Proof.
  intros Hs Hn.
  destruct (linspace_length start stop numData Hn) as [data [Hd Hl]].
  exists data. split; [exact Hd|]. split; [exact Hl|].
  apply (array_exchange numData start stop junk size data
           (map junk (seq 0 (Z.to_nat numData))) Hs Hd).
  - unfold Numpy.empty. destruct (Z.ltb_spec numData 0); [lia|reflexivity].
  - now rewrite Hl, length_map, length_seq.
Qed.

Lemma X12_pt2pt_array_witness :
  exists data,
    Numpy.linspace 0 (314 # 100) 10 = Ok data
    /\ length data = Z.to_nat 10
    /\ let w := MPI.Array.run 10 0 (314 # 100) (fun _ => 99 # 7) 4
                  [1; 0; 2; 1] MPI.Array.init in
       (forall f, MPI.Array.at0 w <> MPI.Array.SendFailed f)
       /\ (forall f, MPI.Array.at1 w <> MPI.Array.RecvFailed f)
       /\ (exists rest,
             MPI.Array.stdout1 w ++ rest
             = [MPI.Array.Line_count 10; MPI.Array.Line_data data])
       /\ MPI.Array.run 10 0 (314 # 100) (fun _ => 99 # 7) 4
            ([1; 0; 2; 1] ++ [0; 0; 1; 1; 1; 1; 1]) MPI.Array.init
          = Exchange.final 10 data.
Proof.
  apply (X12_pt2pt_array 10 0 (314 # 100) (fun _ => 99 # 7) 4 [1; 0; 2; 1]);
    lia.
Defined.

(** X13. Run by a single process, as in the notebook itself, both
    point-to-point cells print nothing under any schedule, and as soon as
    rank 0 has executed its first statement it has stopped with the
    library's [Invalid rank] exception for the destination [1] in a
    communicator of size [1]: neither cell checks the size before it
    sends. *)
Theorem X13_single_process (A : Type) (data : A)
    (numData : Z) (start stop : Q) (junk : nat -> Q) (schedule : list Z) :
  let w := MPI.run data 1 schedule MPI.init in
  let v := MPI.Array.run numData start stop junk 1 schedule MPI.Array.init in
  MPI.stdout1 w = []
  /\ MPI.Array.stdout1 v = []
  /\ (In 0 schedule ->
        MPI.at0 w = MPI.SendFailed (MPI.InvalidRank 1 1)
        /\ MPI.Array.at0 v = MPI.Array.SendFailed (MPI.InvalidRank 1 1)).
Proof.
  intros w v.
  destruct (dict_single A data schedule MPI.init (or_introl eq_refl))
    as [Hw Hw0].
  destruct (array_single numData start stop junk schedule MPI.Array.init
              (or_introl eq_refl)) as [Hv Hv0].
  fold w in Hw, Hw0. fold v in Hv, Hv0.
  repeat split.
  - destruct Hw as [E|E]; rewrite E; reflexivity.
  - destruct Hv as [E|E]; rewrite E; reflexivity.
  - rewrite (Hw0 H). reflexivity.
  - rewrite (Hv0 H). reflexivity.
Qed.
